(** * B+ tree index over a paged buffer pool (src/index/b_plus_tree.cpp)

    A shallow embedding of the orchestrator [BPlusTree] of
    [src/index/b_plus_tree.cpp].  The orchestrator is written against three
    collaborators whose code is not part of the file: the buffer pool manager,
    the header page (root directory) and the two page classes (leaf and
    internal).  Their operations are modelled from the specification and are
    marked as such; every function of [b_plus_tree.cpp] itself is translated
    line by line into a small state-and-error monad.

    Conventions.
    - A pointer into a buffer-pool frame is the page id of the frame; reading
      or writing through the pointer reads or writes the frame's data in the
      pool.
    - Dereferencing a null pointer, viewing a page through the wrong page
      class, a failed [assert] and [throw std::bad_alloc] end the operation
      with an [Error].
    - The [while] loop of the descent and the recursion of [InsertIntoParent]
      take a fuel argument; running out of fuel is the error [OutOfFuel]. *)

From Stdlib Require Import ZArith List Lia String Bool.
From stdpp Require Import base gmap list strings.

Local Open Scope Z_scope.

(** ** Identifiers, keys and values *)

(** Modelled from the spec: [page_id_t] and its two reserved values come from
    [common/config.h], which is not under src/.  "A reserved sentinel value
    denotes no page"; the header page is "where page_id = 0" (comment of
    [UpdateRootPageId]). *)
Definition page_id_t : Type := Z.
Definition INVALID_PAGE_ID : page_id_t := -1.
Definition HEADER_PAGE_ID : page_id_t := 0.

(** [KeyType] is [GenericKey<N>] set from a 64-bit integer
    ([SetFromInteger]) and compared by [GenericComparator<N>]; [ValueType] is
    a record identifier built from an integer ([RID rid(key)]).  Both are
    integers here, and the comparator is the order of [Z]. *)
Definition KeyType : Type := Z.
Definition ValueType : Type := Z.

(** ** Pages *)

(** Modelled from the spec: the leaf page class is not under src/.  "Leaf
    node: ordered sequence of (Key, Value) pairs, unique keys, plus next_leaf
    page id"; both variants carry "page id, parent page id, size, max_size".
    The size is the length of the array. *)
Record LeafPage : Type := mkLeafPage {
  lf_page_id : page_id_t;
  lf_parent_page_id : page_id_t;
  lf_max_size : Z;
  lf_next_page_id : page_id_t;
  lf_array : list (KeyType * ValueType)
}.

(** Modelled from the spec: the internal page class is not under src/.
    "Internal node: ordered sequence of size entries where entry 0's key is a
    non-comparable sentinel and entries 1..size-1 pair a separator key with
    the page id of the subtree". *)
Record InternalPage : Type := mkInternalPage {
  in_page_id : page_id_t;
  in_parent_page_id : page_id_t;
  in_max_size : Z;
  in_array : list (KeyType * page_id_t)
}.

(** Modelled from the spec: [BPlusTreePage], the common base class of the two
    page classes ("Node, polymorphic over two variants"), is not under
    src/. *)
Inductive BPlusTreePage : Type :=
| TLeaf (lp : LeafPage)
| TInternal (ip : InternalPage).

(** Modelled from the spec: the page class of the buffer pool is not under
    src/.  The content of a frame is zeroed memory as [NewPage] hands it out,
    a tree page, or the header page with its records <index_name,
    root_page_id>; a frame carries a pin count and a dirty flag. *)
Inductive PageData : Type :=
| RawData
| TreeData (tp : BPlusTreePage)
| HeaderData (records : list (string * page_id_t)).

Record Page : Type := mkPage {
  data : PageData;
  pin_count : Z;
  is_dirty : bool
}.

(** The calls the tree makes on the buffer pool, in order (a ghost log). *)
Inductive BpmEvent : Type :=
| EvNew (p : page_id_t)
| EvFetch (p : page_id_t)
| EvUnpin (p : page_id_t) (dirty : bool)
| EvDelete (p : page_id_t).

(** Modelled from the spec: the buffer pool manager is not under src/.  It
    holds the pages by id, the next page id to allocate and the number of
    pages it can still hand out ("fails with OutOfMemory if none
    available"). *)
Record BufferPoolManager : Type := mkBpm {
  pages : gmap Z Page;
  next_page_id : page_id_t;
  free_pages : nat;
  trace : list BpmEvent
}.

(** The tree object together with the buffer pool it points to.  The two
    maximum sizes are what [Init] of the page classes stores in [max_size_]
    (in the source a constant derived from the page size). *)
Record State : Type := mkState {
  index_name_ : string;
  root_page_id_ : page_id_t;
  leaf_max_size_ : Z;
  internal_max_size_ : Z;
  buffer_pool_manager_ : BufferPoolManager
}.

(** ** The monad of tree operations *)

Inductive Error : Type :=
| BadAlloc      (* throw std::bad_alloc *)
| NullDeref     (* a null page pointer is dereferenced *)
| BadCast       (* a page is used through the wrong page class *)
| AssertFail    (* a failed assert *)
| OutOfFuel.    (* the model ran out of fuel *)

Inductive Result (A : Type) : Type :=
| Ok (a : A) (s : State)
| Err (e : Error).
Arguments Ok {A} a s.
Arguments Err {A} e.

Definition M (A : Type) : Type := State -> Result A.

Definition ret {A} (a : A) : M A := fun s => Ok a s.
Definition throw {A} (e : Error) : M A := fun _ => Err e.
Definition bind {A B} (m : M A) (k : A -> M B) : M B :=
  fun s => match m s with
           | Ok a s' => k a s'
           | Err e => Err e
           end.

Notation "'do' x <- m ; k" := (bind m (fun x => k))
  (at level 10, x name, m at level 100, k at level 200).
Notation "'run' m ; k" := (bind m (fun _ => k))
  (at level 10, m at level 100, k at level 200).

Definition get : M State := fun s => Ok s s.
Definition assert (b : bool) : M unit :=
  if b then ret tt else throw AssertFail.

Definition get_bpm : M BufferPoolManager :=
  fun s => Ok (buffer_pool_manager_ s) s.
Definition put_bpm (b : BufferPoolManager) : M unit :=
  fun s => Ok tt (mkState (index_name_ s) (root_page_id_ s) (leaf_max_size_ s)
                          (internal_max_size_ s) b).
Definition set_root_page_id (r : page_id_t) : M unit :=
  fun s => Ok tt (mkState (index_name_ s) r (leaf_max_size_ s)
                          (internal_max_size_ s) (buffer_pool_manager_ s)).

(** ** Buffer pool manager *)

Definition log_event (e : BpmEvent) (b : BufferPoolManager) : BufferPoolManager :=
  mkBpm (pages b) (next_page_id b) (free_pages b) (trace b ++ [e]).

Definition set_pages (ps : gmap Z Page) (b : BufferPoolManager) : BufferPoolManager :=
  mkBpm ps (next_page_id b) (free_pages b) (trace b).

(** Modelled from the spec: [allocate_page() -> (page_id, page)], "fails with
    OutOfMemory if none available".  The new page is zeroed and pinned once.
    [None] is the null pointer the source tests for. *)
Definition NewPage : M (option page_id_t) :=
  do b <- get_bpm;
  match free_pages b with
  | O => ret None
  | S n =>
      let p := next_page_id b in
      run put_bpm (mkBpm (<[p := mkPage RawData 1 false]> (pages b))
                         (p + 1) n (trace b ++ [EvNew p]));
      ret (Some p)
  end.

(** Modelled from the spec: [fetch_page(page_id) -> page], "fails if id
    invalid".  A successful fetch pins the page once more; the result tells
    whether the returned pointer is non-null. *)
Definition FetchPage (p : page_id_t) : M bool :=
  do b <- get_bpm;
  let b := log_event (EvFetch p) b in
  match pages b !! p with
  | None => run put_bpm b; ret false
  | Some pg =>
      run put_bpm (set_pages (<[p := mkPage (data pg) (pin_count pg + 1) (is_dirty pg)]> (pages b)) b);
      ret true
  end.

(** Modelled from the spec: [unpin_page(page_id, is_dirty)].  Releases one
    pin of a pinned page and records the dirty flag; on a page that is absent
    or not pinned it does nothing and reports failure. *)
Definition UnpinPage (p : page_id_t) (dirty : bool) : M bool :=
  do b <- get_bpm;
  let b := log_event (EvUnpin p dirty) b in
  match pages b !! p with
  | None => run put_bpm b; ret false
  | Some pg =>
      if 0 <? pin_count pg then
        run put_bpm (set_pages (<[p := mkPage (data pg) (pin_count pg - 1)
                                              (is_dirty pg || dirty)]> (pages b)) b);
        ret true
      else (run put_bpm b; ret false)
  end.

(** Modelled from the spec: [delete_page(page_id) -> bool], "fails if still
    pinned". *)
Definition DeletePage (p : page_id_t) : M bool :=
  do b <- get_bpm;
  let b := log_event (EvDelete p) b in
  match pages b !! p with
  | None => run put_bpm b; ret true
  | Some pg =>
      if 0 <? pin_count pg then (run put_bpm b; ret false)
      else
        run put_bpm (mkBpm (delete p (pages b)) (next_page_id b)
                           (S (free_pages b)) (trace b));
        ret true
  end.

(** Access to the memory of a frame through a page pointer. *)
Definition read_data (p : page_id_t) : M PageData :=
  do b <- get_bpm;
  match pages b !! p with
  | None => throw NullDeref
  | Some pg => ret (data pg)
  end.

Definition write_data (p : page_id_t) (d : PageData) : M unit :=
  do b <- get_bpm;
  match pages b !! p with
  | None => throw NullDeref
  | Some pg =>
      put_bpm (set_pages (<[p := mkPage d (pin_count pg) (is_dirty pg)]> (pages b)) b)
  end.

(** [reinterpret_cast<BPlusTreePage *>(page->GetData())] followed by a use of
    the page. *)
Definition read_tree (p : page_id_t) : M BPlusTreePage :=
  do d <- read_data p;
  match d with
  | TreeData tp => ret tp
  | _ => throw BadCast
  end.

Definition read_leaf (p : page_id_t) : M LeafPage :=
  do tp <- read_tree p;
  match tp with
  | TLeaf lp => ret lp
  | TInternal _ => throw BadCast
  end.

Definition read_internal (p : page_id_t) : M InternalPage :=
  do tp <- read_tree p;
  match tp with
  | TInternal ip => ret ip
  | TLeaf _ => throw BadCast
  end.

Definition write_leaf (p : page_id_t) (lp : LeafPage) : M unit :=
  write_data p (TreeData (TLeaf lp)).
Definition write_internal (p : page_id_t) (ip : InternalPage) : M unit :=
  write_data p (TreeData (TInternal ip)).

(** [buffer_pool_manager_->FetchPage(id)->GetData()]: the result of the fetch
    is dereferenced without a null check. *)
Definition fetch_deref (p : page_id_t) : M unit :=
  do ok <- FetchPage p;
  if ok then ret tt else throw NullDeref.

(** ** Page classes *)

Module BasePage.

(** Modelled from the spec: the accessors of [BPlusTreePage] ([is_leaf()],
    [size()], [max_size()], the parent page id and the page id) are not under
    src/. *)
Definition IsLeafPage (tp : BPlusTreePage) : bool :=
  match tp with TLeaf _ => true | TInternal _ => false end.

(** Modelled from the spec: [size()], the number of entries of the page. *)
Definition GetSize (tp : BPlusTreePage) : Z :=
  match tp with
  | TLeaf lp => Z.of_nat (length (lf_array lp))
  | TInternal ip => Z.of_nat (length (in_array ip))
  end.

(** Modelled from the spec: [max_size()], the bound [Init] stored. *)
Definition GetMaxSize (tp : BPlusTreePage) : Z :=
  match tp with
  | TLeaf lp => lf_max_size lp
  | TInternal ip => in_max_size ip
  end.

(** Modelled from the spec: [GetMinSize] is not under src/; "a derived
    min_size (conventionally ⌈max_size/2⌉)". *)
Definition GetMinSize (tp : BPlusTreePage) : Z := (GetMaxSize tp + 1) / 2.

(** Modelled from the spec: the parent page id, "sentinel for the root". *)
Definition GetParentPageId (tp : BPlusTreePage) : page_id_t :=
  match tp with
  | TLeaf lp => lf_parent_page_id lp
  | TInternal ip => in_parent_page_id ip
  end.

(** Modelled from the spec: the page id of the page itself. *)
Definition GetPageId (tp : BPlusTreePage) : page_id_t :=
  match tp with
  | TLeaf lp => lf_page_id lp
  | TInternal ip => in_page_id ip
  end.

(** Modelled from the spec: "re-parent" a page, the setter of the parent page
    id. *)
Definition SetParentPageId (parent : page_id_t) (tp : BPlusTreePage) : BPlusTreePage :=
  match tp with
  | TLeaf lp =>
      TLeaf (mkLeafPage (lf_page_id lp) parent (lf_max_size lp)
                        (lf_next_page_id lp) (lf_array lp))
  | TInternal ip =>
      TInternal (mkInternalPage (in_page_id ip) parent (in_max_size ip) (in_array ip))
  end.

End BasePage.

Module Leaf.

(** Modelled from the spec: [B_PLUS_TREE_LEAF_PAGE_TYPE::Init(page_id,
    parent_id)] is not under src/.  An empty leaf with no successor. *)
Definition Init (page_id parent_id max_size : Z) : LeafPage :=
  mkLeafPage page_id parent_id max_size INVALID_PAGE_ID [].

(** Modelled from the spec: [size()], [max_size()] and [min_size()] of the
    base class, on a leaf. *)
Definition GetSize (lp : LeafPage) : Z := Z.of_nat (length (lf_array lp)).
Definition GetMaxSize (lp : LeafPage) : Z := lf_max_size lp.
Definition GetMinSize (lp : LeafPage) : Z := BasePage.GetMinSize (TLeaf lp).

(** Assignments to the array and to the successor of a leaf. *)
Definition set_array (arr : list (KeyType * ValueType)) (lp : LeafPage) : LeafPage :=
  mkLeafPage (lf_page_id lp) (lf_parent_page_id lp) (lf_max_size lp)
             (lf_next_page_id lp) arr.

Definition set_next (next : page_id_t) (lp : LeafPage) : LeafPage :=
  mkLeafPage (lf_page_id lp) (lf_parent_page_id lp) (lf_max_size lp)
             next (lf_array lp).

(** Modelled from the spec: [KeyAt(i)]; outside the array the key read is
    the zero key. *)
Definition KeyAt (lp : LeafPage) (i : Z) : KeyType :=
  if i <? 0 then 0 else fst (nth (Z.to_nat i) (lf_array lp) (0, 0)).

(** Modelled from the spec: "an ordered, duplicate-checked insert: if the
    key already exists, no mutation occurs". *)
Fixpoint insert_sorted (key : KeyType) (value : ValueType)
         (arr : list (KeyType * ValueType)) : list (KeyType * ValueType) :=
  match arr with
  | [] => [(key, value)]
  | (k, v) :: rest =>
      if key <? k then (key, value) :: arr
      else if key =? k then arr
      else (k, v) :: insert_sorted key value rest
  end.

(** Modelled from the spec: the leaf's ordered [insert]; the source uses its
    result as the size of the page after the insertion. *)
Definition Insert (key : KeyType) (value : ValueType) (lp : LeafPage) : LeafPage * Z :=
  let lp' := set_array (insert_sorted key value (lf_array lp)) lp in
  (lp', GetSize lp').

(** Modelled from the spec: "perform an ordered search for the key". *)
Fixpoint lookup_sorted (key : KeyType) (arr : list (KeyType * ValueType)) : option ValueType :=
  match arr with
  | [] => None
  | (k, v) :: rest => if key =? k then Some v else lookup_sorted key rest
  end.

(** Modelled from the spec: the leaf's ordered [lookup] by key. *)
Definition Lookup (key : KeyType) (lp : LeafPage) : option ValueType :=
  lookup_sorted key (lf_array lp).

(** Modelled from the spec: "remove the key if present (no-op if
    absent)". *)
Fixpoint remove_key (key : KeyType) (arr : list (KeyType * ValueType))
  : list (KeyType * ValueType) :=
  match arr with
  | [] => []
  | (k, v) :: rest => if key =? k then rest else (k, v) :: remove_key key rest
  end.

(** Modelled from the spec: the leaf's ordered [remove]; the source uses its
    result as the size of the page after the deletion. *)
Definition RemoveAndDeleteRecord (key : KeyType) (lp : LeafPage) : LeafPage * Z :=
  let lp' := set_array (remove_key key (lf_array lp)) lp in
  (lp', GetSize lp').

(** Modelled from the spec: "Move the upper half of entries (ceiling split:
    the new node receives ⌈(max_size+1)/2⌉ entries) from the original into
    the new page, preserving order; for leaf splits additionally relink the
    next_leaf chain (new node takes over the original's old successor;
    original's next_leaf becomes the new node)." *)
Definition MoveHalfTo (lp recipient : LeafPage) : LeafPage * LeafPage :=
  let moved := (lf_max_size lp + 1 + 1) / 2 in
  let keep := Z.to_nat (GetSize lp - moved) in
  let recipient' :=
    set_next (lf_next_page_id lp)
             (set_array (lf_array recipient ++ drop keep (lf_array lp)) recipient) in
  let lp' := set_next (lf_page_id recipient) (set_array (take keep (lf_array lp)) lp) in
  (lp', recipient').

End Leaf.

Module Internal.

(** Modelled from the spec: [BPlusTreeInternalPage::Init(page_id,
    parent_id)] is not under src/. *)
Definition Init (page_id parent_id max_size : Z) : InternalPage :=
  mkInternalPage page_id parent_id max_size [].

(** Modelled from the spec: [size()] and [max_size()] of the base class, on an
    internal page. *)
Definition GetSize (ip : InternalPage) : Z := Z.of_nat (length (in_array ip)).
Definition GetMaxSize (ip : InternalPage) : Z := in_max_size ip.

(** Assignment to the array of an internal page. *)
Definition set_array (arr : list (KeyType * page_id_t)) (ip : InternalPage) : InternalPage :=
  mkInternalPage (in_page_id ip) (in_parent_page_id ip) (in_max_size ip) arr.

(** Modelled from the spec: [KeyAt(i)] and [ValueAt(i)]; outside the array
    the entry read is the zero key with the sentinel page id. *)
Definition KeyAt (ip : InternalPage) (i : Z) : KeyType :=
  if i <? 0 then 0 else fst (nth (Z.to_nat i) (in_array ip) (0, INVALID_PAGE_ID)).

Definition ValueAt (ip : InternalPage) (i : Z) : page_id_t :=
  if i <? 0 then INVALID_PAGE_ID
  else snd (nth (Z.to_nat i) (in_array ip) (0, INVALID_PAGE_ID)).

(** Modelled from the spec: [value_index_of(page_id)], the index of the
    entry whose child is the given page, -1 when there is none. *)
Fixpoint value_index_from (i : Z) (value : page_id_t) (arr : list (KeyType * page_id_t)) : Z :=
  match arr with
  | [] => -1
  | (_, v) :: rest => if v =? value then i else value_index_from (i + 1) value rest
  end.

(** Modelled from the spec: [value_index_of(page_id)], the search from
    index 0. *)
Definition ValueIndex (ip : InternalPage) (value : page_id_t) : Z :=
  value_index_from 0 value (in_array ip).

(** Modelled from the spec: "use its ordered separators to select the
    unique child whose key range contains the search key (last separator ≤
    key wins; the first separator strictly greater than key defines the
    boundary, i.e. standard upper-bound search)".  The key of entry 0 is
    not compared. *)
Fixpoint lookup_from (key : KeyType) (child : page_id_t)
         (seps : list (KeyType * page_id_t)) : page_id_t :=
  match seps with
  | [] => child
  | (k, v) :: rest => if k <=? key then lookup_from key v rest else child
  end.

(** Modelled from the spec: the internal page's [lookup]; an empty page has
    no child to name. *)
Definition Lookup (key : KeyType) (ip : InternalPage) : page_id_t :=
  match in_array ip with
  | [] => INVALID_PAGE_ID
  | (_, v0) :: seps => lookup_from key v0 seps
  end.

(** Modelled from the spec: "populate it with exactly two children — old
    node at slot 0 (sentinel key) and new node at slot 1 (the
    separator)". *)
Definition PopulateNewRoot (old_value : page_id_t) (new_key : KeyType)
           (new_value : page_id_t) (ip : InternalPage) : InternalPage :=
  set_array [(0, old_value); (new_key, new_value)] ip.

(** Modelled from the spec: "insert (separator, new_node.page_id)
    immediately after the old node's existing entry". *)
Fixpoint insert_after (old_value : page_id_t) (new_key : KeyType) (new_value : page_id_t)
         (arr : list (KeyType * page_id_t)) : list (KeyType * page_id_t) :=
  match arr with
  | [] => [(new_key, new_value)]
  | (k, v) :: rest =>
      if v =? old_value then (k, v) :: (new_key, new_value) :: rest
      else (k, v) :: insert_after old_value new_key new_value rest
  end.

(** Modelled from the spec: the same insertion; the source uses its result as
    the size of the page after it. *)
Definition InsertNodeAfter (old_value : page_id_t) (new_key : KeyType)
           (new_value : page_id_t) (ip : InternalPage) : InternalPage * Z :=
  let ip' := set_array (insert_after old_value new_key new_value (in_array ip)) ip in
  (ip', GetSize ip').

(** Modelled from the spec: "update the separator key in the shared parent":
    replace the key of the entry whose child is [value]. *)
Fixpoint set_key_of (value : page_id_t) (key : KeyType)
         (arr : list (KeyType * page_id_t)) : list (KeyType * page_id_t) :=
  match arr with
  | [] => []
  | (k, v) :: rest =>
      if v =? value then (key, v) :: rest else (k, v) :: set_key_of value key rest
  end.

(** Modelled from the spec: "re-parent every moved child to point at the new
    page", through the buffer pool: fetch the child, set its parent page id,
    release it dirtied. *)
Definition reparent (parent child : page_id_t) : M unit :=
  run fetch_deref child;
  do tp <- read_tree child;
  run write_data child (TreeData (BasePage.SetParentPageId parent tp));
  run UnpinPage child true;
  ret tt.

Fixpoint reparent_all (parent : page_id_t) (children : list (KeyType * page_id_t)) : M unit :=
  match children with
  | [] => ret tt
  | (_, c) :: rest => run reparent parent c; reparent_all parent rest
  end.

(** Modelled from the spec: "Move the upper half of entries (ceiling split:
    the new node receives ⌈(max_size+1)/2⌉ entries) from the original into
    the new page, preserving order.  For internal splits, additionally
    re-parent every moved child to point at the new page." *)
Definition MoveHalfTo (node recipient : page_id_t) : M unit :=
  do ip <- read_internal node;
  do rp <- read_internal recipient;
  let moved := (in_max_size ip + 1 + 1) / 2 in
  let keep := Z.to_nat (GetSize ip - moved) in
  let items := drop keep (in_array ip) in
  run write_internal recipient (set_array (in_array rp ++ items) rp);
  run write_internal node (set_array (take keep (in_array ip)) ip);
  reparent_all recipient items.

(** Modelled from the spec: "update the separator key in the shared parent",
    through the buffer pool. *)
Definition update_separator (parent child : page_id_t) (key : KeyType) : M unit :=
  run fetch_deref parent;
  do pp <- read_internal parent;
  run write_internal parent (set_array (set_key_of child key (in_array pp)) pp);
  run UnpinPage parent true;
  ret tt.

End Internal.

Module TreePage.

(** The array of a page of either class, its assignment and its first key
    (the zero key when the array is empty, as [KeyAt] reads it). *)
Definition entries (tp : BPlusTreePage) : list (KeyType * Z) :=
  match tp with
  | TLeaf lp => lf_array lp
  | TInternal ip => in_array ip
  end.

Definition set_entries (arr : list (KeyType * Z)) (tp : BPlusTreePage) : BPlusTreePage :=
  match tp with
  | TLeaf lp => TLeaf (Leaf.set_array arr lp)
  | TInternal ip => TInternal (Internal.set_array arr ip)
  end.

Definition first_key (arr : list (KeyType * Z)) : KeyType :=
  match arr with
  | [] => 0
  | (k, _) :: _ => k
  end.

(** Modelled from the spec: [move_first_to_end_of(peer)], consumed "for both
    node kinds": "move the donor's first entry to the end of the receiver
    and update the separator key in the shared parent to the donor's new
    first key".  The separator is the key of the parent's entry for the
    donor. *)
Definition MoveFirstToEndOf (node recipient : page_id_t) : M unit :=
  do tp <- read_tree node;
  do rp <- read_tree recipient;
  match entries tp with
  | [] => ret tt
  | (k, v) :: rest =>
      run write_data recipient (TreeData (set_entries (entries rp ++ [(k, v)]) rp));
      run write_data node (TreeData (set_entries rest tp));
      Internal.update_separator (BasePage.GetParentPageId tp) node (first_key rest)
  end.

(** Modelled from the spec: [move_last_to_front_of(peer)], consumed "for both
    node kinds": "move the donor's last entry to the front of the receiver
    and update the parent separator to the receiver's new first key".  The
    separator is the key of the parent's entry for the receiver. *)
Definition MoveLastToFrontOf (node recipient : page_id_t) : M unit :=
  do tp <- read_tree node;
  do rp <- read_tree recipient;
  match rev (entries tp) with
  | [] => ret tt
  | (k, v) :: rest =>
      run write_data recipient (TreeData (set_entries ((k, v) :: entries rp) rp));
      run write_data node (TreeData (set_entries (rev rest) tp));
      Internal.update_separator (BasePage.GetParentPageId rp) recipient k
  end.

End TreePage.

Module Header.

(** Modelled from the spec: the header page ([page/header_page.h]) is not
    under src/.  It is the root directory, the "mapping from index name to
    current root page id"; [find_record] reads the root recorded for a
    name. *)
Fixpoint find_record (name : string) (records : list (string * page_id_t)) : option page_id_t :=
  match records with
  | [] => None
  | (n, r) :: rest => if String.eqb n name then Some r else find_record name rest
  end.

(** Modelled from the spec: [upsert_root(index_name, root_page_id,
    is_new_entry)]: the root recorded for the name becomes [root_id], in
    place when the name is recorded and as a new record when it is not.  The
    spec gives the call no failure case ("every mutation is immediately
    persisted to the root directory"). *)
Fixpoint upsert_root (name : string) (root_id : page_id_t)
         (records : list (string * page_id_t)) : list (string * page_id_t) :=
  match records with
  | [] => [(name, root_id)]
  | (n, r) :: rest =>
      if String.eqb n name then (n, root_id) :: rest
      else (n, r) :: upsert_root name root_id rest
  end.

(** Modelled from the spec: [upsert_root] with [is_new_entry = true]. *)
Definition InsertRecord (name : string) (root_id : page_id_t)
           (records : list (string * page_id_t)) : list (string * page_id_t) :=
  upsert_root name root_id records.

(** Modelled from the spec: [upsert_root] with [is_new_entry = false]. *)
Definition UpdateRecord (name : string) (root_id : page_id_t)
           (records : list (string * page_id_t)) : list (string * page_id_t) :=
  upsert_root name root_id records.

End Header.

(** ** The tree: src/index/b_plus_tree.cpp *)

(** The constructor: a tree named [name] over the buffer pool [bpm], with the
    given root page id (the sentinel by default). *)
Definition BPlusTree (name : string) (bpm : BufferPoolManager)
           (leaf_max_size internal_max_size : Z) (root_page_id : page_id_t) : State :=
  mkState name root_page_id leaf_max_size internal_max_size bpm.

Definition IsEmpty : M bool :=
  do s <- get; ret (root_page_id_ s =? INVALID_PAGE_ID).

(** [GetValue] takes the result vector by reference; the model returns it
    next to the boolean. *)
Definition GetValue (key : KeyType) (result : list ValueType) : M (bool * list ValueType) :=
  ret (false, result).

(** [UpdateRootPageId(insert_record)]. *)
Definition UpdateRootPageId (insert_record : bool) : M unit :=
  do s <- get;
  run fetch_deref HEADER_PAGE_ID;
  do d <- read_data HEADER_PAGE_ID;
  match d with
  | HeaderData records =>
      run (if insert_record
           then write_data HEADER_PAGE_ID
                  (HeaderData (Header.InsertRecord (index_name_ s) (root_page_id_ s) records))
           else write_data HEADER_PAGE_ID
                  (HeaderData (Header.UpdateRecord (index_name_ s) (root_page_id_ s) records)));
      run UnpinPage HEADER_PAGE_ID true;
      ret tt
  | _ => throw BadCast
  end.

(** The root-to-leaf loop that [InsertIntoLeaf] (lines 99-105) and [Remove]
    (lines 211-217) share word for word.  It starts from a pinned page and
    returns the id of the leaf it reaches, still pinned. *)
Fixpoint descend (fuel : nat) (key : KeyType) (page_id : page_id_t) : M page_id_t :=
  match fuel with
  | O => throw OutOfFuel
  | S fuel' =>
      do btp <- read_tree page_id;
      match btp with
      | TLeaf _ => ret page_id
      | TInternal ip =>
          let next := Internal.Lookup key ip in
          run UnpinPage page_id false;
          run fetch_deref next;
          descend fuel' key next
      end
  end.

(** [Split(node)]: the template is instantiated at the leaf class by
    [InsertIntoLeaf] and at the internal class by [InsertIntoParent]; the
    model follows the class of the page. *)
Definition Split (node : page_id_t) : M page_id_t :=
  do s <- get;
  do newPage <- NewPage;
  match newPage with
  | None => throw BadAlloc
  | Some page_id =>
      do n <- read_tree node;
      match n with
      | TLeaf lp =>
          let ptr := Leaf.Init page_id (lf_parent_page_id lp) (leaf_max_size_ s) in
          let '(lp', ptr') := Leaf.MoveHalfTo lp ptr in
          run write_leaf page_id ptr';
          run write_leaf node lp';
          ret page_id
      | TInternal ip =>
          run write_internal page_id
              (Internal.Init page_id (in_parent_page_id ip) (internal_max_size_ s));
          run Internal.MoveHalfTo node page_id;
          ret page_id
      end
  end.

Definition SetParentPageId (node parent : page_id_t) : M unit :=
  do tp <- read_tree node;
  write_data node (TreeData (BasePage.SetParentPageId parent tp)).

Fixpoint InsertIntoParent (fuel : nat) (old_node : page_id_t) (key : KeyType)
         (new_node : page_id_t) : M unit :=
  match fuel with
  | O => throw OutOfFuel
  | S fuel' =>
      do s <- get;
      do old <- read_tree old_node;
      let parentPageId := BasePage.GetParentPageId old in
      if parentPageId =? INVALID_PAGE_ID then
        do newPage <- NewPage;
        match newPage with
        | None => throw BadAlloc
        | Some parentPageId =>
            run write_internal parentPageId
                (Internal.Init parentPageId INVALID_PAGE_ID (internal_max_size_ s));
            run set_root_page_id parentPageId;
            run UpdateRootPageId false;
            run SetParentPageId old_node parentPageId;
            run SetParentPageId new_node parentPageId;
            do ip <- read_internal parentPageId;
            run write_internal parentPageId (Internal.PopulateNewRoot old_node key new_node ip);
            run UnpinPage parentPageId true;
            ret tt
        end
      else
        run fetch_deref parentPageId;
        do ip <- read_internal parentPageId;
        let '(ip', size) := Internal.InsertNodeAfter old_node key new_node ip in
        run write_internal parentPageId ip';
        run (if size >? Internal.GetMaxSize ip' then
               do newlp <- Split parentPageId;
               do nl <- read_internal newlp;
               run InsertIntoParent fuel' parentPageId (Internal.KeyAt nl 0) newlp;
               run UnpinPage newlp true;
               ret tt
             else ret tt);
        run UnpinPage parentPageId true;
        ret tt
  end.

Definition InsertIntoLeaf (fuel : nat) (key : KeyType) (value : ValueType) : M bool :=
  do s <- get;
  let root := root_page_id_ s in
  run fetch_deref root;
  do page_id <- descend fuel key root;
  do lp <- read_leaf page_id;
  let originalSize := Leaf.GetSize lp in
  let '(lp', newSize) := Leaf.Insert key value lp in
  run write_leaf page_id lp';
  run (if newSize >? Leaf.GetMaxSize lp' then
         do newlp <- Split page_id;
         do oldlp <- read_leaf page_id;
         run InsertIntoParent fuel page_id (Leaf.KeyAt oldlp (Leaf.GetSize oldlp - 1)) newlp;
         run UnpinPage newlp true;
         ret tt
       else ret tt);
  run UnpinPage page_id true;
  ret (negb (originalSize =? newSize)).

Definition StartNewTree (fuel : nat) (key : KeyType) (value : ValueType) : M unit :=
  do s <- get;
  do empty <- IsEmpty;
  run assert empty;
  do page <- NewPage;
  match page with
  | None => throw BadAlloc
  | Some page_id =>
      run set_root_page_id page_id;
      run write_leaf page_id (Leaf.Init page_id INVALID_PAGE_ID (leaf_max_size_ s));
      run InsertIntoLeaf fuel key value;
      run UnpinPage page_id true;
      ret tt
  end.

Definition Insert (fuel : nat) (key : KeyType) (value : ValueType) : M bool :=
  do empty <- IsEmpty;
  if empty then (run StartNewTree fuel key value; ret true)
  else InsertIntoLeaf fuel key value.

(** Modelled from the spec: [GetInternalPage(page_id)], which
    [CoalesceOrRedistribute] calls, is defined nowhere under src/.  Relations
    between pages are "look up by id through the buffer pool"; the page is
    fetched and its memory is used through the returned pointer. *)
Definition GetInternalPage (page_id : page_id_t) : M unit :=
  fetch_deref page_id.

(** [Redistribute(neighbor_node, node, index)]: the move primitive of the
    page class is called on the neighbour with the node as its peer, the
    first-to-end move when [index] is 0 and the last-to-front move
    otherwise. *)
Definition Redistribute (neighbor_node node : page_id_t) (index : Z) : M unit :=
  if index =? 0 then TreePage.MoveFirstToEndOf neighbor_node node
  else TreePage.MoveLastToFrontOf neighbor_node node.

(** [Coalesce] and [AdjustRoot] are never called. *)
Definition Coalesce (neighbor_node node parent : page_id_t) (index : Z) : M bool :=
  ret false.

Definition AdjustRoot (old_root_node : page_id_t) : M bool :=
  ret false.

(** [CoalesceOrRedistribute(node)].  The two look-ahead blocks either return
    (the [Some] result) or leave behind whether the sibling pointer is
    non-null. *)
Definition CoalesceOrRedistribute (node : page_id_t) : M bool :=
  do btp <- read_tree node;
  let parent := BasePage.GetParentPageId btp in
  run GetInternalPage parent;
  do pp <- read_internal parent;
  let idx := Internal.ValueIndex pp (BasePage.GetPageId btp) in
  do left <-
     (if idx - 1 >=? 0 then
        let leftSibling := Internal.ValueAt pp (idx - 1) in
        run GetInternalPage leftSibling;
        do ls <- read_tree leftSibling;
        if BasePage.GetSize ls >? BasePage.GetMinSize ls then
          run Redistribute leftSibling node 0;
          ret (Some false, true)
        else ret (None, true)
      else ret (None, false));
  match left with
  | (Some result, _) => ret result
  | (None, leftSibling) =>
      do pp <- read_internal parent;
      do right <-
         (if idx + 1 <? Internal.GetSize pp then
            let rightSibling := Internal.ValueAt pp (idx + 1) in
            run GetInternalPage rightSibling;
            do rs <- read_tree rightSibling;
            if BasePage.GetSize rs >? BasePage.GetMinSize rs then
              ret (Some false, true)
            else ret (None, true)
          else ret (None, false));
      match right with
      | (Some result, _) => ret result
      | (None, rightSibling) =>
          run assert (leftSibling || rightSibling);
          ret true
      end
  end.

Definition Remove (fuel : nat) (key : KeyType) : M unit :=
  do empty <- IsEmpty;
  if empty then ret tt
  else
    do s <- get;
    let root := root_page_id_ s in
    run fetch_deref root;
    do page_id <- descend fuel key root;
    do lp <- read_leaf page_id;
    let '(lp', size) := Leaf.RemoveAndDeleteRecord key lp in
    run write_leaf page_id lp';
    run (if size <? Leaf.GetMinSize lp' then
           do shouldRemovePage <- CoalesceOrRedistribute page_id;
           if shouldRemovePage then
             run UnpinPage page_id true;
             do deletePage <- DeletePage page_id;
             assert deletePage
           else ret tt
         else ret tt);
    run UnpinPage page_id true;
    ret tt.

(** *** Iterators *)

(** Modelled from the spec: the iterator class is not under src/.  A cursor
    is a leaf page id and an index into it; it "advances within a leaf and, on
    exhaustion, follows next_leaf to the next page, terminating when
    next_leaf is sentinel".  The default-constructed iterator stands on no
    page. *)
Record IndexIterator : Type := mkIterator {
  it_page_id : page_id_t;
  it_index : nat
}.

(** Modelled from the spec: [IndexIterator()], the iterator constructed from
    no tree and no page. *)
Definition IndexIterator_default : IndexIterator := mkIterator INVALID_PAGE_ID 0.

(** Modelled from the spec: the entries an iterator still visits, in order:
    the rest of its leaf, then the leaves along [next_leaf]. *)
Fixpoint remaining (fuel : nat) (s : State) (it : IndexIterator) : list (KeyType * ValueType) :=
  match fuel with
  | O => []
  | S fuel' =>
      if it_page_id it =? INVALID_PAGE_ID then []
      else match pages (buffer_pool_manager_ s) !! it_page_id it with
           | Some (mkPage (TreeData (TLeaf lp)) _ _) =>
               drop (it_index it) (lf_array lp)
                    ++ remaining fuel' s (mkIterator (lf_next_page_id lp) 0)
           | _ => []
           end
  end.

Definition Begin : M IndexIterator := ret IndexIterator_default.

Definition Begin_key (key : KeyType) : M IndexIterator := ret IndexIterator_default.

(** [FindLeafPage] returns a null pointer. *)
Definition FindLeafPage (key : KeyType) (leftMost : bool) : M (option page_id_t) :=
  ret None.

(** ** Observations on a state *)

Definition page_data (s : State) (p : page_id_t) : option PageData :=
  data <$> pages (buffer_pool_manager_ s) !! p.

Definition tree_page_at (s : State) (p : page_id_t) : option BPlusTreePage :=
  match page_data s p with
  | Some (TreeData tp) => Some tp
  | _ => None
  end.

Definition leaf_entries (s : State) (p : page_id_t) : option (list (KeyType * ValueType)) :=
  match tree_page_at s p with
  | Some (TLeaf lp) => Some (lf_array lp)
  | _ => None
  end.

Definition internal_entries (s : State) (p : page_id_t) : option (list (KeyType * page_id_t)) :=
  match tree_page_at s p with
  | Some (TInternal ip) => Some (in_array ip)
  | _ => None
  end.

Definition header_records (s : State) : option (list (string * page_id_t)) :=
  match page_data s HEADER_PAGE_ID with
  | Some (HeaderData records) => Some records
  | _ => None
  end.

Definition events (s : State) : list BpmEvent := trace (buffer_pool_manager_ s).

(** How often a page was pinned (allocated or fetched) and released in a
    log. *)
Definition pins_of (p : page_id_t) (evs : list BpmEvent) : nat :=
  length (filter (fun e => match e with
                           | EvNew q | EvFetch q => bool_decide (q = p)
                           | _ => false
                           end = true) evs).

Definition unpins_of (p : page_id_t) (evs : list BpmEvent) : nat :=
  length (filter (fun e => match e with
                           | EvUnpin q _ => bool_decide (q = p)
                           | _ => false
                           end = true) evs).

(** ** Concrete trees *)

(** A buffer pool that holds only the header page, with room for sixteen
    pages, and an empty tree over it whose pages hold at most four entries. *)
Definition fresh_pool : BufferPoolManager :=
  mkBpm {[ HEADER_PAGE_ID := mkPage (HeaderData []) 0 false ]} 1 16 [].

Definition empty_tree : State := BPlusTree "index" fresh_pool 4 4 INVALID_PAGE_ID.

(** Insert the keys one after the other, key [k] with value [10 * k]. *)
Fixpoint insert_keys (fuel : nat) (keys : list KeyType) : M unit :=
  match keys with
  | [] => ret tt
  | k :: rest => run Insert fuel k (10 * k); insert_keys fuel rest
  end.

Definition one_key : Result unit := insert_keys 8 [1] empty_tree.
Definition five_keys : Result unit := insert_keys 8 [1; 2; 3; 4; 5] empty_tree.

(** Both leaves at their minimum size of two entries: the five keys without
    the key 5. *)
Definition both_minimal : Result unit :=
  (run insert_keys 8 [1; 2; 3; 4; 5]; Remove 8 5) empty_tree.

(** Leaf 1 below its minimum size and leaf 2 at it: the five keys without the
    keys 1 and 5. *)
Definition left_underflow : Result unit :=
  (run insert_keys 8 [1; 2; 3; 4; 5]; run Remove 8 1; Remove 8 5) empty_tree.

(** Leaf 1 above its minimum size and leaf 2 at it: the keys 0 to 4. *)
Definition left_rich : Result unit :=
  (run insert_keys 8 [1; 2; 3; 4; 5; 0]; Remove 8 5) empty_tree.

(** The first half of [Remove] on a tree that is not empty (lines 208-220):
    the descent and the removal of the record.  It returns the leaf and the
    size [RemoveAndDeleteRecord] reports. *)
Definition Remove_from_leaf (fuel : nat) (key : KeyType) : M (page_id_t * Z) :=
  do s <- get;
  let root := root_page_id_ s in
  run fetch_deref root;
  do page_id <- descend fuel key root;
  do lp <- read_leaf page_id;
  let '(lp', size) := Leaf.RemoveAndDeleteRecord key lp in
  run write_leaf page_id lp';
  ret (page_id, size).

(** The calls [Remove] makes on the buffer pool when it removes the key 1 from
    a two-level tree whose leaf 1 ends below its minimum size and has no
    sibling above it. *)
Definition Remove_calls : list BpmEvent :=
  [EvFetch 3; EvUnpin 3 false; EvFetch 1; EvFetch 3; EvFetch 2;
   EvUnpin 1 true; EvDelete 1; EvUnpin 1 true].

(** The tree the five inserts build: page 3 is the root, an internal page over
    the leaves 1 and 2; the separator of leaf 2 is the key 2. *)
Definition two_level : State :=
  mkState "index" 3 4 4
    (mkBpm
       (<[3 := mkPage (TreeData (TInternal
                 (mkInternalPage 3 INVALID_PAGE_ID 4 [(0, 1); (2, 2)]))) 0 true]>
        (<[2 := mkPage (TreeData (TLeaf
                 (mkLeafPage 2 3 4 INVALID_PAGE_ID [(3, 30); (4, 40); (5, 50)]))) 0 true]>
         (<[1 := mkPage (TreeData (TLeaf
                 (mkLeafPage 1 3 4 2 [(1, 10); (2, 20)]))) 0 true]>
          {[ HEADER_PAGE_ID := mkPage (HeaderData [("index"%string, 3)]) 0 true ]})))
       4 13
       [EvNew 1; EvFetch 1; EvUnpin 1 true; EvUnpin 1 true;
        EvFetch 1; EvUnpin 1 true;
        EvFetch 1; EvUnpin 1 true;
        EvFetch 1; EvUnpin 1 true;
        EvFetch 1; EvNew 2; EvNew 3; EvFetch 0; EvUnpin 0 true;
        EvUnpin 3 true; EvUnpin 2 true; EvUnpin 1 true]).

Definition two_level_height (p : page_id_t) : nat :=
  if p =? 3 then 1%nat else 0%nat.

(** The state [Insert] leaves behind on an empty tree [s] whose pool can hand
    out [S n] pages: the page the pool allocates is the root, a leaf with the
    one pair; every other page is as it was. *)
Definition started (s : State) (key : KeyType) (value : ValueType) (n : nat) : State :=
  let b := buffer_pool_manager_ s in
  let p := next_page_id b in
  mkState (index_name_ s) p (leaf_max_size_ s) (internal_max_size_ s)
    (mkBpm (<[p := mkPage (TreeData (TLeaf (mkLeafPage p INVALID_PAGE_ID (leaf_max_size_ s)
                                                       INVALID_PAGE_ID [(key, value)])))
                          0 true]> (pages b))
           (p + 1) n
           (trace b ++ [EvNew p; EvFetch p; EvUnpin p true; EvUnpin p true])).

(** ** Vocabulary of the properties *)

(** The tree routes [key] downward when [Lookup] on every internal page of
    the pool names a tree page of the pool of strictly smaller height. *)
Definition routes_downward (s : State) (key : KeyType) (height : page_id_t -> nat) : Prop :=
  forall p ip,
    tree_page_at s p = Some (TInternal ip) ->
    is_Some (tree_page_at s (Internal.Lookup key ip)) /\
    (height (Internal.Lookup key ip) < height p)%nat.

(** A computation keeps the root when every run that returns leaves
    [root_page_id_] as it found it. *)
Definition keeps_root {A} (m : M A) : Prop :=
  forall s a s', m s = Ok a s' -> root_page_id_ s' = root_page_id_ s.

(** ** Vocabulary of the further properties *)

(** The state [s] with the frame of page [p] replaced by [pg] and the calls
    [evs] added to the log. *)
Definition with_page (s : State) (p : page_id_t) (pg : Page) (evs : list BpmEvent) : State :=
  let b := buffer_pool_manager_ s in
  mkState (index_name_ s) (root_page_id_ s) (leaf_max_size_ s) (internal_max_size_ s)
    (mkBpm (<[p := pg]> (pages b)) (next_page_id b) (free_pages b) (trace b ++ evs)).

(** The keys of a leaf array are strictly increasing. *)
Fixpoint sorted_keys (arr : list (KeyType * ValueType)) : bool :=
  match arr with
  | [] => true
  | (k, _) :: rest => forallb (fun e => k <? fst e) rest && sorted_keys rest
  end.

(** A computation keeps the relation [R] when every run that returns relates
    the state it found to the state it leaves. *)
Definition keeps (R : State -> State -> Prop) {A} (m : M A) : Prop :=
  forall s a s', m s = Ok a s' -> R s s'.

(** No page content has changed. *)
Definition same_data (s s' : State) : Prop :=
  forall q, page_data s' q = page_data s q.

(** Every page of the pool is still in the pool. *)
Definition pages_persist (s s' : State) : Prop :=
  forall q, is_Some (page_data s q) -> is_Some (page_data s' q).

(** No page was allocated. *)
Definition no_allocation (s s' : State) : Prop :=
  next_page_id (buffer_pool_manager_ s') = next_page_id (buffer_pool_manager_ s) /\
  (free_pages (buffer_pool_manager_ s) <= free_pages (buffer_pool_manager_ s'))%nat.

(** Every page of the pool has an id below the next id the pool allocates,
    so that an allocation never reuses the id of a page in use. *)
Definition fresh_ids (s : State) : Prop :=
  forall p, is_Some (page_data s p) -> p < next_page_id (buffer_pool_manager_ s).

(** On a pool with unused next ids, every leaf is still a leaf with the
    entries it had, and the next ids are still unused. *)
Definition leaves_kept (s s' : State) : Prop :=
  fresh_ids s ->
  fresh_ids s' /\
  forall p lp, tree_page_at s p = Some (TLeaf lp) ->
               exists lp', tree_page_at s' p = Some (TLeaf lp') /\ lf_array lp' = lf_array lp.

(** The descent of [InsertIntoLeaf] for [key] (lines 96-105: the fetch of
    the root and the loop) returns the page [leaf]. *)
Definition reaches (s : State) (fuel : nat) (key : KeyType) (leaf : page_id_t) : Prop :=
  exists s0 s1,
    fetch_deref (root_page_id_ s) s = Ok tt s0 /\
    descend fuel key (root_page_id_ s) s0 = Ok leaf s1.

(** The page is a tree page of the pool, and an internal one. *)
Definition is_tree_page (s : State) (p : page_id_t) : Prop := is_Some (tree_page_at s p).

Definition is_internal_page (s : State) (p : page_id_t) : Prop :=
  exists ip, tree_page_at s p = Some (TInternal ip).

(** The content [tp] of page [p] is in place with respect to the levels
    [lvl]: a parent page id other than the sentinel names an internal page
    one level up, and every child of an internal page is a tree page one
    level down. *)
Definition page_in_place (lvl : page_id_t -> nat) (s : State) (p : page_id_t)
           (tp : BPlusTreePage) : Prop :=
  (BasePage.GetParentPageId tp <> INVALID_PAGE_ID ->
   is_internal_page s (BasePage.GetParentPageId tp) /\
   lvl (BasePage.GetParentPageId tp) = S (lvl p)) /\
  (forall ip k c, tp = TInternal ip -> In (k, c) (in_array ip) ->
                  is_tree_page s c /\ lvl p = S (lvl c)).

(** The tree is well formed with levels [lvl] up to [top]: the pool
    allocates unused page ids, page 0 is the header page, and every tree
    page is in place at a level of at most [top]. *)
Definition well_formed (lvl : page_id_t -> nat) (top : nat) (s : State) : Prop :=
  fresh_ids s /\
  (exists records, page_data s HEADER_PAGE_ID = Some (HeaderData records)) /\
  forall p tp, tree_page_at s p = Some tp -> page_in_place lvl s p tp /\ (lvl p <= top)%nat.

(** A well-formed tree over a pool that can still hand out [n] pages. *)
Definition ready (lvl : page_id_t -> nat) (top n : nat) (s : State) : Prop :=
  well_formed lvl top s /\ (n <= free_pages (buffer_pool_manager_ s))%nat.

(** Tree pages are still tree pages, and internal pages internal. *)
Definition pages_stay (s s' : State) : Prop :=
  (forall p, is_tree_page s p -> is_tree_page s' p) /\
  (forall p, is_internal_page s p -> is_internal_page s' p).

(** The root is the same page, or a page allocated in between. *)
Definition root_moves_to_new_page (s s' : State) : Prop :=
  next_page_id (buffer_pool_manager_ s) <= next_page_id (buffer_pool_manager_ s') /\
  (root_page_id_ s' = root_page_id_ s \/
   next_page_id (buffer_pool_manager_ s) <= root_page_id_ s'
     < next_page_id (buffer_pool_manager_ s')).

(** The calls of a descent: fetches, and releases that are not dirtied. *)
Definition clean_descent (evs : list BpmEvent) : Prop :=
  Forall (fun e => exists p, e = EvFetch p \/ e = EvUnpin p false) evs.

(** The state a run ends in; the state it started from when it fails. *)
Definition state_after {A} (r : Result A) (s : State) : State :=
  match r with
  | Ok _ s' => s'
  | Err _ => s
  end.

(** An empty tree over a pool that cannot hand out any page. *)
Definition exhausted_tree : State :=
  BPlusTree "index"
    (mkBpm {[ HEADER_PAGE_ID := mkPage (HeaderData []) 0 false ]} 1 0 [])
    4 4 INVALID_PAGE_ID.

(** A tree that is a single leaf, page 1, holding the given entries. *)
Definition leaf_tree (entries : list (KeyType * ValueType)) : State :=
  mkState "index" 1 4 4
    (mkBpm (<[1 := mkPage (TreeData (TLeaf
                      (mkLeafPage 1 INVALID_PAGE_ID 4 INVALID_PAGE_ID entries))) 0 true]>
            {[ HEADER_PAGE_ID := mkPage (HeaderData []) 0 false ]})
           2 15 []).

Definition one_leaf : State := leaf_tree [(1, 10)].
Definition three_leaf : State := leaf_tree [(1, 10); (2, 20); (3, 30)].
Definition full_leaf : State := leaf_tree [(1, 10); (2, 20); (3, 30); (4, 40)].

(** The tree of the keys 1 to 10: the root, page 3, over four leaves, the
    last of which is full. *)
Definition ten_keys : State :=
  state_after (insert_keys 8 [1; 2; 3; 4; 5; 6; 7; 8; 9; 10] empty_tree) empty_tree.

(** The full leaf over a pool that cannot hand out any page. *)
Definition full_leaf_no_page : State :=
  mkState "index" 1 4 4 (mkBpm (pages (buffer_pool_manager_ full_leaf)) 2 0 []).

(** The tree with both leaves at their minimum size, on the way through
    [Remove(1)]: leaf 1 has lost the key 1 and [CoalesceOrRedistribute] is
    about to be called. *)
Definition minimal_underflow : State :=
  state_after (Remove_from_leaf 8 1 (state_after both_minimal empty_tree)) empty_tree.

(** The same for the tree of the five inserts, whose leaf 2 holds one entry
    more than the minimum. *)
Definition right_donor : State :=
  state_after (Remove_from_leaf 8 1 two_level) two_level.

(** The states some runs end in. *)
Definition with_5 : State := state_after (Insert 1 5 50 full_leaf) full_leaf.
Definition descended : State := state_after (descend 2 4 3 two_level) two_level.
Definition minimal_after : State :=
  state_after (CoalesceOrRedistribute 1 minimal_underflow) minimal_underflow.
Definition right_donor_after : State :=
  state_after (CoalesceOrRedistribute 1 right_donor) right_donor.

(** The tree with leaf 1 above its minimum size and leaf 2 at it, and the
    state [Remove(4)] leaves it in: leaf 2 falls below its minimum size and
    its left sibling can give an entry. *)
Definition left_donor : State := state_after left_rich empty_tree.
Definition left_donor_after : State := state_after (Remove 8 4 left_donor) left_donor.

(** ** Buffer pool calls and the content of pages *)

Section Primitives.

Implicit Types (s : State) (p q : page_id_t).

Lemma page_data_insert s q pg d :
  pages (buffer_pool_manager_ s) !! q = Some pg ->
  forall p,
    data <$> (<[q := mkPage (data pg) d.1 d.2]> (pages (buffer_pool_manager_ s))) !! p
    = page_data s p.
Proof.
  intros Hq p. unfold page_data.
  destruct (decide (q = p)) as [->|Hne].
  - rewrite lookup_insert_eq, Hq. reflexivity.
  - rewrite lookup_insert_ne by assumption. reflexivity.
Qed.

(** [UnpinPage] always returns; it changes no page content and no field of
    the tree, and logs one call. *)
Lemma UnpinPage_spec s p dirty :
  exists b s',
    UnpinPage p dirty s = Ok b s' /\
    (forall q, page_data s' q = page_data s q) /\
    events s' = events s ++ [EvUnpin p dirty] /\
    root_page_id_ s' = root_page_id_ s.
Proof.
  unfold UnpinPage, bind, get_bpm, put_bpm, ret, log_event, set_pages; simpl.
  destruct (pages (buffer_pool_manager_ s) !! p) as [pg|] eqn:Hp.
  - destruct (0 <? pin_count pg).
    + eexists _, _. split; [reflexivity|]. repeat split.
      intros q. unfold page_data at 1; simpl.
      apply (page_data_insert s p pg (_, _) Hp).
    + eexists _, _. split; [reflexivity|]. repeat split.
  - eexists _, _. split; [reflexivity|]. repeat split.
Qed.

(** [fetch_deref] returns on a page of the pool; it changes no page content
    and logs one call. *)
Lemma fetch_deref_spec s p :
  is_Some (page_data s p) ->
  exists s',
    fetch_deref p s = Ok tt s' /\
    (forall q, page_data s' q = page_data s q) /\
    events s' = events s ++ [EvFetch p] /\
    root_page_id_ s' = root_page_id_ s.
Proof.
  intros [d Hd]. unfold page_data in Hd.
  unfold fetch_deref, FetchPage, bind, get_bpm, put_bpm, ret, log_event, set_pages; simpl.
  destruct (pages (buffer_pool_manager_ s) !! p) as [pg|] eqn:Hp; [|discriminate].
  eexists. split; [reflexivity|]. repeat split.
  intros q. unfold page_data at 1; simpl.
  apply (page_data_insert s p pg (_, _) Hp).
Qed.

Lemma read_tree_ok s p tp :
  tree_page_at s p = Some tp -> read_tree p s = Ok tp s.
Proof.
  unfold tree_page_at, page_data, read_tree, read_data, bind, get_bpm, ret.
  destruct (pages (buffer_pool_manager_ s) !! p) as [pg|]; simpl; [|discriminate].
  destruct (data pg) as [|tp'|]; try discriminate.
  intros [= ->]. reflexivity.
Qed.

Lemma tree_page_at_ext s s' :
  (forall q, page_data s' q = page_data s q) ->
  forall q, tree_page_at s' q = tree_page_at s q.
Proof. intros H q. unfold tree_page_at. rewrite H. reflexivity. Qed.

End Primitives.

(** ** Termination of the descent *)

(** C10. On a tree that routes [key] downward, the descent loop of
    [InsertIntoLeaf] and [Remove], started at a tree page [root], returns a
    leaf page as soon as the fuel exceeds the height of [root].  It runs [n]
    iterations with [n] at most that height (each iteration makes two calls on
    the buffer pool, one unpin and one fetch), and it changes no page
    content. *)
Theorem descend_reaches_leaf (s : State) (key : KeyType) (height : page_id_t -> nat)
        (root : page_id_t) (fuel : nat) :
  routes_downward s key height ->
  is_Some (tree_page_at s root) ->
  (height root < fuel)%nat ->
  exists leaf lp s' n,
    descend fuel key root s = Ok leaf s' /\
    tree_page_at s' leaf = Some (TLeaf lp) /\
    (n <= height root)%nat /\
    length (events s') = (length (events s) + 2 * n)%nat /\
    (forall p, page_data s' p = page_data s p).
Proof.
  revert s root.
  induction fuel as [|fuel IH]; intros s root Hroute [tp Htp] Hfuel; [lia|].
  simpl. unfold bind at 1. rewrite (read_tree_ok _ _ _ Htp).
  destruct tp as [lp|ip].
  - exists root, lp, s, 0%nat. unfold ret. repeat split; auto with lia.
  - destruct (Hroute _ _ Htp) as [Hnext Hlt].
    destruct (UnpinPage_spec s root false) as (b & s1 & Hun & Hd1 & He1 & _).
    unfold bind at 1. rewrite Hun.
    assert (Hp1 : is_Some (page_data s1 (Internal.Lookup key ip))).
    { rewrite Hd1. destruct Hnext as [tp' Htp']. unfold tree_page_at in Htp'.
      destruct (page_data s (Internal.Lookup key ip)); [eauto|discriminate]. }
    destruct (fetch_deref_spec s1 _ Hp1) as (s2 & Hfe & Hd2 & He2 & _).
    unfold bind at 1. rewrite Hfe.
    assert (Hd : forall q, page_data s2 q = page_data s q).
    { intros q. rewrite Hd2. apply Hd1. }
    destruct (IH s2 (Internal.Lookup key ip)) as (leaf & lp & s' & n & Hrun & Hleaf & Hn & Hev & Hdata).
    + intros p ip' Hp. rewrite (tree_page_at_ext s s2 Hd) in Hp.
      rewrite (tree_page_at_ext s s2 Hd). apply Hroute. exact Hp.
    + rewrite (tree_page_at_ext s s2 Hd). exact Hnext.
    + lia.
    + exists leaf, lp, s', (S n). repeat split.
      * exact Hrun.
      * exact Hleaf.
      * lia.
      * rewrite Hev, He2, He1. rewrite !length_app. simpl. lia.
      * intros p. rewrite Hdata. apply Hd.
Qed.

(** ** [Remove] never assigns the root page id *)

Create HintDb keeps_root.

Section KeepsRoot.

Lemma keeps_root_ret {A} (a : A) : keeps_root (ret a).
Proof. intros s a' s' [= _ ->]. reflexivity. Qed.

Lemma keeps_root_throw {A} (e : Error) : keeps_root (@throw A e).
Proof. intros s a s' H. discriminate H. Qed.

Lemma keeps_root_bind {A B} (m : M A) (k : A -> M B) :
  keeps_root m -> (forall a, keeps_root (k a)) -> keeps_root (bind m k).
Proof.
  intros Hm Hk s b s' H. unfold bind in H.
  destruct (m s) as [a s1|e] eqn:Hms; [|discriminate].
  rewrite (Hk a _ _ _ H). exact (Hm _ _ _ Hms).
Qed.

Lemma keeps_root_get : keeps_root get.
Proof. intros s a s' [= _ ->]. reflexivity. Qed.

Lemma keeps_root_get_bpm : keeps_root get_bpm.
Proof. intros s a s' [= _ ->]. reflexivity. Qed.

Lemma keeps_root_put_bpm b : keeps_root (put_bpm b).
Proof. intros s a s' [= _ <-]. reflexivity. Qed.

Lemma keeps_root_assert b : keeps_root (assert b).
Proof. destruct b; [apply keeps_root_ret|apply keeps_root_throw]. Qed.

End KeepsRoot.

#[local] Hint Resolve keeps_root_ret keeps_root_throw keeps_root_get
  keeps_root_get_bpm keeps_root_put_bpm keeps_root_assert : keeps_root.

(** One step through a computation: split a bind, or case on what the
    computation branches on. *)
Ltac keeps_root_step :=
  match goal with
  | |- keeps_root (bind _ _) => apply keeps_root_bind; [|intros ?]
  | |- keeps_root (let '(_, _) := ?x in _) => destruct x
  | |- keeps_root (if ?b then _ else _) => destruct b
  | |- keeps_root (match ?x with _ => _ end) => destruct x
  | |- keeps_root _ => solve [auto with keeps_root]
  end.

Ltac keeps_root_auto := repeat keeps_root_step.

Section KeepsRootCalls.

Lemma keeps_root_FetchPage p : keeps_root (FetchPage p).
Proof. unfold FetchPage. keeps_root_auto. Qed.

Lemma keeps_root_UnpinPage p d : keeps_root (UnpinPage p d).
Proof. unfold UnpinPage. keeps_root_auto. Qed.

Lemma keeps_root_DeletePage p : keeps_root (DeletePage p).
Proof. unfold DeletePage. keeps_root_auto. Qed.

Lemma keeps_root_read_data p : keeps_root (read_data p).
Proof. unfold read_data. keeps_root_auto. Qed.

Lemma keeps_root_write_data p d : keeps_root (write_data p d).
Proof. unfold write_data. keeps_root_auto. Qed.

#[local] Hint Resolve keeps_root_FetchPage keeps_root_UnpinPage keeps_root_DeletePage
  keeps_root_read_data keeps_root_write_data : keeps_root.

Lemma keeps_root_read_tree p : keeps_root (read_tree p).
Proof. unfold read_tree. keeps_root_auto. Qed.

#[local] Hint Resolve keeps_root_read_tree : keeps_root.

Lemma keeps_root_read_leaf p : keeps_root (read_leaf p).
Proof. unfold read_leaf. keeps_root_auto. Qed.

Lemma keeps_root_read_internal p : keeps_root (read_internal p).
Proof. unfold read_internal. keeps_root_auto. Qed.

Lemma keeps_root_write_leaf p lp : keeps_root (write_leaf p lp).
Proof. unfold write_leaf. keeps_root_auto. Qed.

Lemma keeps_root_write_internal p ip : keeps_root (write_internal p ip).
Proof. unfold write_internal. keeps_root_auto. Qed.

Lemma keeps_root_fetch_deref p : keeps_root (fetch_deref p).
Proof. unfold fetch_deref. keeps_root_auto. Qed.

#[local] Hint Resolve keeps_root_read_leaf keeps_root_read_internal keeps_root_write_leaf
  keeps_root_write_internal keeps_root_fetch_deref : keeps_root.

Lemma keeps_root_descend fuel key p : keeps_root (descend fuel key p).
Proof.
  revert p. induction fuel as [|fuel IH]; intros p; simpl.
  - apply keeps_root_throw.
  - keeps_root_auto.
Qed.

Lemma keeps_root_reparent parent child : keeps_root (Internal.reparent parent child).
Proof. unfold Internal.reparent. keeps_root_auto. Qed.

Lemma keeps_root_update_separator parent child key :
  keeps_root (Internal.update_separator parent child key).
Proof. unfold Internal.update_separator. keeps_root_auto. Qed.

#[local] Hint Resolve keeps_root_descend keeps_root_reparent keeps_root_update_separator : keeps_root.

Lemma keeps_root_Redistribute neighbor_node node index :
  keeps_root (Redistribute neighbor_node node index).
Proof.
  unfold Redistribute, TreePage.MoveFirstToEndOf, TreePage.MoveLastToFrontOf.
  keeps_root_auto.
Qed.

#[local] Hint Resolve keeps_root_Redistribute : keeps_root.

Lemma keeps_root_CoalesceOrRedistribute node : keeps_root (CoalesceOrRedistribute node).
Proof. unfold CoalesceOrRedistribute, GetInternalPage. keeps_root_auto. Qed.

#[local] Hint Resolve keeps_root_CoalesceOrRedistribute : keeps_root.

(** Whenever [Remove] returns, the root page id is what it was: no path of
    [Remove] resets it to the sentinel or moves it to another page. *)
Lemma Remove_keeps_root fuel key : keeps_root (Remove fuel key).
Proof. unfold Remove, IsEmpty. keeps_root_auto. Qed.

(** In particular a tree that is not empty before [Remove] is not empty
    after it. *)
Lemma Remove_never_empties fuel key s s' :
  Remove fuel key s = Ok tt s' ->
  root_page_id_ s <> INVALID_PAGE_ID ->
  IsEmpty s' = Ok false s'.
Proof.
  intros H Hne. unfold IsEmpty, bind, get, ret.
  rewrite (Remove_keeps_root _ _ _ _ _ H).
  destruct (Z.eqb_spec (root_page_id_ s) INVALID_PAGE_ID); [contradiction|reflexivity].
Qed.

End KeepsRootCalls.

(** ** The stubs, for every state *)

Lemma GetValue_always_false key result s :
  GetValue key result s = Ok (false, result) s.
Proof. reflexivity. Qed.

Lemma Begin_is_default s : Begin s = Ok IndexIterator_default s.
Proof. reflexivity. Qed.

Lemma Begin_key_is_default key s : Begin_key key s = Ok IndexIterator_default s.
Proof. reflexivity. Qed.

Lemma FindLeafPage_is_null key leftMost s : FindLeafPage key leftMost s = Ok None s.
Proof. reflexivity. Qed.

Lemma remaining_default fuel s : remaining fuel s IndexIterator_default = [].
Proof. destruct fuel; reflexivity. Qed.

(** X21. [Remove] on an empty tree returns at once and changes nothing: no
    page is fetched and no call reaches the buffer pool. *)
Lemma Remove_empty_noop fuel key s :
  root_page_id_ s = INVALID_PAGE_ID -> Remove fuel key s = Ok tt s.
Proof.
  intros H. unfold Remove, IsEmpty, bind, get, ret. rewrite H. reflexivity.
Qed.

(** ** [Insert] into an empty tree *)

(** Unfold the monad and the buffer-pool calls and read back what was just
    written. *)
Ltac step_calls :=
  repeat (progress (unfold bind, get_bpm, put_bpm, ret, throw, get, read_tree, read_data,
                    UnpinPage, log_event, set_pages, write_leaf, write_data;
                    simpl; rewrite ?lookup_insert_eq; simpl)).

(** On every empty tree whose pool can still hand out a page and whose leaves
    hold at least one entry, [Insert] returns true and leaves the state
    [started]: four calls on the buffer pool, none of them on the header
    page. *)
Lemma Insert_empty_tree s fuel key value n :
  root_page_id_ s = INVALID_PAGE_ID ->
  free_pages (buffer_pool_manager_ s) = S n ->
  1 <= leaf_max_size_ s ->
  Insert (S fuel) key value s = Ok true (started s key value n).
Proof.
  intros Hroot Hfree Hmax.
  destruct s as [name root lmax imax [ps next free tr]]. simpl in *. subst root free.
  unfold Insert, StartNewTree, InsertIntoLeaf, IsEmpty, NewPage, bind, get, get_bpm, ret, assert,
    put_bpm, set_root_page_id, write_leaf, write_data, fetch_deref, FetchPage, read_leaf,
    read_tree, read_data, UnpinPage, log_event, set_pages, started; simpl.
  step_calls.
  change (Leaf.GetSize (Leaf.set_array [(key, value)] (Leaf.Init next INVALID_PAGE_ID lmax)))
    with 1.
  destruct (Z.gtb_spec 1 lmax) as [Hgt|_]; [lia|].
  step_calls.
  rewrite !insert_insert_eq. rewrite <- !app_assoc. simpl.
  reflexivity.
Qed.

(** The header page keeps its records: [StartNewTree] never writes the root
    page id to it. *)
Lemma Insert_empty_tree_header s key value n :
  next_page_id (buffer_pool_manager_ s) <> HEADER_PAGE_ID ->
  header_records (started s key value n) = header_records s.
Proof.
  intros Hne. unfold header_records, page_data, started; simpl.
  rewrite lookup_insert_ne by assumption. reflexivity.
Qed.

(** ** The tree after five inserts *)

Lemma five_keys_two_level : five_keys = Ok tt two_level.
Proof. vm_compute. reflexivity. Qed.

Lemma two_level_routes key : routes_downward two_level key two_level_height.
Proof.
  intros p ip Hp.
  assert (p = 3 /\ ip = mkInternalPage 3 INVALID_PAGE_ID 4 [(0, 1); (2, 2)]) as [-> ->].
  { unfold tree_page_at, page_data, two_level in Hp. simpl in Hp.
    repeat (rewrite lookup_insert in Hp; case_decide; subst; simpl in Hp;
            [first [discriminate Hp | injection Hp as <-; split; reflexivity]|]).
    rewrite lookup_singleton in Hp. case_decide; discriminate Hp. }
  unfold Internal.Lookup; simpl.
  destruct (2 <=? key); simpl; split; try (vm_compute; lia); eexists; vm_compute; reflexivity.
Qed.

Lemma descend_reaches_leaf_witness :
  routes_downward two_level 4 two_level_height /\
  is_Some (tree_page_at two_level 3) /\
  (two_level_height 3%Z < 2)%nat /\
  exists leaf lp s' n,
    descend 2 4 3 two_level = Ok leaf s' /\
    tree_page_at s' leaf = Some (TLeaf lp) /\
    (n <= two_level_height 3%Z)%nat /\
    length (events s') = (length (events two_level) + 2 * n)%nat /\
    (forall p, page_data s' p = page_data two_level p).
Proof.
  split; [exact (two_level_routes 4)|].
  split; [eexists; vm_compute; reflexivity|].
  split; [vm_compute; lia|].
  apply (descend_reaches_leaf two_level 4 two_level_height 3 2).
  - exact (two_level_routes 4).
  - eexists; vm_compute; reflexivity.
  - vm_compute; lia.
Defined.

(** The descent of the key 4 in that tree: one iteration, from the root to
    leaf 2. *)
Example descend_two_level :
  exists s', descend 2 4 3 two_level = Ok 2 s' /\
             events s' = events two_level ++ [EvUnpin 3 false; EvFetch 2].
Proof. eexists. split; vm_compute; reflexivity. Qed.

(** ** The operations on concrete trees *)

(** Split a conjunction of closed facts and evaluate each one. *)
Ltac split_all := repeat match goal with |- _ /\ _ => split end.
Ltac evaluate :=
  lazymatch goal with
  | |- _ /\ _ => split; [vm_compute; reflexivity | evaluate]
  | |- _ => vm_compute; reflexivity
  end.

(** C1. [GetValue] reports a stored key as missing: after [Insert(1, 10)]
    into the empty tree the root leaf holds the pair (1, 10), and
    [GetValue(1)] returns false with the result collection left empty. *)
Theorem GetValue_misses_stored_key :
  exists s,
    Insert 8 1 10 empty_tree = Ok true s /\
    leaf_entries s (root_page_id_ s) = Some [(1, 10)] /\
    GetValue 1 [] s = Ok (false, []) s.
Proof. eexists. evaluate. Qed.

(** C2. [Insert] into the empty tree allocates page 1, initialises it as a
    leaf with sentinel parent and no successor, stores the pair in it, makes
    it the root and returns true; but the header page is never fetched and
    still has no record for the index afterwards. *)
Theorem StartNewTree_skips_root_directory :
  exists s,
    Insert 8 1 10 empty_tree = Ok true s /\
    root_page_id_ s = 1 /\
    tree_page_at s 1
      = Some (TLeaf (mkLeafPage 1 INVALID_PAGE_ID 4 INVALID_PAGE_ID [(1, 10)])) /\
    events s = [EvNew 1; EvFetch 1; EvUnpin 1 true; EvUnpin 1 true] /\
    header_records empty_tree = Some [] /\
    header_records s = Some [].
Proof. eexists. evaluate. Qed.


(** On a tree that is a single leaf the duplicate is detected: the second
    [Insert] of a stored key returns false and changes no page content. *)
Example Insert_duplicate_single_leaf :
  exists s s',
    one_key = Ok tt s /\
    Insert 8 1 99 s = Ok false s' /\
    (forall p, page_data s' p = page_data s p) /\
    events s' = events s ++ [EvFetch 1; EvUnpin 1 true].
Proof.
  eexists _, _. split; [vm_compute; reflexivity|].
  split; [vm_compute; reflexivity|].
  split; [|vm_compute; reflexivity].
  intros p. unfold page_data. simpl. reflexivity.
Qed.

(** C4. With both leaves at their minimum size, [Remove(1)] takes leaf 1
    below the minimum.  [CoalesceOrRedistribute] then returns true without
    moving any entry: leaf 1 still holds (2, 20), leaf 2 has received nothing
    and the root keeps both of its entries.  [Remove] goes on to delete page
    1, so the key 2 is lost and the root is left with a child that does not
    exist; no procedure is applied to the parent. *)
Theorem CoalesceOrRedistribute_deletes_without_merging :
  exists s1 s2 s3,
    both_minimal = Ok tt s1 /\
    leaf_entries s1 1 = Some [(1, 10); (2, 20)] /\
    leaf_entries s1 2 = Some [(3, 30); (4, 40)] /\
    internal_entries s1 3 = Some [(0, 1); (2, 2)] /\
    (do r <- Remove_from_leaf 8 1; CoalesceOrRedistribute (fst r)) s1 = Ok true s2 /\
    leaf_entries s2 1 = Some [(2, 20)] /\
    leaf_entries s2 2 = Some [(3, 30); (4, 40)] /\
    internal_entries s2 3 = Some [(0, 1); (2, 2)] /\
    Remove 8 1 s1 = Ok tt s3 /\
    page_data s3 1 = None /\
    leaf_entries s3 2 = Some [(3, 30); (4, 40)] /\
    internal_entries s3 3 = Some [(0, 1); (2, 2)] /\
    root_page_id_ s3 = 3.
Proof. eexists _, _, _. evaluate. Qed.

(** C5. In the tree of the five inserts leaf 2, the right sibling of leaf 1,
    holds three entries, one more than the minimum of two.  [Remove(1)] takes
    leaf 1 down to one entry; [CoalesceOrRedistribute] returns false and
    moves nothing: leaf 1 stays below the minimum size, leaf 2 keeps its
    three entries and the separator in the root is unchanged. *)
Theorem CoalesceOrRedistribute_ignores_right_donor :
  five_keys = Ok tt two_level /\
  (exists lp, tree_page_at two_level 1 = Some (TLeaf lp) /\ Leaf.GetMinSize lp = 2) /\
  exists s2 s3,
    (do r <- Remove_from_leaf 8 1; CoalesceOrRedistribute (fst r)) two_level = Ok false s2 /\
    leaf_entries s2 1 = Some [(2, 20)] /\
    leaf_entries s2 2 = Some [(3, 30); (4, 40); (5, 50)] /\
    internal_entries s2 3 = Some [(0, 1); (2, 2)] /\
    Remove 8 1 two_level = Ok tt s3 /\
    leaf_entries s3 1 = Some [(2, 20)] /\
    leaf_entries s3 2 = Some [(3, 30); (4, 40); (5, 50)] /\
    internal_entries s3 3 = Some [(0, 1); (2, 2)].
Proof.
  split; [exact five_keys_two_level|].
  split; [eexists; evaluate|].
  eexists _, _. evaluate.
Qed.

(** With a left sibling above its minimum size the source calls
    [Redistribute(leftSibling, node, 0)], and index 0 selects the
    first-to-end move: the first entry of the left leaf goes to the end of
    the node, behind larger keys, and [Remove] returns. *)
Example Redistribute_left_donor :
  exists s s',
    left_rich = Ok tt s /\
    leaf_entries s 1 = Some [(0, 0); (1, 10); (2, 20)] /\
    leaf_entries s 2 = Some [(3, 30); (4, 40)] /\
    Remove 8 4 s = Ok tt s' /\
    leaf_entries s' 1 = Some [(1, 10); (2, 20)] /\
    leaf_entries s' 2 = Some [(3, 30); (0, 0)] /\
    internal_entries s' 3 = Some [(1, 1); (2, 2)].
Proof. eexists _, _. evaluate. Qed.

(** C6. Removing an absent key is not a no-op.  On the tree that holds only
    the key 1, [Remove(2)] aborts: the root leaf is below the minimum size, so
    [CoalesceOrRedistribute] is called and fetches the parent of the root, the
    sentinel page.  On the tree with leaf 1 below its minimum size, [Remove(0)]
    deletes page 1, which held the pair (2, 20). *)
Theorem Remove_absent_key_is_not_a_no_op :
  (exists s,
     one_key = Ok tt s /\
     leaf_entries s 1 = Some [(1, 10)] /\
     Remove 8 2 s = Err NullDeref) /\
  (exists s s',
     left_underflow = Ok tt s /\
     leaf_entries s 1 = Some [(2, 20)] /\
     leaf_entries s 2 = Some [(3, 30); (4, 40)] /\
     Remove 8 0 s = Ok tt s' /\
     page_data s' 1 = None /\
     events s' = events s ++ [EvFetch 3; EvUnpin 3 false; EvFetch 1; EvFetch 3;
                              EvFetch 2; EvUnpin 1 true; EvDelete 1; EvUnpin 1 true]).
Proof.
  split.
  - eexists. evaluate.
  - eexists _, _. evaluate.
Qed.

(** An absent key is removed without any change where the leaf stays at or
    above its minimum size. *)
Example Remove_absent_key_full_leaf :
  exists s',
    Remove 8 6 two_level = Ok tt s' /\
    (forall p, page_data s' p = page_data two_level p).
Proof.
  eexists. split; [vm_compute; reflexivity|].
  intros p. unfold page_data. simpl. reflexivity.
Qed.

(** C7. Removing the last key does not empty the tree.  On the tree that
    holds only the key 1, [Remove(1)] takes the root leaf to size zero, below
    the minimum, calls [CoalesceOrRedistribute] on the root and aborts on the
    fetch of the sentinel parent; [root_page_id_] is never reset. *)
Theorem Remove_last_key_aborts :
  exists s,
    one_key = Ok tt s /\
    root_page_id_ s = 1 /\
    leaf_entries s 1 = Some [(1, 10)] /\
    IsEmpty s = Ok false s /\
    Remove 8 1 s = Err NullDeref.
Proof. eexists. evaluate. Qed.

(** C8. The calls [Remove(1)] makes on the buffer pool when both leaves are
    at their minimum size: leaf 1 is fetched once and unpinned twice, the
    second time after its deletion; the root, page 3, is fetched twice and
    unpinned once; leaf 2 is fetched and never unpinned.  The root and leaf 2
    stay pinned after [Remove] has returned. *)
Theorem Remove_unbalanced_pins :
  exists s1 s3,
    both_minimal = Ok tt s1 /\
    Remove 8 1 s1 = Ok tt s3 /\
    events s3 = events s1 ++ Remove_calls /\
    pins_of 1 Remove_calls = 1%nat /\ unpins_of 1 Remove_calls = 2%nat /\
    pins_of 3 Remove_calls = 2%nat /\ unpins_of 3 Remove_calls = 1%nat /\
    pins_of 2 Remove_calls = 1%nat /\ unpins_of 2 Remove_calls = 0%nat /\
    pin_count <$> pages (buffer_pool_manager_ s1) !! 3 = Some 0 /\
    pin_count <$> pages (buffer_pool_manager_ s3) !! 3 = Some 1 /\
    pin_count <$> pages (buffer_pool_manager_ s1) !! 2 = Some 0 /\
    pin_count <$> pages (buffer_pool_manager_ s3) !! 2 = Some 1.
Proof. eexists _, _. evaluate. Qed.

(** The leaf of a duplicate insert is released dirtied although nothing was
    written to it. *)
Example Insert_duplicate_marks_dirty :
  exists s s',
    one_key = Ok tt s /\
    Insert 8 1 10 s = Ok false s' /\
    page_data s' 1 = page_data s 1 /\
    events s' = events s ++ [EvFetch 1; EvUnpin 1 true].
Proof. eexists _, _. evaluate. Qed.

(** C9. On the tree of the five inserts the leaf chain from page 1 holds the
    five pairs in key order, but the iterators [Begin()] and [Begin(3)]
    return stand on no page and visit nothing. *)
Theorem Begin_visits_nothing :
  five_keys = Ok tt two_level /\
  remaining 8 two_level (mkIterator 1 0)
    = [(1, 10); (2, 20); (3, 30); (4, 40); (5, 50)] /\
  exists it it',
    Begin two_level = Ok it two_level /\
    remaining 8 two_level it = [] /\
    Begin_key 3 two_level = Ok it' two_level /\
    remaining 8 two_level it' = [].
Proof.
  split; [exact five_keys_two_level|].
  split; [vm_compute; reflexivity|].
  eexists _, _. evaluate.
Qed.

(** * Further properties of the tree operations *)

(** ** Evaluating on states with symbolic pages *)

(** Unfold the monad, the page accessors and the buffer-pool calls, and read
    back what was just written. *)
Ltac step_more :=
  repeat (progress (unfold bind, get_bpm, put_bpm, ret, throw, get, read_tree, read_data,
                    read_leaf, read_internal, fetch_deref, FetchPage,
                    UnpinPage, log_event, set_pages, write_leaf, write_internal, write_data;
                    simpl; rewrite ?lookup_insert_eq; simpl)).

(** Solve a closed side condition by evaluation. *)
Ltac concrete :=
  solve [ vm_compute; reflexivity | simpl; lia | vm_compute; lia
        | vm_compute; discriminate | vm_compute; congruence ].

Lemma bind_inv {A B} (m : M A) (k : A -> M B) s b s' :
  bind m k s = Ok b s' -> exists a s1, m s = Ok a s1 /\ k a s1 = Ok b s'.
Proof.
  unfold bind. destruct (m s) as [a s1|e]; [|discriminate]. eauto.
Qed.

(** ** The leaf array *)

Lemma insert_sorted_present key value arr v :
  sorted_keys arr = true ->
  Leaf.lookup_sorted key arr = Some v ->
  Leaf.insert_sorted key value arr = arr.
Proof.
  induction arr as [|[k w] rest IH]; simpl; [discriminate|].
  intros Hs Hl. apply andb_prop in Hs as [Hall Hs].
  destruct (Z.eqb_spec key k) as [->|Hne].
  - rewrite Z.ltb_irrefl. reflexivity.
  - destruct (Z.ltb_spec key k) as [Hlt|Hge].
    + exfalso. clear IH Hs.
      induction rest as [|[k' w'] rest IH]; simpl in *; [discriminate|].
      apply andb_prop in Hall as [Hk Hall].
      destruct (Z.eqb_spec key k'); [apply Z.ltb_lt in Hk; simpl in Hk; lia|].
      apply IH; assumption.
    + rewrite (IH Hs Hl). reflexivity.
Qed.

Lemma insert_sorted_absent key value arr :
  Leaf.lookup_sorted key arr = None ->
  Leaf.lookup_sorted key (Leaf.insert_sorted key value arr) = Some value /\
  length (Leaf.insert_sorted key value arr) = S (length arr).
Proof.
  induction arr as [|[k w] rest IH]; simpl.
  - intros _. rewrite Z.eqb_refl. auto.
  - destruct (Z.eqb_spec key k) as [->|Hne]; [discriminate|].
    intros Hl. destruct (Z.ltb_spec key k); simpl.
    + rewrite Z.eqb_refl. auto.
    + destruct (Z.eqb_spec key k); [contradiction|].
      destruct (IH Hl) as [-> ->]. auto.
Qed.

Lemma insert_sorted_other key value arr k :
  k <> key ->
  Leaf.lookup_sorted k (Leaf.insert_sorted key value arr) = Leaf.lookup_sorted k arr.
Proof.
  intros Hne. induction arr as [|[k' w] rest IH]; simpl.
  - destruct (Z.eqb_spec k key); [contradiction|reflexivity].
  - destruct (Z.ltb_spec key k'); simpl.
    + destruct (Z.eqb_spec k key); [contradiction|reflexivity].
    + destruct (Z.eqb_spec key k'); simpl; [reflexivity|].
      rewrite IH. reflexivity.
Qed.

Lemma remove_key_insert_sorted key value arr :
  Leaf.lookup_sorted key arr = None ->
  Leaf.remove_key key (Leaf.insert_sorted key value arr) = arr.
Proof.
  induction arr as [|[k w] rest IH]; simpl.
  - intros _. rewrite Z.eqb_refl. reflexivity.
  - destruct (Z.eqb_spec key k) as [->|Hne]; [discriminate|].
    intros Hl. destruct (Z.ltb_spec key k); simpl.
    + rewrite Z.eqb_refl. reflexivity.
    + destruct (Z.eqb_spec key k); [contradiction|]. rewrite (IH Hl). reflexivity.
Qed.

Lemma remove_key_present key arr v :
  sorted_keys arr = true ->
  Leaf.lookup_sorted key arr = Some v ->
  Leaf.lookup_sorted key (Leaf.remove_key key arr) = None /\
  S (length (Leaf.remove_key key arr)) = length arr.
Proof.
  induction arr as [|[k w] rest IH]; simpl; [discriminate|].
  intros Hs Hl. apply andb_prop in Hs as [Hall Hs].
  destruct (Z.eqb_spec key k) as [->|Hne].
  - split; [|reflexivity]. clear IH Hl Hs.
    induction rest as [|[k' w'] rest IH]; simpl in *; [reflexivity|].
    apply andb_prop in Hall as [Hk Hall]. apply Z.ltb_lt in Hk. simpl in Hk.
    destruct (Z.eqb_spec k k'); [lia|]. apply IH. exact Hall.
  - simpl. destruct (Z.eqb_spec key k); [contradiction|].
    destruct (IH Hs Hl) as [-> <-]. auto.
Qed.

Lemma remove_key_other key arr k :
  k <> key ->
  Leaf.lookup_sorted k (Leaf.remove_key key arr) = Leaf.lookup_sorted k arr.
Proof.
  intros Hne. induction arr as [|[k' w] rest IH]; simpl; [reflexivity|].
  destruct (Z.eqb_spec key k') as [->|Hk]; simpl.
  - destruct (Z.eqb_spec k k'); [contradiction|reflexivity].
  - rewrite IH. reflexivity.
Qed.

Lemma remove_key_absent key arr :
  Leaf.lookup_sorted key arr = None -> Leaf.remove_key key arr = arr.
Proof.
  induction arr as [|[k w] rest IH]; simpl; [reflexivity|].
  destruct (Z.eqb_spec key k); [discriminate|]. intros H. rewrite (IH H). reflexivity.
Qed.


(** ** [Insert] on an empty tree and on a tree that is one leaf *)

(** X1. On every empty tree whose pool can still hand out a page and whose
    leaves hold at least one entry, [Insert] returns true: the page the pool
    allocates becomes the root, a leaf holding exactly the pair, released by
    all its pins; no other page changes, and the four calls on the buffer
    pool are the allocation, one fetch and two releases of that page. *)
Theorem Insert_starts_tree s fuel key value n :
  root_page_id_ s = INVALID_PAGE_ID ->
  free_pages (buffer_pool_manager_ s) = S n ->
  1 <= leaf_max_size_ s ->
  exists s',
    let p := next_page_id (buffer_pool_manager_ s) in
    Insert (S fuel) key value s = Ok true s' /\
    root_page_id_ s' = p /\
    leaf_entries s' p = Some [(key, value)] /\
    pin_count <$> pages (buffer_pool_manager_ s') !! p = Some 0 /\
    (forall q, q <> p -> page_data s' q = page_data s q) /\
    events s' = events s ++ [EvNew p; EvFetch p; EvUnpin p true; EvUnpin p true].
Proof.
  intros Hroot Hfree Hmax. exists (started s key value n). simpl.
  split; [apply Insert_empty_tree; assumption|].
  unfold leaf_entries, tree_page_at, page_data, started, events. simpl.
  rewrite lookup_insert_eq. simpl.
  split; [reflexivity|]. split; [reflexivity|]. split; [reflexivity|].
  split; [|reflexivity].
  intros q Hq. rewrite lookup_insert_ne by congruence. reflexivity.
Qed.

Lemma Insert_starts_tree_witness :
  exists s',
    Insert 1 1 10 empty_tree = Ok true s' /\
    root_page_id_ s' = 1 /\
    leaf_entries s' 1 = Some [(1, 10)] /\
    pin_count <$> pages (buffer_pool_manager_ s') !! 1 = Some 0 /\
    (forall q, q <> 1 -> page_data s' q = page_data empty_tree q) /\
    events s' = events empty_tree ++ [EvNew 1; EvFetch 1; EvUnpin 1 true; EvUnpin 1 true].
Proof.
  apply (Insert_starts_tree empty_tree 0 1 10 15); concrete.
Defined.

(** X2. On an empty tree whose pool cannot hand out a page, [Insert] ends
    with the allocation failure of [StartNewTree], whatever the key. *)
Theorem Insert_empty_tree_no_page s fuel key value :
  root_page_id_ s = INVALID_PAGE_ID ->
  free_pages (buffer_pool_manager_ s) = 0%nat ->
  Insert fuel key value s = Err BadAlloc.
Proof.
  intros Hroot Hfree.
  destruct s as [name root lmax imax [ps next free tr]]. simpl in *. subst.
  reflexivity.
Qed.

Lemma Insert_empty_tree_no_page_witness :
  Insert 1 1 10 exhausted_tree = Err BadAlloc.
Proof.
  apply (Insert_empty_tree_no_page exhausted_tree 1 1 10); concrete.
Defined.

(** [Insert] on a tree whose root is a leaf that does not overflow: the
    result tells whether the size of the leaf changed, and the leaf is
    released dirtied in either case. *)
Lemma Insert_root_leaf s fuel key value pg lp :
  root_page_id_ s <> INVALID_PAGE_ID ->
  pages (buffer_pool_manager_ s) !! root_page_id_ s = Some pg ->
  data pg = TreeData (TLeaf lp) ->
  0 <= pin_count pg ->
  snd (Leaf.Insert key value lp) <= lf_max_size lp ->
  Insert (S fuel) key value s
  = Ok (negb (Leaf.GetSize lp =? snd (Leaf.Insert key value lp)))
       (with_page s (root_page_id_ s)
          (mkPage (TreeData (TLeaf (fst (Leaf.Insert key value lp)))) (pin_count pg) true)
          [EvFetch (root_page_id_ s); EvUnpin (root_page_id_ s) true]).
Proof.
  intros Hroot Hpg Hdata Hpin Hmax.
  destruct s as [name root lmax imax [ps next free tr]]. simpl in *.
  destruct pg as [d pc dirty]. simpl in *. subst d.
  unfold Insert, IsEmpty, bind at 1, get, ret.  simpl.
  destruct (Z.eqb_spec root INVALID_PAGE_ID) as [|_]; [contradiction|].
  unfold InsertIntoLeaf, with_page. simpl.
  step_more. rewrite Hpg. step_more.
  unfold Leaf.Insert in *. simpl in *.
  destruct (Z.gtb_spec
              (Leaf.GetSize (Leaf.set_array (Leaf.insert_sorted key value (lf_array lp)) lp))
              (lf_max_size lp)) as [Hgt|_]; [lia|].
  step_more.
  destruct (Z.ltb_spec 0 (pc + 1)) as [_|Hle]; [|lia].
  step_more.
  rewrite !insert_insert_eq, <- !app_assoc, Z.add_simpl_r, orb_true_r. simpl.
  reflexivity.
Qed.

(** X3. [Insert] of a key that a root leaf with strictly increasing keys
    already holds returns false and changes no page content and not the
    root; the leaf is fetched once and released once, dirtied. *)
Theorem Insert_duplicate_root_leaf s fuel key value pg lp v :
  root_page_id_ s <> INVALID_PAGE_ID ->
  pages (buffer_pool_manager_ s) !! root_page_id_ s = Some pg ->
  data pg = TreeData (TLeaf lp) ->
  0 <= pin_count pg ->
  Leaf.GetSize lp <= lf_max_size lp ->
  sorted_keys (lf_array lp) = true ->
  Leaf.Lookup key lp = Some v ->
  exists s',
    Insert (S fuel) key value s = Ok false s' /\
    (forall p, page_data s' p = page_data s p) /\
    root_page_id_ s' = root_page_id_ s /\
    events s' = events s ++ [EvFetch (root_page_id_ s); EvUnpin (root_page_id_ s) true].
Proof.
  intros Hroot Hpg Hdata Hpin Hmax Hsorted Hlook.
  assert (Hins : Leaf.Insert key value lp = (lp, Leaf.GetSize lp)).
  { unfold Leaf.Insert, Leaf.Lookup in *.
    rewrite (insert_sorted_present _ _ _ _ Hsorted Hlook).
    destruct lp; reflexivity. }
  eexists. split.
  - rewrite (Insert_root_leaf s fuel key value pg lp Hroot Hpg Hdata Hpin).
    + rewrite Hins. simpl. rewrite Z.eqb_refl. reflexivity.
    + rewrite Hins. exact Hmax.
  - split; [|split; reflexivity].
    intros p. unfold page_data, with_page. simpl.
    destruct (decide (root_page_id_ s = p)) as [<-|Hne].
    + rewrite lookup_insert_eq, Hpg. simpl. rewrite Hdata. reflexivity.
    + rewrite lookup_insert_ne by assumption. reflexivity.
Qed.

Lemma Insert_duplicate_root_leaf_witness :
  exists s',
    Insert 1 2 99 three_leaf = Ok false s' /\
    (forall p, page_data s' p = page_data three_leaf p) /\
    root_page_id_ s' = root_page_id_ three_leaf /\
    events s' = events three_leaf ++ [EvFetch 1; EvUnpin 1 true].
Proof.
  apply (Insert_duplicate_root_leaf three_leaf 0 2 99
           (mkPage (TreeData (TLeaf (mkLeafPage 1 INVALID_PAGE_ID 4 INVALID_PAGE_ID
                                                [(1, 10); (2, 20); (3, 30)]))) 0 true)
           (mkLeafPage 1 INVALID_PAGE_ID 4 INVALID_PAGE_ID [(1, 10); (2, 20); (3, 30)])
           20); concrete.
Defined.

(** X4. [Insert] of a key that a root leaf with room does not hold returns
    true; afterwards the leaf holds the key with the value, every other key
    as before, one entry more, and no other page and not the root has
    changed. *)
Theorem Insert_new_key_root_leaf s fuel key value pg lp :
  root_page_id_ s <> INVALID_PAGE_ID ->
  pages (buffer_pool_manager_ s) !! root_page_id_ s = Some pg ->
  data pg = TreeData (TLeaf lp) ->
  0 <= pin_count pg ->
  Leaf.GetSize lp < lf_max_size lp ->
  Leaf.Lookup key lp = None ->
  exists s' lp',
    Insert (S fuel) key value s = Ok true s' /\
    tree_page_at s' (root_page_id_ s) = Some (TLeaf lp') /\
    Leaf.Lookup key lp' = Some value /\
    (forall k, k <> key -> Leaf.Lookup k lp' = Leaf.Lookup k lp) /\
    Leaf.GetSize lp' = Leaf.GetSize lp + 1 /\
    root_page_id_ s' = root_page_id_ s /\
    (forall p, p <> root_page_id_ s -> page_data s' p = page_data s p).
Proof.
  intros Hroot Hpg Hdata Hpin Hmax Hlook.
  destruct (insert_sorted_absent key value (lf_array lp) Hlook) as [Hfound Hlen].
  assert (Hsize : snd (Leaf.Insert key value lp) = Leaf.GetSize lp + 1).
  { unfold Leaf.Insert, Leaf.GetSize. simpl. rewrite Hlen. lia. }
  eexists _, _. split.
  - rewrite (Insert_root_leaf s fuel key value pg lp Hroot Hpg Hdata Hpin) by lia.
    rewrite Hsize.
    destruct (Z.eqb_spec (Leaf.GetSize lp) (Leaf.GetSize lp + 1)); [lia|]. reflexivity.
  - unfold tree_page_at, page_data, with_page. simpl. rewrite lookup_insert_eq. simpl.
    split; [reflexivity|]. split; [exact Hfound|].
    split; [intros k Hk; apply insert_sorted_other; exact Hk|].
    split; [unfold Leaf.GetSize; simpl; rewrite Hlen; lia|].
    split; [reflexivity|].
    intros p Hp. rewrite lookup_insert_ne by congruence. reflexivity.
Qed.

Lemma Insert_new_key_root_leaf_witness :
  exists s' lp',
    Insert 1 4 40 three_leaf = Ok true s' /\
    tree_page_at s' 1 = Some (TLeaf lp') /\
    Leaf.Lookup 4 lp' = Some 40 /\
    (forall k, k <> 4 ->
       Leaf.Lookup k lp'
       = Leaf.Lookup k (mkLeafPage 1 INVALID_PAGE_ID 4 INVALID_PAGE_ID
                                   [(1, 10); (2, 20); (3, 30)])) /\
    Leaf.GetSize lp' = 3 + 1 /\
    root_page_id_ s' = 1 /\
    (forall p, p <> 1 -> page_data s' p = page_data three_leaf p).
Proof.
  apply (Insert_new_key_root_leaf three_leaf 0 4 40
           (mkPage (TreeData (TLeaf (mkLeafPage 1 INVALID_PAGE_ID 4 INVALID_PAGE_ID
                                                [(1, 10); (2, 20); (3, 30)]))) 0 true)
           (mkLeafPage 1 INVALID_PAGE_ID 4 INVALID_PAGE_ID [(1, 10); (2, 20); (3, 30)]));
    concrete.
Defined.

(** ** Splits and the parent *)

(** Evaluate through pages at distinct ids. *)
Ltac step_pages Hpg Hh Hparent :=
  repeat (progress (step_more; rewrite ?lookup_insert_eq;
                    rewrite ?lookup_insert_ne by (congruence || lia);
                    rewrite ?Hpg, ?Hh, ?Hparent, ?insert_insert_eq; simpl;
                    try match goal with
                        | |- context [0 <? ?x + 1] =>
                            destruct (Z.ltb_spec 0 (x + 1)) as [_|?]; [|lia]
                        end)).

(** X5. [Insert] into a root leaf that overflows grows the tree by one
    level.  With [new] and [top] the next two page ids of the pool: the
    entries of the leaf, with the new pair, are divided between the old leaf
    and the leaf [new], in order; [top] is the new root, an internal page with
    exactly the two children, the old leaf and [new], separated by the last
    key of the old leaf; both leaves name [top] as their parent, [new] takes
    the old leaf's place in the chain, and every page is released by the pins
    this [Insert] took. *)
Theorem Insert_splits_root_leaf s fuel key value pg lp hpg records n :
  root_page_id_ s <> INVALID_PAGE_ID ->
  pages (buffer_pool_manager_ s) !! root_page_id_ s = Some pg ->
  data pg = TreeData (TLeaf lp) ->
  lf_parent_page_id lp = INVALID_PAGE_ID ->
  0 <= pin_count pg ->
  pages (buffer_pool_manager_ s) !! HEADER_PAGE_ID = Some hpg ->
  data hpg = HeaderData records ->
  0 <= pin_count hpg ->
  free_pages (buffer_pool_manager_ s) = S (S n) ->
  next_page_id (buffer_pool_manager_ s) <> root_page_id_ s ->
  next_page_id (buffer_pool_manager_ s) + 1 <> root_page_id_ s ->
  next_page_id (buffer_pool_manager_ s) <> HEADER_PAGE_ID ->
  next_page_id (buffer_pool_manager_ s) + 1 <> HEADER_PAGE_ID ->
  lf_max_size lp < snd (Leaf.Insert key value lp) ->
  exists s' old right,
    let root := root_page_id_ s in
    let new := next_page_id (buffer_pool_manager_ s) in
    let top := next_page_id (buffer_pool_manager_ s) + 1 in
    Insert (S fuel) key value s
    = Ok (negb (Leaf.GetSize lp =? snd (Leaf.Insert key value lp))) s' /\
    root_page_id_ s' = top /\
    tree_page_at s' root = Some (TLeaf old) /\
    tree_page_at s' new = Some (TLeaf right) /\
    internal_entries s' top
      = Some [(0, root); (Leaf.KeyAt old (Leaf.GetSize old - 1), new)] /\
    lf_array old ++ lf_array right = lf_array (fst (Leaf.Insert key value lp)) /\
    lf_parent_page_id old = top /\ lf_parent_page_id right = top /\
    lf_next_page_id old = new /\ lf_next_page_id right = lf_next_page_id lp /\
    pin_count <$> pages (buffer_pool_manager_ s') !! root = Some (pin_count pg) /\
    pin_count <$> pages (buffer_pool_manager_ s') !! new = Some 0 /\
    pin_count <$> pages (buffer_pool_manager_ s') !! top = Some 0.
Proof.
  intros Hroot Hpg Hdata Hparent Hpin Hh Hhdata Hhpin Hfree N1 N2 N3 N4 Hmax.
  destruct s as [name root lmax imax [ps next free tr]]. simpl in *.
  destruct pg as [d pc dirty]. destruct hpg as [hd hpc hdirty]. simpl in *. subst d hd free.
  unfold Insert, IsEmpty, bind at 1, get, ret. simpl.
  destruct (Z.eqb_spec root INVALID_PAGE_ID) as [|_]; [contradiction|].
  unfold InsertIntoLeaf. simpl.
  step_more. rewrite Hpg. step_more.
  unfold Leaf.Insert in *. simpl in *.
  destruct (Z.gtb_spec
              (Leaf.GetSize (Leaf.set_array (Leaf.insert_sorted key value (lf_array lp)) lp))
              (lf_max_size lp)) as [_|Hle]; [|lia].
  unfold Split, NewPage, UpdateRootPageId, SetParentPageId.
  step_pages Hpg Hh Hparent.
  eexists _, _, _. split; [reflexivity|].
  unfold tree_page_at, internal_entries, tree_page_at, page_data. simpl.
  repeat (rewrite ?lookup_insert_eq; rewrite ?lookup_insert_ne by (congruence || lia); simpl).
  split; [reflexivity|]. split; [reflexivity|]. split; [reflexivity|].
  split; [reflexivity|]. split; [apply take_drop|].
  split; [reflexivity|]. split; [reflexivity|].
  split; [reflexivity|]. split; [reflexivity|].
  split; [f_equal; lia|]. split; reflexivity.
Qed.

Lemma Insert_splits_root_leaf_witness :
  exists s' old right,
    Insert 1 5 50 full_leaf = Ok true s' /\
    root_page_id_ s' = 3 /\
    tree_page_at s' 1 = Some (TLeaf old) /\
    tree_page_at s' 2 = Some (TLeaf right) /\
    internal_entries s' 3 = Some [(0, 1); (Leaf.KeyAt old (Leaf.GetSize old - 1), 2)] /\
    lf_array old ++ lf_array right = [(1, 10); (2, 20); (3, 30); (4, 40); (5, 50)] /\
    lf_parent_page_id old = 3 /\ lf_parent_page_id right = 3 /\
    lf_next_page_id old = 2 /\ lf_next_page_id right = INVALID_PAGE_ID /\
    pin_count <$> pages (buffer_pool_manager_ s') !! 1 = Some 0 /\
    pin_count <$> pages (buffer_pool_manager_ s') !! 2 = Some 0 /\
    pin_count <$> pages (buffer_pool_manager_ s') !! 3 = Some 0.
Proof.
  apply (Insert_splits_root_leaf full_leaf 0 5 50
           (mkPage (TreeData (TLeaf (mkLeafPage 1 INVALID_PAGE_ID 4 INVALID_PAGE_ID
                                                [(1, 10); (2, 20); (3, 30); (4, 40)]))) 0 true)
           (mkLeafPage 1 INVALID_PAGE_ID 4 INVALID_PAGE_ID
                       [(1, 10); (2, 20); (3, 30); (4, 40)])
           (mkPage (HeaderData []) 0 false) [] 13); concrete.
Defined.

(** X6. [InsertIntoParent] for a node whose parent has room: the parent gets
    the one entry (key, new node) right after the entry of the old node, is
    fetched once and released once, dirtied; nothing else changes, and
    neither child is touched. *)
Theorem InsertIntoParent_with_room s fuel old_node key new_node opg old ppg ip :
  pages (buffer_pool_manager_ s) !! old_node = Some opg ->
  data opg = TreeData old ->
  BasePage.GetParentPageId old <> INVALID_PAGE_ID ->
  pages (buffer_pool_manager_ s) !! BasePage.GetParentPageId old = Some ppg ->
  data ppg = TreeData (TInternal ip) ->
  0 <= pin_count ppg ->
  snd (Internal.InsertNodeAfter old_node key new_node ip) <= in_max_size ip ->
  InsertIntoParent (S fuel) old_node key new_node s
  = Ok tt (with_page s (BasePage.GetParentPageId old)
             (mkPage (TreeData (TInternal
                        (fst (Internal.InsertNodeAfter old_node key new_node ip))))
                     (pin_count ppg) true)
             [EvFetch (BasePage.GetParentPageId old);
              EvUnpin (BasePage.GetParentPageId old) true]).
Proof.
  intros Hold Hodata Hparent Hpg Hdata Hpin Hmax.
  destruct s as [name root lmax imax [ps next free tr]]. simpl in *.
  destruct opg as [od opc odirty]. destruct ppg as [d pc dirty]. simpl in *. subst od d.
  unfold with_page. simpl.
  step_more. rewrite Hold. step_more.
  destruct (Z.eqb_spec (BasePage.GetParentPageId old) INVALID_PAGE_ID) as [|_]; [contradiction|].
  step_more. rewrite Hpg. step_more.
  unfold Internal.InsertNodeAfter in *. simpl in *.
  match goal with |- context [?a >? ?b] =>
    destruct (Z.gtb_spec a b) as [Hgt|_]; [unfold Internal.GetMaxSize in *; simpl in *; lia|] end.
  step_more.
  destruct (Z.ltb_spec 0 (pc + 1)) as [_|Hle]; [|lia].
  step_more.
  rewrite !insert_insert_eq, <- !app_assoc, Z.add_simpl_r, orb_true_r. simpl.
  reflexivity.
Qed.

Lemma InsertIntoParent_with_room_witness :
  InsertIntoParent 1 1 2 7 two_level
  = Ok tt (with_page two_level 3
             (mkPage (TreeData (TInternal
                        (mkInternalPage 3 INVALID_PAGE_ID 4 [(0, 1); (2, 7); (2, 2)])))
                     0 true)
             [EvFetch 3; EvUnpin 3 true]).
Proof.
  apply (InsertIntoParent_with_room two_level 0 1 2 7
           (mkPage (TreeData (TLeaf (mkLeafPage 1 3 4 2 [(1, 10); (2, 20)]))) 0 true)
           (TLeaf (mkLeafPage 1 3 4 2 [(1, 10); (2, 20)]))
           (mkPage (TreeData (TInternal
                      (mkInternalPage 3 INVALID_PAGE_ID 4 [(0, 1); (2, 2)]))) 0 true)
           (mkInternalPage 3 INVALID_PAGE_ID 4 [(0, 1); (2, 2)])); concrete.
Defined.

(** X7. [Split] of a leaf, with a page to allocate: the new page is the next
    page id of the pool, a leaf with the parent of the old one, pinned once;
    the entries of the old leaf followed by those of the new one are the
    entries before the split; the new leaf takes the successor of the old
    one, which now points to the new leaf; no other page changes. *)
Theorem Split_leaf s node pg lp n :
  pages (buffer_pool_manager_ s) !! node = Some pg ->
  data pg = TreeData (TLeaf lp) ->
  free_pages (buffer_pool_manager_ s) = S n ->
  next_page_id (buffer_pool_manager_ s) <> node ->
  exists s' old new,
    Split node s = Ok (next_page_id (buffer_pool_manager_ s)) s' /\
    tree_page_at s' node = Some (TLeaf old) /\
    tree_page_at s' (next_page_id (buffer_pool_manager_ s)) = Some (TLeaf new) /\
    lf_array old ++ lf_array new = lf_array lp /\
    lf_next_page_id old = next_page_id (buffer_pool_manager_ s) /\
    lf_next_page_id new = lf_next_page_id lp /\
    lf_parent_page_id new = lf_parent_page_id lp /\
    pin_count <$> pages (buffer_pool_manager_ s') !! next_page_id (buffer_pool_manager_ s)
      = Some 1 /\
    (forall p, p <> node -> p <> next_page_id (buffer_pool_manager_ s) ->
               page_data s' p = page_data s p).
Proof.
  intros Hpg Hdata Hfree Hne.
  destruct s as [name root lmax imax [ps next free tr]]. simpl in *.
  destruct pg as [d pc dirty]. simpl in *. subst d free.
  unfold Split, NewPage. step_more.
  rewrite lookup_insert_ne by assumption. rewrite Hpg. step_more.
  rewrite !lookup_insert_ne by assumption. rewrite Hpg. step_more.
  rewrite insert_insert_eq.
  eexists _, _, _. split; [reflexivity|].
  unfold tree_page_at, page_data. simpl.
  rewrite lookup_insert_eq. simpl.
  rewrite lookup_insert_ne by congruence. rewrite lookup_insert_eq. simpl.
  split; [reflexivity|]. split; [reflexivity|].
  split; [apply take_drop|].
  split; [reflexivity|]. split; [reflexivity|]. split; [reflexivity|].
  split; [reflexivity|].
  intros p Hp1 Hp2. rewrite !lookup_insert_ne by congruence. reflexivity.
Qed.

Lemma Split_leaf_witness :
  exists s' old new,
    Split 2 two_level = Ok 4 s' /\
    tree_page_at s' 2 = Some (TLeaf old) /\
    tree_page_at s' 4 = Some (TLeaf new) /\
    lf_array old ++ lf_array new = [(3, 30); (4, 40); (5, 50)] /\
    lf_next_page_id old = 4 /\
    lf_next_page_id new = INVALID_PAGE_ID /\
    lf_parent_page_id new = 3 /\
    pin_count <$> pages (buffer_pool_manager_ s') !! 4 = Some 1 /\
    (forall p, p <> 2 -> p <> 4 -> page_data s' p = page_data two_level p).
Proof.
  apply (Split_leaf two_level 2
           (mkPage (TreeData (TLeaf (mkLeafPage 2 3 4 INVALID_PAGE_ID
                                                [(3, 30); (4, 40); (5, 50)]))) 0 true)
           (mkLeafPage 2 3 4 INVALID_PAGE_ID [(3, 30); (4, 40); (5, 50)]) 12); concrete.
Defined.

(** ** The root directory *)

(** [UpdateRootPageId] on a pool that holds the header page. *)
Lemma UpdateRootPageId_header s insert_record pg records :
  pages (buffer_pool_manager_ s) !! HEADER_PAGE_ID = Some pg ->
  data pg = HeaderData records ->
  0 <= pin_count pg ->
  UpdateRootPageId insert_record s
  = Ok tt (with_page s HEADER_PAGE_ID
             (mkPage (HeaderData
                        (Header.upsert_root (index_name_ s) (root_page_id_ s) records))
                     (pin_count pg) true)
             [EvFetch HEADER_PAGE_ID; EvUnpin HEADER_PAGE_ID true]).
Proof.
  intros Hpg Hdata Hpin.
  destruct s as [name root lmax imax [ps next free tr]]. simpl in *.
  destruct pg as [d pc dirty]. simpl in *. subst d.
  unfold UpdateRootPageId, with_page, Header.InsertRecord, Header.UpdateRecord. simpl.
  step_more. rewrite Hpg. step_more.
  destruct insert_record; step_more;
    (destruct (Z.ltb_spec 0 (pc + 1)) as [_|Hle]; [|lia]);
    step_more;
    rewrite !insert_insert_eq, <- !app_assoc, Z.add_simpl_r, orb_true_r; reflexivity.
Qed.

Lemma find_record_upsert_root name root records :
  Header.find_record name (Header.upsert_root name root records) = Some root.
Proof.
  induction records as [|[n r] rest IH]; simpl.
  - rewrite String.eqb_refl. reflexivity.
  - destruct (String.eqb n name) eqn:E; simpl; rewrite E; [reflexivity|exact IH].
Qed.

Lemma find_record_upsert_root_ne name other root records :
  other <> name ->
  Header.find_record other (Header.upsert_root name root records)
  = Header.find_record other records.
Proof.
  intros Hne.
  assert (Hother : String.eqb name other = false).
  { apply String.eqb_neq. congruence. }
  induction records as [|[n r] rest IH]; simpl.
  - rewrite Hother. reflexivity.
  - destruct (String.eqb n name) eqn:E; simpl.
    + apply String.eqb_eq in E. subst n. rewrite Hother. reflexivity.
    + rewrite IH. reflexivity.
Qed.



(** ** [Remove] on a tree that is one leaf *)

(** [Remove] on a tree whose root is a leaf that stays at or above its
    minimum size. *)
Lemma Remove_root_leaf s fuel key pg lp :
  root_page_id_ s <> INVALID_PAGE_ID ->
  pages (buffer_pool_manager_ s) !! root_page_id_ s = Some pg ->
  data pg = TreeData (TLeaf lp) ->
  0 <= pin_count pg ->
  Leaf.GetMinSize lp <= snd (Leaf.RemoveAndDeleteRecord key lp) ->
  Remove (S fuel) key s
  = Ok tt (with_page s (root_page_id_ s)
             (mkPage (TreeData (TLeaf (fst (Leaf.RemoveAndDeleteRecord key lp))))
                     (pin_count pg) true)
             [EvFetch (root_page_id_ s); EvUnpin (root_page_id_ s) true]).
Proof.
  intros Hroot Hpg Hdata Hpin Hmin.
  destruct s as [name root lmax imax [ps next free tr]]. simpl in *.
  destruct pg as [d pc dirty]. simpl in *. subst d.
  unfold Remove, IsEmpty, bind at 1, get, ret. simpl.
  destruct (Z.eqb_spec root INVALID_PAGE_ID) as [|_]; [contradiction|].
  unfold with_page. simpl.
  step_more. rewrite Hpg. step_more.
  unfold Leaf.RemoveAndDeleteRecord, Leaf.GetMinSize in *. simpl in *.
  match goal with |- context [?a <? ?b] =>
    destruct (Z.ltb_spec a b) as [Hlt|_]; [unfold BasePage.GetMinSize in *; simpl in *; lia|] end.
  step_more.
  destruct (Z.ltb_spec 0 (pc + 1)) as [_|Hle]; [|lia].
  step_more.
  rewrite !insert_insert_eq, <- !app_assoc, Z.add_simpl_r, orb_true_r. simpl.
  reflexivity.
Qed.

(** X9. [CoalesceOrRedistribute] fetches the parent of its node before
    anything else: on a node whose parent page is not in the pool, as the
    sentinel parent of a root is not, it aborts on the null page. *)
Theorem CoalesceOrRedistribute_no_parent s node tp :
  tree_page_at s node = Some tp ->
  page_data s (BasePage.GetParentPageId tp) = None ->
  CoalesceOrRedistribute node s = Err NullDeref.
Proof.
  intros Hnode Hparent.
  unfold CoalesceOrRedistribute, GetInternalPage. unfold bind at 1.
  rewrite (read_tree_ok _ _ _ Hnode).
  unfold page_data in Hparent.
  destruct (pages (buffer_pool_manager_ s) !! BasePage.GetParentPageId tp) eqn:E; [discriminate|].
  unfold fetch_deref, FetchPage, bind, get_bpm, log_event. simpl. rewrite E. reflexivity.
Qed.

Lemma CoalesceOrRedistribute_no_parent_witness :
  CoalesceOrRedistribute 1 one_leaf = Err NullDeref.
Proof.
  apply (CoalesceOrRedistribute_no_parent one_leaf 1
           (TLeaf (mkLeafPage 1 INVALID_PAGE_ID 4 INVALID_PAGE_ID [(1, 10)]))); concrete.
Defined.

(** X10. [Remove] does not exempt the root from the minimum size: on a tree
    whose root is a leaf that the removal leaves below its minimum size, and
    whose parent page id names no page of the pool, [Remove] aborts, whether
    the key was stored or not. *)
Theorem Remove_root_leaf_underflow s fuel key pg lp :
  root_page_id_ s <> INVALID_PAGE_ID ->
  pages (buffer_pool_manager_ s) !! root_page_id_ s = Some pg ->
  data pg = TreeData (TLeaf lp) ->
  pages (buffer_pool_manager_ s) !! lf_parent_page_id lp = None ->
  snd (Leaf.RemoveAndDeleteRecord key lp) < Leaf.GetMinSize lp ->
  Remove (S fuel) key s = Err NullDeref.
Proof.
  intros Hroot Hpg Hdata Hparent Hmin.
  assert (Hne : lf_parent_page_id lp <> root_page_id_ s) by congruence.
  destruct s as [name root lmax imax [ps next free tr]]. simpl in *.
  destruct pg as [d pc dirty]. simpl in *. subst d.
  unfold Remove, IsEmpty, bind at 1, get, ret. simpl.
  destruct (Z.eqb_spec root INVALID_PAGE_ID) as [|_]; [contradiction|].
  step_more. rewrite Hpg. step_more.
  unfold Leaf.RemoveAndDeleteRecord, Leaf.GetMinSize in *. simpl in *.
  match goal with |- context [?a <? ?b] =>
    destruct (Z.ltb_spec a b) as [_|Hge]; [|unfold BasePage.GetMinSize in *; simpl in *; lia] end.
  unfold CoalesceOrRedistribute, GetInternalPage.
  step_more. rewrite !lookup_insert_ne by congruence. rewrite Hparent. reflexivity.
Qed.

Lemma Remove_root_leaf_underflow_witness :
  Remove 1 7 one_leaf = Err NullDeref.
Proof.
  apply (Remove_root_leaf_underflow one_leaf 0 7
           (mkPage (TreeData (TLeaf (mkLeafPage 1 INVALID_PAGE_ID 4 INVALID_PAGE_ID
                                                [(1, 10)]))) 0 true)
           (mkLeafPage 1 INVALID_PAGE_ID 4 INVALID_PAGE_ID [(1, 10)])); concrete.
Defined.

(** X11. [Remove] of a key stored in a root leaf with strictly increasing
    keys, which stays at or above its minimum size: afterwards the leaf no
    longer holds the key, holds every other key as before, has one entry
    less; no other page changes, and the leaf is fetched once and released
    once, dirtied. *)
Theorem Remove_stored_key_root_leaf s fuel key pg lp v :
  root_page_id_ s <> INVALID_PAGE_ID ->
  pages (buffer_pool_manager_ s) !! root_page_id_ s = Some pg ->
  data pg = TreeData (TLeaf lp) ->
  0 <= pin_count pg ->
  sorted_keys (lf_array lp) = true ->
  Leaf.Lookup key lp = Some v ->
  Leaf.GetMinSize lp <= Leaf.GetSize lp - 1 ->
  exists s' lp',
    Remove (S fuel) key s = Ok tt s' /\
    tree_page_at s' (root_page_id_ s) = Some (TLeaf lp') /\
    Leaf.Lookup key lp' = None /\
    (forall k, k <> key -> Leaf.Lookup k lp' = Leaf.Lookup k lp) /\
    Leaf.GetSize lp' = Leaf.GetSize lp - 1 /\
    (forall p, p <> root_page_id_ s -> page_data s' p = page_data s p) /\
    events s' = events s ++ [EvFetch (root_page_id_ s); EvUnpin (root_page_id_ s) true].
Proof.
  intros Hroot Hpg Hdata Hpin Hsorted Hlook Hmin.
  destruct (remove_key_present key (lf_array lp) v Hsorted Hlook) as [Hgone Hlen].
  assert (Hsize : snd (Leaf.RemoveAndDeleteRecord key lp) = Leaf.GetSize lp - 1).
  { unfold Leaf.RemoveAndDeleteRecord, Leaf.GetSize. simpl. lia. }
  eexists _, _. split.
  - apply (Remove_root_leaf s fuel key pg lp Hroot Hpg Hdata Hpin). lia.
  - unfold tree_page_at, page_data, with_page, events. simpl. rewrite lookup_insert_eq. simpl.
    split; [reflexivity|]. split; [exact Hgone|].
    split; [intros k Hk; apply remove_key_other; exact Hk|].
    split; [unfold Leaf.GetSize; simpl; lia|].
    split; [|reflexivity].
    intros p Hp. rewrite lookup_insert_ne by congruence. reflexivity.
Qed.

Lemma Remove_stored_key_root_leaf_witness :
  exists s' lp',
    Remove 1 3 three_leaf = Ok tt s' /\
    tree_page_at s' 1 = Some (TLeaf lp') /\
    Leaf.Lookup 3 lp' = None /\
    (forall k, k <> 3 ->
       Leaf.Lookup k lp'
       = Leaf.Lookup k (mkLeafPage 1 INVALID_PAGE_ID 4 INVALID_PAGE_ID
                                   [(1, 10); (2, 20); (3, 30)])) /\
    Leaf.GetSize lp' = 3 - 1 /\
    (forall p, p <> 1 -> page_data s' p = page_data three_leaf p) /\
    events s' = events three_leaf ++ [EvFetch 1; EvUnpin 1 true].
Proof.
  apply (Remove_stored_key_root_leaf three_leaf 0 3
           (mkPage (TreeData (TLeaf (mkLeafPage 1 INVALID_PAGE_ID 4 INVALID_PAGE_ID
                                                [(1, 10); (2, 20); (3, 30)]))) 0 true)
           (mkLeafPage 1 INVALID_PAGE_ID 4 INVALID_PAGE_ID [(1, 10); (2, 20); (3, 30)])
           30); concrete.
Defined.

(** X12. [Remove] of a key that a root leaf at or above its minimum size does
    not hold changes no page content; the leaf is released dirtied all the
    same. *)
Theorem Remove_absent_key_root_leaf s fuel key pg lp :
  root_page_id_ s <> INVALID_PAGE_ID ->
  pages (buffer_pool_manager_ s) !! root_page_id_ s = Some pg ->
  data pg = TreeData (TLeaf lp) ->
  0 <= pin_count pg ->
  Leaf.Lookup key lp = None ->
  Leaf.GetMinSize lp <= Leaf.GetSize lp ->
  exists s',
    Remove (S fuel) key s = Ok tt s' /\
    (forall p, page_data s' p = page_data s p) /\
    is_dirty <$> pages (buffer_pool_manager_ s') !! root_page_id_ s = Some true.
Proof.
  intros Hroot Hpg Hdata Hpin Hlook Hmin.
  assert (Hrem : Leaf.RemoveAndDeleteRecord key lp = (lp, Leaf.GetSize lp)).
  { unfold Leaf.RemoveAndDeleteRecord, Leaf.Lookup in *.
    rewrite (remove_key_absent _ _ Hlook). destruct lp; reflexivity. }
  eexists. split.
  - apply (Remove_root_leaf s fuel key pg lp Hroot Hpg Hdata Hpin).
    rewrite Hrem. exact Hmin.
  - rewrite Hrem. unfold page_data, with_page. simpl. split.
    + intros p. destruct (decide (root_page_id_ s = p)) as [<-|Hne].
      * rewrite lookup_insert_eq, Hpg. simpl. rewrite Hdata. reflexivity.
      * rewrite lookup_insert_ne by assumption. reflexivity.
    + rewrite lookup_insert_eq. reflexivity.
Qed.

Lemma Remove_absent_key_root_leaf_witness :
  exists s',
    Remove 1 7 three_leaf = Ok tt s' /\
    (forall p, page_data s' p = page_data three_leaf p) /\
    is_dirty <$> pages (buffer_pool_manager_ s') !! 1 = Some true.
Proof.
  apply (Remove_absent_key_root_leaf three_leaf 0 7
           (mkPage (TreeData (TLeaf (mkLeafPage 1 INVALID_PAGE_ID 4 INVALID_PAGE_ID
                                                [(1, 10); (2, 20); (3, 30)]))) 0 true)
           (mkLeafPage 1 INVALID_PAGE_ID 4 INVALID_PAGE_ID [(1, 10); (2, 20); (3, 30)]));
    concrete.
Defined.

(** X13. [Insert] of a key a root leaf does not hold, then [Remove] of that
    key, restores every page content and keeps the root, when the leaf has
    room and is at or above its minimum size. *)
Theorem Insert_then_Remove_root_leaf s fuel fuel' key value pg lp :
  root_page_id_ s <> INVALID_PAGE_ID ->
  pages (buffer_pool_manager_ s) !! root_page_id_ s = Some pg ->
  data pg = TreeData (TLeaf lp) ->
  0 <= pin_count pg ->
  Leaf.Lookup key lp = None ->
  Leaf.GetMinSize lp <= Leaf.GetSize lp < lf_max_size lp ->
  exists s1 s2,
    Insert (S fuel) key value s = Ok true s1 /\
    Remove (S fuel') key s1 = Ok tt s2 /\
    (forall p, page_data s2 p = page_data s p) /\
    root_page_id_ s2 = root_page_id_ s.
Proof.
  intros Hroot Hpg Hdata Hpin Hlook [Hmin Hmax].
  destruct (insert_sorted_absent key value (lf_array lp) Hlook) as [_ Hlen].
  assert (Hsize : snd (Leaf.Insert key value lp) = Leaf.GetSize lp + 1).
  { unfold Leaf.Insert, Leaf.GetSize. simpl. rewrite Hlen. lia. }
  pose proof (Insert_root_leaf s fuel key value pg lp Hroot Hpg Hdata Hpin) as HI.
  rewrite Hsize in HI. specialize (HI ltac:(lia)).
  destruct (Z.eqb_spec (Leaf.GetSize lp) (Leaf.GetSize lp + 1)) as [|_]; [lia|]. simpl in HI.
  set (s1 := with_page s _ _ _) in HI.
  assert (Hrem : Leaf.RemoveAndDeleteRecord key (fst (Leaf.Insert key value lp))
                 = (lp, Leaf.GetSize lp)).
  { unfold Leaf.RemoveAndDeleteRecord, Leaf.Insert. simpl.
    rewrite (remove_key_insert_sorted _ _ _ Hlook). destruct lp; reflexivity. }
  pose proof (Remove_root_leaf s1 fuel' key
                (mkPage (TreeData (TLeaf (fst (Leaf.Insert key value lp)))) (pin_count pg) true)
                (fst (Leaf.Insert key value lp))) as HR.
  rewrite Hrem in HR. simpl in HR.
  specialize (HR Hroot ltac:(apply lookup_insert_eq) eq_refl Hpin Hmin).
  eexists s1, _. split; [exact HI|]. split; [exact HR|].
  split; [|reflexivity].
  intros p. unfold page_data, with_page. simpl. rewrite insert_insert_eq.
  destruct (decide (root_page_id_ s = p)) as [<-|Hne].
  - rewrite lookup_insert_eq, Hpg. simpl. rewrite Hdata. reflexivity.
  - rewrite lookup_insert_ne by assumption. reflexivity.
Qed.

Lemma Insert_then_Remove_root_leaf_witness :
  exists s1 s2,
    Insert 1 4 40 three_leaf = Ok true s1 /\
    Remove 1 4 s1 = Ok tt s2 /\
    (forall p, page_data s2 p = page_data three_leaf p) /\
    root_page_id_ s2 = root_page_id_ three_leaf.
Proof.
  apply (Insert_then_Remove_root_leaf three_leaf 0 0 4 40
           (mkPage (TreeData (TLeaf (mkLeafPage 1 INVALID_PAGE_ID 4 INVALID_PAGE_ID
                                                [(1, 10); (2, 20); (3, 30)]))) 0 true)
           (mkLeafPage 1 INVALID_PAGE_ID 4 INVALID_PAGE_ID [(1, 10); (2, 20); (3, 30)]));
    first [concrete | split; concrete].
Defined.

(** ** What the operations keep *)

Create HintDb keeps.

Section Keeps.

Context (R : State -> State -> Prop) `{!Reflexive R} `{!Transitive R}.

Lemma keeps_ret {A} (a : A) : keeps R (ret a).
Proof. intros s a' s' [= _ ->]. reflexivity. Qed.

Lemma keeps_throw {A} (e : Error) : keeps R (@throw A e).
Proof. intros s a s' H. discriminate H. Qed.

Lemma keeps_bind {A B} (m : M A) (k : A -> M B) :
  keeps R m -> (forall a, keeps R (k a)) -> keeps R (bind m k).
Proof.
  intros Hm Hk s b s' H. apply bind_inv in H as (a & s1 & H1 & H2).
  transitivity s1; [exact (Hm _ _ _ H1)|exact (Hk _ _ _ _ H2)].
Qed.

Lemma keeps_get : keeps R get.
Proof. intros s a s' [= _ ->]. reflexivity. Qed.

Lemma keeps_get_bpm : keeps R get_bpm.
Proof. intros s a s' [= _ ->]. reflexivity. Qed.

Lemma keeps_assert b : keeps R (assert b).
Proof. destruct b; [apply keeps_ret|apply keeps_throw]. Qed.

End Keeps.

#[local] Hint Resolve keeps_ret keeps_throw keeps_get keeps_get_bpm keeps_assert : keeps.

Ltac keeps_step :=
  match goal with
  | |- keeps _ (bind _ _) => apply keeps_bind; [assumption| |intros ?]
  | |- keeps _ (let '(_, _) := ?x in _) => destruct x
  | |- keeps _ (if ?b then _ else _) => destruct b
  | |- keeps _ (match ?x with _ => _ end) => destruct x
  | |- keeps _ _ => solve [auto with keeps]
  end.

Ltac keeps_auto := repeat keeps_step.

Section KeepsReads.

Context (R : State -> State -> Prop) `{!Reflexive R} `{!Transitive R}.
Hypothesis R_FetchPage : forall p, keeps R (FetchPage p).
Hypothesis R_UnpinPage : forall p dirty, keeps R (UnpinPage p dirty).

Lemma keeps_read_data p : keeps R (read_data p).
Proof. unfold read_data. keeps_auto. Qed.

#[local] Hint Resolve keeps_read_data : keeps.

Lemma keeps_read_tree p : keeps R (read_tree p).
Proof. unfold read_tree. keeps_auto. Qed.

#[local] Hint Resolve keeps_read_tree : keeps.

Lemma keeps_read_leaf p : keeps R (read_leaf p).
Proof. unfold read_leaf. keeps_auto. Qed.

Lemma keeps_read_internal p : keeps R (read_internal p).
Proof. unfold read_internal. keeps_auto. Qed.

Lemma keeps_fetch_deref p : keeps R (fetch_deref p).
Proof. unfold fetch_deref. keeps_auto. Qed.

#[local] Hint Resolve keeps_read_leaf keeps_read_internal keeps_fetch_deref : keeps.

Lemma keeps_descend fuel key p : keeps R (descend fuel key p).
Proof.
  revert p. induction fuel as [|fuel IH]; intros p; simpl.
  - apply keeps_throw.
  - keeps_auto.
Qed.

End KeepsReads.

#[local] Hint Resolve keeps_read_data keeps_read_tree keeps_read_leaf keeps_read_internal
  keeps_fetch_deref keeps_descend : keeps.

Section KeepsWrites.

Context (R : State -> State -> Prop) `{!Reflexive R} `{!Transitive R}.
Hypothesis R_FetchPage : forall p, keeps R (FetchPage p).
Hypothesis R_UnpinPage : forall p dirty, keeps R (UnpinPage p dirty).
Hypothesis R_write_data : forall p d, keeps R (write_data p d).

Lemma keeps_write_leaf p lp : keeps R (write_leaf p lp).
Proof. apply R_write_data. Qed.

Lemma keeps_write_internal p ip : keeps R (write_internal p ip).
Proof. apply R_write_data. Qed.

#[local] Hint Resolve keeps_write_leaf keeps_write_internal : keeps.

Lemma keeps_reparent parent child : keeps R (Internal.reparent parent child).
Proof. unfold Internal.reparent. keeps_auto. Qed.

#[local] Hint Resolve keeps_reparent : keeps.

Lemma keeps_reparent_all parent children : keeps R (Internal.reparent_all parent children).
Proof.
  induction children as [|[k c] rest IH]; simpl; keeps_auto.
Qed.

Lemma keeps_update_separator parent child key :
  keeps R (Internal.update_separator parent child key).
Proof. unfold Internal.update_separator. keeps_auto. Qed.

#[local] Hint Resolve keeps_reparent_all keeps_update_separator : keeps.

Lemma keeps_MoveHalfTo node recipient : keeps R (Internal.MoveHalfTo node recipient).
Proof. unfold Internal.MoveHalfTo. keeps_auto. Qed.

Lemma keeps_Redistribute neighbor_node node index :
  keeps R (Redistribute neighbor_node node index).
Proof.
  unfold Redistribute, TreePage.MoveFirstToEndOf, TreePage.MoveLastToFrontOf. keeps_auto.
Qed.

Lemma keeps_SetParentPageId node parent : keeps R (SetParentPageId node parent).
Proof. unfold SetParentPageId. keeps_auto. Qed.

Lemma keeps_UpdateRootPageId insert_record : keeps R (UpdateRootPageId insert_record).
Proof. unfold UpdateRootPageId. keeps_auto. Qed.

#[local] Hint Resolve keeps_MoveHalfTo keeps_Redistribute keeps_SetParentPageId
  keeps_UpdateRootPageId : keeps.

Lemma keeps_CoalesceOrRedistribute node : keeps R (CoalesceOrRedistribute node).
Proof. unfold CoalesceOrRedistribute, GetInternalPage. keeps_auto. Qed.

#[local] Hint Resolve keeps_CoalesceOrRedistribute : keeps.

(** [Remove] keeps what its buffer-pool calls keep. *)
Lemma keeps_Remove fuel key :
  (forall p, keeps R (DeletePage p)) -> keeps R (Remove fuel key).
Proof. intros R_DeletePage. unfold Remove, IsEmpty. keeps_auto. Qed.

(** [Split] keeps what its buffer-pool calls keep. *)
Lemma keeps_Split node : keeps R NewPage -> keeps R (Split node).
Proof. intros R_NewPage. unfold Split. keeps_auto. Qed.

#[local] Hint Resolve keeps_Split : keeps.

Lemma keeps_InsertIntoParent fuel old_node key new_node :
  keeps R NewPage -> (forall p, keeps R (set_root_page_id p)) ->
  keeps R (InsertIntoParent fuel old_node key new_node).
Proof.
  intros R_NewPage R_set_root. revert old_node key new_node.
  induction fuel as [|fuel IH]; intros old_node key new_node; simpl.
  - apply keeps_throw.
  - keeps_auto.
Qed.

#[local] Hint Resolve keeps_InsertIntoParent : keeps.

Lemma keeps_InsertIntoLeaf fuel key value :
  keeps R NewPage -> (forall p, keeps R (set_root_page_id p)) ->
  keeps R (InsertIntoLeaf fuel key value).
Proof. intros R_NewPage R_set_root. unfold InsertIntoLeaf. keeps_auto. Qed.

#[local] Hint Resolve keeps_InsertIntoLeaf : keeps.

(** [Insert] keeps what its buffer-pool calls and the assignment of the root
    keep. *)
Lemma keeps_Insert fuel key value :
  keeps R NewPage -> (forall p, keeps R (set_root_page_id p)) ->
  keeps R (Insert fuel key value).
Proof.
  intros R_NewPage R_set_root. unfold Insert, StartNewTree, IsEmpty. keeps_auto.
Qed.

End KeepsWrites.

(** *** The relations *)

#[local] Instance same_data_refl : Reflexive same_data.
Proof. intros s q. reflexivity. Qed.
#[local] Instance same_data_trans : Transitive same_data.
Proof. intros s1 s2 s3 H12 H23 q. rewrite H23. apply H12. Qed.

#[local] Instance pages_persist_refl : Reflexive pages_persist.
Proof. intros s q H. exact H. Qed.
#[local] Instance pages_persist_trans : Transitive pages_persist.
Proof. intros s1 s2 s3 H12 H23 q H. apply H23, H12, H. Qed.

#[local] Instance no_allocation_refl : Reflexive no_allocation.
Proof. intros s. split; [reflexivity|lia]. Qed.
#[local] Instance no_allocation_trans : Transitive no_allocation.
Proof. intros s1 s2 s3 [H12 L12] [H23 L23]. split; [congruence|lia]. Qed.

Lemma same_data_persist s s' : same_data s s' -> pages_persist s s'.
Proof. intros H q. rewrite H. auto. Qed.

Lemma same_data_FetchPage p : keeps same_data (FetchPage p).
Proof.
  intros s b s' H q. unfold FetchPage, bind, get_bpm, put_bpm, ret, log_event, set_pages in H.
  simpl in H. destruct (pages (buffer_pool_manager_ s) !! p) as [pg|] eqn:Hp.
  - injection H as _ <-. unfold page_data at 1. simpl.
    apply (page_data_insert s p pg (_, _) Hp).
  - injection H as _ <-. reflexivity.
Qed.

Lemma same_data_UnpinPage p dirty : keeps same_data (UnpinPage p dirty).
Proof.
  intros s b s' H. destruct (UnpinPage_spec s p dirty) as (b' & s1 & H1 & Hd & _).
  rewrite H1 in H. injection H as _ <-. exact Hd.
Qed.

Lemma pages_persist_write_data p d : keeps pages_persist (write_data p d).
Proof.
  intros s a s' H q Hq. unfold write_data, bind, get_bpm, put_bpm, set_pages in H. simpl in H.
  destruct (pages (buffer_pool_manager_ s) !! p) as [pg|] eqn:Hp; [|discriminate].
  injection H as _ <-. unfold page_data in *. simpl.
  destruct (decide (p = q)) as [->|Hne].
  - rewrite lookup_insert_eq. simpl. eauto.
  - rewrite lookup_insert_ne by assumption. exact Hq.
Qed.

Lemma pages_persist_NewPage : keeps pages_persist NewPage.
Proof.
  intros s a s' H q Hq. unfold NewPage, bind, get_bpm, put_bpm, ret in H. simpl in H.
  destruct (free_pages (buffer_pool_manager_ s)); injection H as _ <-; [exact Hq|].
  unfold page_data in *. simpl.
  destruct (decide (next_page_id (buffer_pool_manager_ s) = q)) as [->|Hne].
  - rewrite lookup_insert_eq. simpl. eauto.
  - rewrite lookup_insert_ne by assumption. exact Hq.
Qed.

Lemma pages_persist_set_root_page_id p : keeps pages_persist (set_root_page_id p).
Proof. intros s a s' [= _ <-] q Hq. exact Hq. Qed.

(** X17. [Insert] deletes no page: every page that is in the pool when
    [Insert] is called is in the pool when it returns. *)
Theorem Insert_keeps_pages fuel key value s r s' p :
  Insert fuel key value s = Ok r s' ->
  is_Some (page_data s p) -> is_Some (page_data s' p).
Proof.
  intros H.
  assert (K : keeps pages_persist (Insert fuel key value)).
  { apply keeps_Insert;
      auto using pages_persist_write_data, pages_persist_NewPage, pages_persist_set_root_page_id;
      try typeclasses eauto.
    - intros q s0 a s1 H0. apply same_data_persist. exact (same_data_FetchPage _ _ _ _ H0).
    - intros q d s0 a s1 H0. apply same_data_persist. exact (same_data_UnpinPage _ _ _ _ _ H0). }
  exact (K _ _ _ H p).
Qed.

Lemma Insert_keeps_pages_witness :
  Insert 1 5 50 full_leaf = Ok true with_5 /\
  is_Some (page_data full_leaf 1) /\
  is_Some (page_data with_5 1).
Proof.
  split; [concrete|]. split; [eexists; concrete|].
  apply (Insert_keeps_pages 1 5 50 full_leaf true _ 1); [concrete|eexists; concrete].
Defined.


Lemma no_allocation_FetchPage p : keeps no_allocation (FetchPage p).
Proof.
  intros s b s' H. unfold FetchPage, bind, get_bpm, put_bpm, ret, log_event, set_pages in H.
  simpl in H. destruct (pages (buffer_pool_manager_ s) !! p);
    injection H as _ <-; split; simpl; auto with lia.
Qed.

Lemma no_allocation_UnpinPage p dirty : keeps no_allocation (UnpinPage p dirty).
Proof.
  intros s b s' H. unfold UnpinPage, bind, get_bpm, put_bpm, ret, log_event, set_pages in H.
  simpl in H. destruct (pages (buffer_pool_manager_ s) !! p) as [pg|];
    [destruct (0 <? pin_count pg)|]; injection H as _ <-; split; simpl; auto with lia.
Qed.

Lemma no_allocation_write_data p d : keeps no_allocation (write_data p d).
Proof.
  intros s b s' H. unfold write_data, bind, get_bpm, put_bpm, set_pages in H.
  simpl in H. destruct (pages (buffer_pool_manager_ s) !! p); [|discriminate].
  injection H as _ <-; split; simpl; auto with lia.
Qed.

Lemma no_allocation_DeletePage p : keeps no_allocation (DeletePage p).
Proof.
  intros s b s' H. unfold DeletePage, bind, get_bpm, put_bpm, ret, log_event in H.
  simpl in H. destruct (pages (buffer_pool_manager_ s) !! p) as [pg|];
    [destruct (0 <? pin_count pg)|]; injection H as _ <-; split; simpl; auto with lia.
Qed.

(** X18. [Remove] allocates no page: when it returns, the next page id of
    the pool is what it was and the pool can hand out at least as many pages
    as before. *)
Theorem Remove_never_allocates fuel key s s' :
  Remove fuel key s = Ok tt s' ->
  next_page_id (buffer_pool_manager_ s') = next_page_id (buffer_pool_manager_ s) /\
  (free_pages (buffer_pool_manager_ s) <= free_pages (buffer_pool_manager_ s'))%nat.
Proof.
  intros H.
  assert (K : keeps no_allocation (Remove fuel key)).
  { apply keeps_Remove;
      auto using no_allocation_FetchPage, no_allocation_UnpinPage, no_allocation_write_data,
                 no_allocation_DeletePage; typeclasses eauto. }
  exact (K _ _ _ H).
Qed.

Lemma Remove_never_allocates_witness :
  Remove 8 4 left_donor = Ok tt left_donor_after /\
  next_page_id (buffer_pool_manager_ left_donor_after)
  = next_page_id (buffer_pool_manager_ left_donor) /\
  (free_pages (buffer_pool_manager_ left_donor)
   <= free_pages (buffer_pool_manager_ left_donor_after))%nat.
Proof.
  split; [concrete|].
  apply (Remove_never_allocates 8 4 left_donor). concrete.
Defined.


Lemma read_tree_inv p s tp s' :
  read_tree p s = Ok tp s' -> s' = s /\ tree_page_at s p = Some tp.
Proof.
  unfold read_tree, read_data, bind, get_bpm, ret, throw, tree_page_at, page_data.
  destruct (pages (buffer_pool_manager_ s) !! p) as [pg|]; simpl; [|discriminate].
  destruct (data pg) as [|tp'|]; try discriminate.
  intros [= -> ->]. auto.
Qed.

Lemma fetch_deref_inv p s a s' :
  fetch_deref p s = Ok a s' ->
  same_data s s' /\ events s' = events s ++ [EvFetch p].
Proof.
  intros H. assert (Hsome : is_Some (page_data s p)).
  { unfold fetch_deref, FetchPage, bind, get_bpm, put_bpm, ret, throw, log_event in H.
    simpl in H. unfold page_data.
    destruct (pages (buffer_pool_manager_ s) !! p); [simpl; eauto|discriminate]. }
  destruct (fetch_deref_spec s p Hsome) as (s1 & H1 & Hd & He & _).
  rewrite H1 in H. injection H as _ <-. auto.
Qed.

Lemma read_internal_inv p s ip s' :
  read_internal p s = Ok ip s' -> s' = s /\ tree_page_at s p = Some (TInternal ip).
Proof.
  unfold read_internal. intros H. apply bind_inv in H as (tp & s1 & H1 & H).
  apply read_tree_inv in H1 as [-> H1]. destruct tp; [discriminate|].
  injection H as <- <-. auto.
Qed.

(** X14. Whenever the descent loop returns, the page it returns is a leaf;
    it has changed no page content and not the root, and its calls on the
    buffer pool are fetches and releases that are not dirtied. *)
Theorem descend_returns_leaf fuel key root s leaf s' :
  descend fuel key root s = Ok leaf s' ->
  (exists lp, tree_page_at s' leaf = Some (TLeaf lp)) /\
  (forall p, page_data s' p = page_data s p) /\
  root_page_id_ s' = root_page_id_ s /\
  exists evs, events s' = events s ++ evs /\ clean_descent evs.
Proof.
  revert root s. induction fuel as [|fuel IH]; intros root s H; simpl in H; [discriminate|].
  apply bind_inv in H as (btp & s0 & Hread & H).
  apply read_tree_inv in Hread as [-> Hroot].
  destruct btp as [lp|ip].
  - injection H as <- <-. split; [eauto|]. split; [reflexivity|]. split; [reflexivity|].
    exists []. rewrite app_nil_r. split; [reflexivity|constructor].
  - apply bind_inv in H as (b & s1 & Hun & H).
    apply bind_inv in H as (u & s2 & Hfe & H).
    destruct (UnpinPage_spec s root false) as (b' & s1' & Hun' & Hd1 & He1 & Hr1).
    rewrite Hun' in Hun. injection Hun as _ <-.
    assert (Hr2 := keeps_root_fetch_deref _ _ _ _ Hfe).
    apply fetch_deref_inv in Hfe as [Hd2 He2].
    destruct (IH _ _ H) as (Hleaf & Hd & Hr & evs & He & Hclean).
    split; [exact Hleaf|].
    split; [intros p; rewrite Hd, Hd2; apply Hd1|].
    split; [congruence|].
    exists (EvUnpin root false :: EvFetch (Internal.Lookup key ip) :: evs).
    split.
    + rewrite He, He2, He1, <- !app_assoc. reflexivity.
    + repeat constructor; eauto.
Qed.

Lemma descend_returns_leaf_witness :
  descend 2 4 3 two_level = Ok 2 descended /\
  (exists lp,
     tree_page_at descended 2 = Some (TLeaf lp)) /\
  (forall p, page_data descended p
             = page_data two_level p) /\
  root_page_id_ descended = root_page_id_ two_level /\
  exists evs,
    events descended = events two_level ++ evs /\
    clean_descent evs.
Proof.
  split; [concrete|].
  apply (descend_returns_leaf 2 4 3 two_level 2). concrete.
Defined.

(** X15. When [CoalesceOrRedistribute] returns true, telling [Remove] to
    delete the node, it has changed no page content: no entry of the node has
    been moved to a sibling and the parent still holds the entry of the
    node. *)
Theorem CoalesceOrRedistribute_true_moves_nothing node s s' :
  CoalesceOrRedistribute node s = Ok true s' ->
  forall p, page_data s' p = page_data s p.
Proof.
  intros H.
  assert (Hread : forall p, keeps same_data (read_tree p)).
  { intros p. apply keeps_read_tree; try typeclasses eauto. }
  assert (Hreadi : forall p, keeps same_data (read_internal p)).
  { intros p. apply keeps_read_internal; try typeclasses eauto. }
  assert (Hfetch : forall p, keeps same_data (GetInternalPage p)).
  { intros p s0 a s1 H0. exact (proj1 (fetch_deref_inv _ _ _ _ H0)). }
  unfold CoalesceOrRedistribute in H.
  apply bind_inv in H as (btp & s1 & H1 & H). apply Hread in H1.
  apply bind_inv in H as (u & s2 & H2 & H). apply Hfetch in H2.
  apply bind_inv in H as (pp & s3 & H3 & H). apply Hreadi in H3.
  apply bind_inv in H as ([l haveLeft] & s4 & H4 & H).
  assert (Hs3 : same_data s s3) by (transitivity s1; [|transitivity s2]; assumption).
  assert (H4' : l = None -> same_data s3 s4).
  { intros ->. destruct (_ >=? 0).
    - apply bind_inv in H4 as (u1 & t1 & G1 & H4). apply Hfetch in G1.
      apply bind_inv in H4 as (ls & t2 & G2 & H4). apply Hread in G2.
      destruct (_ >? _).
      + apply bind_inv in H4 as (u2 & t3 & _ & H4). discriminate H4.
      + injection H4 as _ <-. transitivity t1; assumption.
    - injection H4 as _ <-. reflexivity. }
  destruct l as [result|].
  { injection H as -> <-.
    destruct (_ >=? 0); [|discriminate H4].
    apply bind_inv in H4 as (u1 & t1 & G1 & H4).
    apply bind_inv in H4 as (ls & t2 & G2 & H4).
    destruct (_ >? _); [|discriminate H4].
    apply bind_inv in H4 as (u2 & t3 & _ & H4). discriminate H4. }
  specialize (H4' eq_refl).
  apply bind_inv in H as (pp' & s5 & H5 & H). apply Hreadi in H5.
  apply bind_inv in H as ([r haveRight] & s6 & H6 & H).
  assert (H6' : r = None -> same_data s5 s6).
  { intros ->. destruct (_ <? _).
    - apply bind_inv in H6 as (u1 & t1 & G1 & H6). apply Hfetch in G1.
      apply bind_inv in H6 as (rs & t2 & G2 & H6). apply Hread in G2.
      destruct (_ >? _); [discriminate H6|].
      injection H6 as _ <-. transitivity t1; assumption.
    - injection H6 as _ <-. reflexivity. }
  destruct r as [result|].
  { injection H as -> <-.
    destruct (_ <? _); [|discriminate H6].
    apply bind_inv in H6 as (u1 & t1 & G1 & H6).
    apply bind_inv in H6 as (rs & t2 & G2 & H6).
    destruct (_ >? _); discriminate H6. }
  specialize (H6' eq_refl).
  apply bind_inv in H as (u3 & s7 & H7 & H).
  assert (s7 = s6) as ->.
  { unfold assert in H7. destruct (_ || _); [injection H7 as _ ->; reflexivity|discriminate]. }
  injection H as <-.
  intros p. rewrite H6', H5, H4'. apply Hs3.
Qed.

Lemma CoalesceOrRedistribute_true_moves_nothing_witness :
  CoalesceOrRedistribute 1 minimal_underflow
  = Ok true minimal_after /\
  forall p,
    page_data minimal_after p
    = page_data minimal_underflow p.
Proof.
  split; [concrete|].
  apply (CoalesceOrRedistribute_true_moves_nothing 1 minimal_underflow). concrete.
Defined.

(** X16. On a node that is the first child of its parent,
    [CoalesceOrRedistribute] changes no page content, whatever it returns: a
    right sibling above its minimum size gives nothing to the node. *)
Theorem CoalesceOrRedistribute_leftmost_moves_nothing node s r s' tp pp :
  tree_page_at s node = Some tp ->
  tree_page_at s (BasePage.GetParentPageId tp) = Some (TInternal pp) ->
  Internal.ValueIndex pp (BasePage.GetPageId tp) = 0 ->
  CoalesceOrRedistribute node s = Ok r s' ->
  forall p, page_data s' p = page_data s p.
Proof.
  intros Hnode Hparent Hidx H.
  assert (Hfetch : forall p, keeps same_data (GetInternalPage p)).
  { intros p s0 a s1 H0. exact (proj1 (fetch_deref_inv _ _ _ _ H0)). }
  unfold CoalesceOrRedistribute in H.
  apply bind_inv in H as (btp & s1 & H1 & H). apply read_tree_inv in H1 as [-> H1].
  rewrite Hnode in H1. injection H1 as <-.
  apply bind_inv in H as (u & s2 & H2 & H). apply Hfetch in H2.
  apply bind_inv in H as (pp' & s3 & H3 & H). apply read_internal_inv in H3 as [-> H3].
  rewrite (tree_page_at_ext s s2 H2), Hparent in H3. injection H3 as <-.
  rewrite Hidx in H. simpl in H.
  apply bind_inv in H as (l & s4 & H4 & H). injection H4 as <- <-.
  apply bind_inv in H as (pp' & s5 & H5 & H). apply read_internal_inv in H5 as [-> _].
  apply bind_inv in H as ([o haveRight] & s6 & H6 & H).
  assert (H6' : same_data s2 s6).
  { destruct (_ <? _).
    - apply bind_inv in H6 as (u1 & t1 & G1 & H6). apply Hfetch in G1.
      apply bind_inv in H6 as (rs & t2 & G2 & H6). apply read_tree_inv in G2 as [-> _].
      destruct (_ >? _); injection H6 as _ _ <-; exact G1.
    - injection H6 as _ _ <-. intros q. reflexivity. }
  assert (s' = s6) as ->.
  { destruct o as [result|]; [injection H as _ <-; reflexivity|].
    apply bind_inv in H as (u3 & s7 & H7 & H). injection H as _ <-.
    unfold assert in H7. destruct (_ || _); [injection H7 as _ ->; reflexivity|discriminate]. }
  intros p. rewrite H6'. apply H2.
Qed.

Lemma CoalesceOrRedistribute_leftmost_moves_nothing_witness :
  CoalesceOrRedistribute 1 right_donor
  = Ok false right_donor_after /\
  forall p,
    page_data right_donor_after p
    = page_data right_donor p.
Proof.
  split; [concrete|].
  apply (CoalesceOrRedistribute_leftmost_moves_nothing 1 right_donor false _
           (TLeaf (mkLeafPage 1 3 4 2 [(2, 20)]))
           (mkInternalPage 3 INVALID_PAGE_ID 4 [(0, 1); (2, 2)])); concrete.
Defined.

(** ** Where [Insert] and [Remove] leave the root and the pool *)

#[local] Instance root_moves_refl : Reflexive root_moves_to_new_page.
Proof. intros s. split; [lia|left; reflexivity]. Qed.
#[local] Instance root_moves_trans : Transitive root_moves_to_new_page.
Proof.
  intros s1 s2 s3 [N12 R12] [N23 R23]. split; [lia|].
  destruct R23 as [->|R23]; [destruct R12 as [->|R12]; [left; reflexivity|right; lia]|right; lia].
Qed.

Lemma root_moves_FetchPage p : keeps root_moves_to_new_page (FetchPage p).
Proof.
  intros s b s' H. unfold FetchPage, bind, get_bpm, put_bpm, ret, log_event, set_pages in H.
  simpl in H. destruct (pages (buffer_pool_manager_ s) !! p);
    injection H as _ <-; split; simpl; auto with lia.
Qed.

Lemma root_moves_UnpinPage p dirty : keeps root_moves_to_new_page (UnpinPage p dirty).
Proof.
  intros s b s' H. unfold UnpinPage, bind, get_bpm, put_bpm, ret, log_event, set_pages in H.
  simpl in H. destruct (pages (buffer_pool_manager_ s) !! p) as [pg|];
    [destruct (0 <? pin_count pg)|]; injection H as _ <-; split; simpl; auto with lia.
Qed.

Lemma root_moves_write_data p d : keeps root_moves_to_new_page (write_data p d).
Proof.
  intros s b s' H. unfold write_data, bind, get_bpm, put_bpm, set_pages in H.
  simpl in H. destruct (pages (buffer_pool_manager_ s) !! p); [|discriminate].
  injection H as _ <-; split; simpl; auto with lia.
Qed.

Lemma NewPage_inv s r s' :
  NewPage s = Ok r s' ->
  root_page_id_ s' = root_page_id_ s /\
  match r with
  | Some p => p = next_page_id (buffer_pool_manager_ s) /\
              next_page_id (buffer_pool_manager_ s') = p + 1
  | None => s' = s
  end.
Proof.
  unfold NewPage, bind, get_bpm, put_bpm, ret. simpl.
  destruct (free_pages (buffer_pool_manager_ s)); intros [= <- <-]; simpl; auto.
Qed.

Lemma root_moves_NewPage : keeps root_moves_to_new_page NewPage.
Proof.
  intros s r s' H. apply NewPage_inv in H as [Hr H]. split.
  - destruct r as [p|]; [lia|subst; lia].
  - left. exact Hr.
Qed.

Ltac root_moves_auto :=
  repeat first
    [ match goal with
      | |- keeps _ (bind _ _) => apply keeps_bind; [typeclasses eauto| |intros ?]
      end
    | apply keeps_ret; typeclasses eauto
    | apply keeps_throw
    | apply keeps_get; typeclasses eauto
    | apply keeps_read_tree; typeclasses eauto
    | apply keeps_read_leaf; typeclasses eauto
    | apply keeps_read_internal; typeclasses eauto
    | apply keeps_fetch_deref; [typeclasses eauto..|apply root_moves_FetchPage]
    | apply keeps_descend;
        [typeclasses eauto..|apply root_moves_FetchPage|apply root_moves_UnpinPage]
    | apply root_moves_UnpinPage
    | apply root_moves_write_data
    | apply keeps_SetParentPageId; [typeclasses eauto..|apply root_moves_write_data]
    | apply keeps_UpdateRootPageId;
        [typeclasses eauto..|apply root_moves_FetchPage|apply root_moves_UnpinPage
        |apply root_moves_write_data]
    | apply keeps_Split;
        [typeclasses eauto..|apply root_moves_FetchPage|apply root_moves_UnpinPage
        |apply root_moves_write_data|apply root_moves_NewPage]
    | match goal with
      | |- keeps _ (let '(_, _) := ?x in _) => destruct x
      | |- keeps _ (if ?b then _ else _) => destruct b
      end ].

Lemma root_moves_InsertIntoParent fuel old_node key new_node :
  keeps root_moves_to_new_page (InsertIntoParent fuel old_node key new_node).
Proof.
  revert old_node key new_node.
  induction fuel as [|fuel IH]; intros old_node key new_node; simpl.
  - apply keeps_throw.
  - apply keeps_bind; [typeclasses eauto|apply keeps_get; typeclasses eauto|intros s0].
    apply keeps_bind; [typeclasses eauto| |intros old].
    { apply keeps_read_tree; typeclasses eauto. }
    destruct (_ =? _).
    + intros s a s' H.
      apply bind_inv in H as ([p|] & s1 & Hnew & H); [|discriminate].
      apply NewPage_inv in Hnew as [_ [-> Hnext]].
      apply bind_inv in H as (u & s2 & H2 & H). apply root_moves_write_data in H2 as [N2 _].
      apply bind_inv in H as (u' & s3 & H3 & H). injection H3 as _ <-.
      match type of H with
      | ?m _ = _ =>
          assert (K : keeps root_moves_to_new_page m)
            by (unfold write_internal; root_moves_auto)
      end.
      apply K in H as [N3 R3]. simpl in *. split; [lia|right; lia].
    + root_moves_auto; [unfold write_internal; root_moves_auto..|apply IH].
Qed.

Lemma root_moves_InsertIntoLeaf fuel key value :
  keeps root_moves_to_new_page (InsertIntoLeaf fuel key value).
Proof.
  unfold InsertIntoLeaf, write_leaf. root_moves_auto. apply root_moves_InsertIntoParent.
Qed.

Lemma root_moves_StartNewTree fuel key value s a s' :
  StartNewTree fuel key value s = Ok a s' ->
  next_page_id (buffer_pool_manager_ s) <= root_page_id_ s'
    < next_page_id (buffer_pool_manager_ s').
Proof.
  unfold StartNewTree. intros H.
  apply bind_inv in H as (s0 & s1 & Hg & H). injection Hg as <- <-.
  apply bind_inv in H as (e & s1 & Hg & H).
  unfold IsEmpty, bind, get, ret in Hg. injection Hg as <- <-.
  apply bind_inv in H as (u & s1 & Hg & H).
  assert (s1 = s) as ->.
  { unfold assert in Hg. destruct (_ =? _); [injection Hg as _ ->; reflexivity|discriminate]. }
  apply bind_inv in H as ([p|] & s1 & Hnew & H); [|discriminate].
  apply NewPage_inv in Hnew as [_ [-> Hnext]].
  apply bind_inv in H as (u' & s2 & H2 & H). injection H2 as _ <-.
  match type of H with
  | ?m _ = _ =>
      assert (K : keeps root_moves_to_new_page m)
        by (unfold write_leaf; root_moves_auto; apply root_moves_InsertIntoLeaf)
  end.
  apply K in H as [N R]. simpl in *. lia.
Qed.

(** X19. Whenever [Insert] returns, the pool has allocated upwards, and the
    root is either a page this very [Insert] allocated or, on a tree that was
    not empty, the root it found.  So after [Insert] the tree is not empty, as
    long as the pool allocates page ids that are not negative. *)
Theorem Insert_root_is_allocated fuel key value s r s' :
  Insert fuel key value s = Ok r s' ->
  next_page_id (buffer_pool_manager_ s) <= next_page_id (buffer_pool_manager_ s') /\
  (next_page_id (buffer_pool_manager_ s) <= root_page_id_ s'
     < next_page_id (buffer_pool_manager_ s') \/
   root_page_id_ s <> INVALID_PAGE_ID /\ root_page_id_ s' = root_page_id_ s) /\
  (0 <= next_page_id (buffer_pool_manager_ s) -> IsEmpty s' = Ok false s').
Proof.
  unfold Insert. intros H.
  apply bind_inv in H as (empty & s0 & He & H).
  unfold IsEmpty, bind, get, ret in He. injection He as <- <-.
  assert (Hcases :
    next_page_id (buffer_pool_manager_ s) <= next_page_id (buffer_pool_manager_ s') /\
    (next_page_id (buffer_pool_manager_ s) <= root_page_id_ s'
       < next_page_id (buffer_pool_manager_ s') \/
     root_page_id_ s <> INVALID_PAGE_ID /\ root_page_id_ s' = root_page_id_ s)).
  { destruct (Z.eqb_spec (root_page_id_ s) INVALID_PAGE_ID) as [Hempty|Hne].
    - apply bind_inv in H as (u & s1 & H & Hret). injection Hret as _ <-.
      apply root_moves_StartNewTree in H. split; [lia|left; exact H].
    - apply root_moves_InsertIntoLeaf in H as [N [R|R]]; auto. }
  destruct Hcases as [N R]. split; [exact N|]. split; [exact R|].
  intros Hnext. unfold IsEmpty, bind, get, ret.
  destruct (Z.eqb_spec (root_page_id_ s') INVALID_PAGE_ID) as [E|_]; [|reflexivity].
  unfold INVALID_PAGE_ID in *. destruct R as [R|[R1 R2]]; [lia|congruence].
Qed.

Lemma Insert_root_is_allocated_witness :
  Insert 1 5 50 full_leaf = Ok true with_5 /\
  next_page_id (buffer_pool_manager_ full_leaf)
  <= next_page_id (buffer_pool_manager_ with_5) /\
  (next_page_id (buffer_pool_manager_ full_leaf)
   <= root_page_id_ with_5
   < next_page_id (buffer_pool_manager_ with_5) \/
   root_page_id_ full_leaf <> INVALID_PAGE_ID /\
   root_page_id_ with_5 = root_page_id_ full_leaf) /\
  (0 <= next_page_id (buffer_pool_manager_ full_leaf) ->
   IsEmpty with_5
   = Ok false with_5).
Proof.
  split; [concrete|].
  apply (Insert_root_is_allocated 1 5 50 full_leaf true). concrete.
Defined.

(** X20. Whenever [Remove] returns, the root page id is what it was; a tree
    that was not empty is not empty afterwards, whatever was removed. *)
Theorem Remove_leaves_root fuel key s s' :
  Remove fuel key s = Ok tt s' ->
  root_page_id_ s' = root_page_id_ s /\
  (root_page_id_ s <> INVALID_PAGE_ID -> IsEmpty s' = Ok false s').
Proof.
  intros H. pose proof (Remove_keeps_root _ _ _ _ _ H) as Hroot.
  split; [exact Hroot|]. intros Hne.
  unfold IsEmpty, bind, get, ret. rewrite Hroot.
  destruct (Z.eqb_spec (root_page_id_ s) INVALID_PAGE_ID); [contradiction|reflexivity].
Qed.

Lemma Remove_leaves_root_witness :
  Remove 8 4 left_donor = Ok tt left_donor_after /\
  root_page_id_ left_donor_after = root_page_id_ left_donor /\
  (root_page_id_ left_donor <> INVALID_PAGE_ID ->
   IsEmpty left_donor_after
   = Ok false left_donor_after).
Proof.
  split; [concrete|].
  apply (Remove_leaves_root 8 4 left_donor). concrete.
Defined.

(** [Remove] on an empty tree, at an input. *)
Lemma Remove_empty_noop_witness :
  Remove 2 5 empty_tree = Ok tt empty_tree.
Proof.
  apply (Remove_empty_noop 2 5 empty_tree). concrete.
Defined.

(** * [Insert] at the leaf the descent reaches *)

(** ** The leaves keep their entries through [InsertIntoParent] *)

(** [InsertIntoParent] writes internal pages, the header page and parent page
    ids.  Each write is to a page that was just read as an internal page or
    as the header page, or just allocated, or it gives a page back with its
    entries; on a pool that allocates unused ids no leaf loses an entry. *)


#[local] Instance leaves_kept_refl : Reflexive leaves_kept.
Proof. intros s Hf. split; [exact Hf|eauto]. Qed.
#[local] Instance leaves_kept_trans : Transitive leaves_kept.
Proof.
  intros s1 s2 s3 H12 H23 Hf. destruct (H12 Hf) as [Hf2 K12].
  destruct (H23 Hf2) as [Hf3 K23]. split; [exact Hf3|].
  intros p lp Hp. destruct (K12 _ _ Hp) as (lp2 & Hp2 & E2).
  destruct (K23 _ _ Hp2) as (lp3 & Hp3 & E3). exists lp3. split; [exact Hp3|congruence].
Qed.

(** What a write and a read of the memory of a frame tell. *)
Lemma write_data_inv p d s a s' :
  write_data p d s = Ok a s' ->
  is_Some (page_data s p) /\
  (forall q, page_data s' q = if decide (q = p) then Some d else page_data s q) /\
  next_page_id (buffer_pool_manager_ s') = next_page_id (buffer_pool_manager_ s) /\
  root_page_id_ s' = root_page_id_ s.
Proof.
  unfold write_data, bind, get_bpm, put_bpm, set_pages. simpl.
  destruct (pages (buffer_pool_manager_ s) !! p) as [pg|] eqn:Hp; [|discriminate].
  intros [= _ <-]. split; [unfold page_data; rewrite Hp; simpl; eauto|].
  split; [|auto]. intros q. unfold page_data. simpl.
  case_decide as Hq.
  - subst. rewrite lookup_insert_eq. reflexivity.
  - rewrite lookup_insert_ne by congruence. reflexivity.
Qed.

Lemma write_data_ok p d s :
  is_Some (page_data s p) -> exists s', write_data p d s = Ok tt s'.
Proof.
  unfold page_data, write_data, bind, get_bpm, put_bpm, set_pages. simpl.
  destruct (pages (buffer_pool_manager_ s) !! p) as [pg|]; [eauto|].
  intros [d' Hd]. discriminate Hd.
Qed.

Lemma read_data_inv p s d s' :
  read_data p s = Ok d s' -> s' = s /\ page_data s p = Some d.
Proof.
  unfold read_data, bind, get_bpm, ret, throw, page_data.
  destruct (pages (buffer_pool_manager_ s) !! p) as [pg|]; simpl; [|discriminate].
  intros [= -> ->]. auto.
Qed.

Lemma leaves_kept_same s s' :
  same_data s s' ->
  next_page_id (buffer_pool_manager_ s') = next_page_id (buffer_pool_manager_ s) ->
  leaves_kept s s'.
Proof.
  intros Hd Hn Hf. split.
  - intros p Hp. rewrite Hn. apply Hf. rewrite <- Hd. exact Hp.
  - intros p lp Hp. exists lp. split; [|reflexivity].
    unfold tree_page_at. rewrite Hd. exact Hp.
Qed.

Lemma leaves_kept_FetchPage p : keeps leaves_kept (FetchPage p).
Proof.
  intros s b s' H. apply leaves_kept_same.
  - exact (same_data_FetchPage _ _ _ _ H).
  - exact (proj1 (no_allocation_FetchPage _ _ _ _ H)).
Qed.

Lemma leaves_kept_UnpinPage p dirty : keeps leaves_kept (UnpinPage p dirty).
Proof.
  intros s b s' H. apply leaves_kept_same.
  - exact (same_data_UnpinPage _ _ _ _ _ H).
  - exact (proj1 (no_allocation_UnpinPage _ _ _ _ _ H)).
Qed.

Lemma leaves_kept_set_root_page_id p : keeps leaves_kept (set_root_page_id p).
Proof. intros s a s' [= _ <-]. apply leaves_kept_same; [intros q|]; reflexivity. Qed.

Lemma NewPage_data s p s' :
  NewPage s = Ok (Some p) s' ->
  p = next_page_id (buffer_pool_manager_ s) /\
  next_page_id (buffer_pool_manager_ s') = p + 1 /\
  forall q, page_data s' q = if decide (q = p) then Some RawData else page_data s q.
Proof.
  unfold NewPage, bind, get_bpm, put_bpm, ret. simpl.
  destruct (free_pages (buffer_pool_manager_ s)); [discriminate|].
  intros [= <- <-]. split; [reflexivity|]. split; [reflexivity|].
  intros q. unfold page_data. simpl. case_decide as Hq.
  - subst. rewrite lookup_insert_eq. reflexivity.
  - rewrite lookup_insert_ne by congruence. reflexivity.
Qed.

Lemma leaves_kept_NewPage : keeps leaves_kept NewPage.
Proof.
  intros s a s' H Hf. destruct a as [p|].
  - apply NewPage_data in H as (-> & Hn & Hd). split.
    + intros q Hq. rewrite Hn. rewrite Hd in Hq. case_decide; [lia|].
      specialize (Hf _ Hq). lia.
    + intros q lp Hq. exists lp. split; [|reflexivity].
      unfold tree_page_at in *. rewrite Hd. case_decide as E; [|exact Hq].
      subst q. exfalso.
      destruct (page_data s (next_page_id (buffer_pool_manager_ s))) as [d|] eqn:E;
        [|discriminate].
      assert (Hs : is_Some (page_data s (next_page_id (buffer_pool_manager_ s)))) by (rewrite E; eauto).
      specialize (Hf _ Hs). lia.
  - unfold NewPage, bind, get_bpm, put_bpm, ret in H. simpl in H.
    destruct (free_pages (buffer_pool_manager_ s)); [|discriminate].
    injection H as <-. split; [exact Hf|eauto].
Qed.

Lemma tree_page_at_write p d s a s' :
  write_data p d s = Ok a s' ->
  forall q, tree_page_at s' q
            = if decide (q = p) then match d with TreeData tp => Some tp | _ => None end
              else tree_page_at s q.
Proof.
  intros H q. apply write_data_inv in H as (_ & Hd & _).
  unfold tree_page_at. rewrite Hd. case_decide; reflexivity.
Qed.

(** A write keeps the leaves when it is not to a leaf, or writes a leaf with
    the entries the page had. *)
Lemma leaves_kept_write_data p d s a s' :
  write_data p d s = Ok a s' ->
  (forall lp, tree_page_at s p = Some (TLeaf lp) ->
              exists lp', d = TreeData (TLeaf lp') /\ lf_array lp' = lf_array lp) ->
  leaves_kept s s'.
Proof.
  intros H Hleaf Hf. pose proof (tree_page_at_write _ _ _ _ _ H) as Ht.
  apply write_data_inv in H as (Hsome & Hd & Hn & _). split.
  - intros q Hq. rewrite Hn. apply Hf. rewrite Hd in Hq. case_decide; subst; auto.
  - intros q lp Hq. rewrite Ht. case_decide as E.
    + subst q. destruct (Hleaf lp Hq) as (lp' & -> & Harr). eauto.
    + eauto.
Qed.

Lemma leaves_kept_write_internal p ip s a s' ip0 :
  write_internal p ip s = Ok a s' ->
  tree_page_at s p = Some (TInternal ip0) ->
  leaves_kept s s'.
Proof.
  intros H Hp. eapply leaves_kept_write_data; [exact H|].
  intros lp Hlp. rewrite Hp in Hlp. discriminate Hlp.
Qed.

Lemma keeps_leaves_fetch_deref p : keeps leaves_kept (fetch_deref p).
Proof. apply keeps_fetch_deref; [typeclasses eauto..|apply leaves_kept_FetchPage]. Qed.

Lemma leaves_kept_SetParentPageId node parent :
  keeps leaves_kept (SetParentPageId node parent).
Proof.
  intros s a s' H. unfold SetParentPageId in H.
  apply bind_inv in H as (tp & s1 & Hr & H). apply read_tree_inv in Hr as [-> Htp].
  eapply leaves_kept_write_data; [exact H|].
  intros lp Hlp. rewrite Htp in Hlp. injection Hlp as ->. simpl. eauto.
Qed.

Lemma leaves_kept_reparent parent child :
  keeps leaves_kept (Internal.reparent parent child).
Proof.
  intros s a s' H. unfold Internal.reparent in H.
  apply bind_inv in H as (u & s1 & Hf & H).
  apply bind_inv in H as (tp & s2 & Hr & H). apply read_tree_inv in Hr as [-> Htp].
  apply bind_inv in H as (u' & s2 & Hw & H).
  apply bind_inv in H as (b & s3 & Hu & H). injection H as _ <-.
  transitivity s1; [exact (keeps_leaves_fetch_deref _ _ _ _ Hf)|].
  transitivity s2; [|exact (leaves_kept_UnpinPage _ _ _ _ _ Hu)].
  eapply leaves_kept_write_data; [exact Hw|].
  intros lp Hlp. rewrite Htp in Hlp. injection Hlp as ->. simpl. eauto.
Qed.

Lemma leaves_kept_reparent_all parent children :
  keeps leaves_kept (Internal.reparent_all parent children).
Proof.
  induction children as [|[k c] rest IH]; simpl.
  - apply keeps_ret. typeclasses eauto.
  - apply keeps_bind; [typeclasses eauto|apply leaves_kept_reparent|intros _; exact IH].
Qed.

Lemma leaves_kept_MoveHalfTo node recipient :
  keeps leaves_kept (Internal.MoveHalfTo node recipient).
Proof.
  intros s a s' H. unfold Internal.MoveHalfTo in H.
  apply bind_inv in H as (ip & s0 & Hr & H). apply read_internal_inv in Hr as [-> Hip].
  apply bind_inv in H as (rp & s0 & Hr & H). apply read_internal_inv in Hr as [-> Hrp].
  apply bind_inv in H as (u & s1 & Hw1 & H).
  apply bind_inv in H as (u' & s2 & Hw2 & H).
  transitivity s1; [exact (leaves_kept_write_internal _ _ _ _ _ _ Hw1 Hrp)|].
  transitivity s2; [|exact (leaves_kept_reparent_all _ _ _ _ _ H)].
  pose proof (tree_page_at_write _ _ _ _ _ Hw1 node) as Hn.
  case_decide; [|rewrite Hip in Hn];
    exact (leaves_kept_write_internal _ _ _ _ _ _ Hw2 Hn).
Qed.

Lemma leaves_kept_Split_internal node s p s' ip :
  Split node s = Ok p s' ->
  tree_page_at s node = Some (TInternal ip) ->
  leaves_kept s s'.
Proof.
  intros H Hnode. unfold Split in H.
  apply bind_inv in H as (s0 & s0' & Hg & H). injection Hg as <- <-.
  apply bind_inv in H as (np & s1 & Hnew & H).
  destruct np as [page_id|]; [|discriminate].
  transitivity s1; [exact (leaves_kept_NewPage _ _ _ Hnew)|].
  apply NewPage_data in Hnew as (_ & _ & Hd1).
  apply bind_inv in H as (n & s1' & Hr & H). apply read_tree_inv in Hr as [-> Hn].
  assert (n = TInternal ip) as ->.
  { unfold tree_page_at in Hn, Hnode. rewrite Hd1 in Hn. case_decide; [discriminate|].
    rewrite Hnode in Hn. congruence. }
  apply bind_inv in H as (u & s2 & Hw & H).
  apply bind_inv in H as (u' & s3 & Hm & H). injection H as _ <-.
  transitivity s2; [|exact (leaves_kept_MoveHalfTo _ _ _ _ _ Hm)].
  eapply leaves_kept_write_data; [exact Hw|].
  intros lp Hlp. unfold tree_page_at in Hlp. rewrite Hd1 in Hlp.
  rewrite decide_True in Hlp by reflexivity. discriminate Hlp.
Qed.

Lemma leaves_kept_UpdateRootPageId insert_record :
  keeps leaves_kept (UpdateRootPageId insert_record).
Proof.
  intros s a s' H. unfold UpdateRootPageId in H.
  apply bind_inv in H as (s0 & s0' & Hg & H). injection Hg as <- <-.
  apply bind_inv in H as (u & s1 & Hf & H).
  apply bind_inv in H as (d & s1' & Hr & H). apply read_data_inv in Hr as [-> Hd].
  destruct d as [| |records]; try discriminate.
  apply bind_inv in H as (u' & s2 & Hw & H).
  apply bind_inv in H as (b & s3 & Hu & H). injection H as _ <-.
  transitivity s1; [exact (keeps_leaves_fetch_deref _ _ _ _ Hf)|].
  transitivity s2; [|exact (leaves_kept_UnpinPage _ _ _ _ _ Hu)].
  assert (Hnl : forall lp, tree_page_at s1 HEADER_PAGE_ID = Some (TLeaf lp) ->
                exists lp', HeaderData records = TreeData (TLeaf lp') /\ lf_array lp' = lf_array lp).
  { intros lp Hlp. unfold tree_page_at in Hlp. rewrite Hd in Hlp. discriminate Hlp. }
  destruct insert_record; (eapply leaves_kept_write_data; [exact Hw|]);
    intros lp Hlp; unfold tree_page_at in Hlp; rewrite Hd in Hlp; discriminate Hlp.
Qed.

Lemma leaves_kept_InsertIntoParent fuel old_node key new_node :
  keeps leaves_kept (InsertIntoParent fuel old_node key new_node).
Proof.
  revert old_node key new_node.
  induction fuel as [|fuel IH]; intros old_node key new_node s a s' H; simpl in H;
    [discriminate|].
  apply bind_inv in H as (s0 & s0' & Hg & H). injection Hg as <- <-.
  apply bind_inv in H as (old & s0 & Hr & H). apply read_tree_inv in Hr as [-> Hold].
  destruct (BasePage.GetParentPageId old =? INVALID_PAGE_ID).
  - apply bind_inv in H as (np & s1 & Hnew & H).
    destruct np as [p|]; [|discriminate].
    apply bind_inv in H as (u1 & s2 & Hw & H).
    apply bind_inv in H as (u2 & s3 & Hset & H).
    apply bind_inv in H as (u3 & s4 & Hup & H).
    apply bind_inv in H as (u4 & s5 & Hp1 & H).
    apply bind_inv in H as (u5 & s6 & Hp2 & H).
    apply bind_inv in H as (ip & s6' & Hr & H). apply read_internal_inv in Hr as [-> Hip].
    apply bind_inv in H as (u6 & s7 & Hw2 & H).
    apply bind_inv in H as (b & s8 & Hu & H). injection H as _ <-.
    transitivity s1; [exact (leaves_kept_NewPage _ _ _ Hnew)|].
    apply NewPage_data in Hnew as (_ & _ & Hd1).
    transitivity s2.
    { eapply leaves_kept_write_data; [exact Hw|].
      intros lp Hlp. unfold tree_page_at in Hlp. rewrite Hd1 in Hlp.
      rewrite decide_True in Hlp by reflexivity. discriminate Hlp. }
    transitivity s3; [exact (leaves_kept_set_root_page_id _ _ _ _ Hset)|].
    transitivity s4; [exact (leaves_kept_UpdateRootPageId _ _ _ _ Hup)|].
    transitivity s5; [exact (leaves_kept_SetParentPageId _ _ _ _ _ Hp1)|].
    transitivity s6; [exact (leaves_kept_SetParentPageId _ _ _ _ _ Hp2)|].
    transitivity s7; [exact (leaves_kept_write_internal _ _ _ _ _ _ Hw2 Hip)|].
    exact (leaves_kept_UnpinPage _ _ _ _ _ Hu).
  - apply bind_inv in H as (u1 & s1 & Hf & H).
    apply bind_inv in H as (ip & s1' & Hr & H). apply read_internal_inv in Hr as [-> Hip].
    apply bind_inv in H as (u2 & s2 & Hw & H).
    apply bind_inv in H as (u3 & s3 & Hblock & H).
    apply bind_inv in H as (b & s4 & Hu & H). injection H as _ <-.
    transitivity s1; [exact (keeps_leaves_fetch_deref _ _ _ _ Hf)|].
    transitivity s2; [exact (leaves_kept_write_internal _ _ _ _ _ _ Hw Hip)|].
    transitivity s3; [|exact (leaves_kept_UnpinPage _ _ _ _ _ Hu)].
    match type of Hblock with (if ?c then _ else _) _ = _ => destruct c end.
    + apply bind_inv in Hblock as (newlp & t1 & Hsplit & Hblock).
      apply bind_inv in Hblock as (nl & t1' & Hr & Hblock).
      apply read_internal_inv in Hr as [-> Hnl].
      apply bind_inv in Hblock as (u4 & t2 & Hrec & Hblock).
      apply bind_inv in Hblock as (b' & t3 & Hu' & Hblock). injection Hblock as _ <-.
      transitivity t1.
      { eapply leaves_kept_Split_internal; [exact Hsplit|].
        rewrite (tree_page_at_write _ _ _ _ _ Hw). rewrite decide_True by reflexivity.
        reflexivity. }
      transitivity t2; [exact (IH _ _ _ _ _ _ Hrec)|].
      exact (leaves_kept_UnpinPage _ _ _ _ _ Hu').
    + injection Hblock as _ <-. reflexivity.
Qed.

Lemma tree_page_at_data s p tp :
  tree_page_at s p = Some tp -> page_data s p = Some (TreeData tp).
Proof.
  unfold tree_page_at. destruct (page_data s p) as [[|tp'|]|]; try discriminate.
  intros [= ->]. reflexivity.
Qed.

Lemma read_leaf_ok s p lp :
  tree_page_at s p = Some (TLeaf lp) -> read_leaf p s = Ok lp s.
Proof. intros H. unfold read_leaf, bind. rewrite (read_tree_ok _ _ _ H). reflexivity. Qed.

Lemma read_leaf_inv p s lp s' :
  read_leaf p s = Ok lp s' -> s' = s /\ tree_page_at s p = Some (TLeaf lp).
Proof.
  unfold read_leaf. intros H. apply bind_inv in H as (tp & s1 & H1 & H).
  apply read_tree_inv in H1 as [-> H1]. destruct tp; [|discriminate].
  injection H as <- <-. auto.
Qed.

Lemma insert_sorted_In key value arr :
  Leaf.lookup_sorted key arr = None ->
  In (key, value) (Leaf.insert_sorted key value arr).
Proof.
  induction arr as [|[k w] rest IH]; simpl; [auto|].
  destruct (Z.eqb_spec key k) as [->|Hne]; [discriminate|].
  intros Hl. destruct (Z.ltb_spec key k); simpl; auto.
Qed.

Lemma fresh_ids_write_data p d s a s' :
  write_data p d s = Ok a s' -> fresh_ids s -> fresh_ids s'.
Proof.
  intros H Hf q Hq. apply write_data_inv in H as (Hsome & Hd & Hn & _).
  rewrite Hn. apply Hf. rewrite Hd in Hq. case_decide; subst; auto.
Qed.

(** The descent returns on a tree that routes the key downward. *)
Lemma descend_finds_leaf s key height root fuel :
  routes_downward s key height ->
  is_Some (tree_page_at s root) ->
  (height root < fuel)%nat ->
  exists leaf lp s',
    descend fuel key root s = Ok leaf s' /\
    tree_page_at s' leaf = Some (TLeaf lp).
Proof.
  revert s root.
  induction fuel as [|fuel IH]; intros s root Hroute [tp Htp] Hfuel; [lia|].
  simpl. unfold bind at 1. rewrite (read_tree_ok _ _ _ Htp).
  destruct tp as [lp|ip]; [exists root, lp, s; auto|].
  destruct (Hroute _ _ Htp) as [Hnext Hlt].
  destruct (UnpinPage_spec s root false) as (b & s1 & Hun & Hd1 & _).
  unfold bind at 1. rewrite Hun.
  assert (Hp1 : is_Some (page_data s1 (Internal.Lookup key ip))).
  { rewrite Hd1. destruct Hnext as [tp' Htp']. rewrite (tree_page_at_data _ _ _ Htp'). eauto. }
  destruct (fetch_deref_spec s1 _ Hp1) as (s2 & Hfe & Hd2 & _).
  unfold bind at 1. rewrite Hfe.
  assert (Hd : forall q, page_data s2 q = page_data s q).
  { intros q. rewrite Hd2. apply Hd1. }
  apply (IH s2 (Internal.Lookup key ip)).
  - intros p ip' Hp. rewrite (tree_page_at_ext s s2 Hd) in Hp.
    rewrite (tree_page_at_ext s s2 Hd). apply Hroute. exact Hp.
  - rewrite (tree_page_at_ext s s2 Hd). exact Hnext.
  - lia.
Qed.

(** What [Split] leaves of a leaf: the two halves of its entries, in the
    page and in the new page. *)
Lemma Split_leaf_inv node s p s' lp :
  Split node s = Ok p s' ->
  tree_page_at s node = Some (TLeaf lp) ->
  fresh_ids s ->
  p = next_page_id (buffer_pool_manager_ s) /\
  fresh_ids s' /\
  exists old new,
    tree_page_at s' node = Some (TLeaf old) /\
    tree_page_at s' p = Some (TLeaf new) /\
    lf_array old ++ lf_array new = lf_array lp.
Proof.
  intros H Hnode Hf. unfold Split in H.
  apply bind_inv in H as (s0 & s0' & Hg & H). injection Hg as <- <-.
  apply bind_inv in H as (np & s1 & Hnew & H).
  destruct np as [page_id|]; [|discriminate].
  destruct (leaves_kept_NewPage _ _ _ Hnew Hf) as [Hf1 _].
  apply NewPage_data in Hnew as (Hid & _ & Hd1).
  assert (Hne : node <> page_id).
  { intros ->. assert (Hs : is_Some (page_data s page_id)).
    { rewrite (tree_page_at_data _ _ _ Hnode). eauto. }
    specialize (Hf _ Hs). lia. }
  apply bind_inv in H as (n & s1' & Hr & H). apply read_tree_inv in Hr as [-> Hn].
  assert (n = TLeaf lp) as ->.
  { unfold tree_page_at in Hn, Hnode. rewrite Hd1 in Hn.
    rewrite decide_False in Hn by exact Hne. rewrite Hnode in Hn. congruence. }
  simpl in H.
  apply bind_inv in H as (u & s2 & Hw1 & H).
  apply bind_inv in H as (u' & s3 & Hw2 & H). injection H as <- <-.
  split; [exact Hid|]. split.
  { eapply fresh_ids_write_data; [exact Hw2|].
    eapply fresh_ids_write_data; [exact Hw1|exact Hf1]. }
  eexists _, _. split; [|split].
  - rewrite (tree_page_at_write _ _ _ _ _ Hw2). rewrite decide_True by reflexivity.
    reflexivity.
  - rewrite (tree_page_at_write _ _ _ _ _ Hw2). rewrite decide_False by congruence.
    rewrite (tree_page_at_write _ _ _ _ _ Hw1). rewrite decide_True by reflexivity.
    reflexivity.
  - simpl. apply take_drop.
Qed.

(** [InsertIntoLeaf] from the leaf the descent reaches, after the pair has
    been written to it. *)
Lemma InsertIntoLeaf_at_leaf fuel key value s s0 leaf s1 lp s2 :
  fetch_deref (root_page_id_ s) s = Ok tt s0 ->
  descend fuel key (root_page_id_ s) s0 = Ok leaf s1 ->
  tree_page_at s1 leaf = Some (TLeaf lp) ->
  write_leaf leaf (Leaf.Insert key value lp).1 s1 = Ok tt s2 ->
  InsertIntoLeaf fuel key value s
  = (run (if (Leaf.Insert key value lp).2 >? Leaf.GetMaxSize (Leaf.Insert key value lp).1 then
            do newlp <- Split leaf;
            do oldlp <- read_leaf leaf;
            run InsertIntoParent fuel leaf (Leaf.KeyAt oldlp (Leaf.GetSize oldlp - 1)) newlp;
            run UnpinPage newlp true;
            ret tt
          else ret tt);
     run UnpinPage leaf true;
     ret (negb (Leaf.GetSize lp =? (Leaf.Insert key value lp).2))) s2.
Proof.
  intros Hf Hd Hl Hw. unfold InsertIntoLeaf.
  unfold bind at 1. unfold get at 1. unfold bind at 1. rewrite Hf.
  unfold bind at 1. rewrite Hd.
  unfold bind at 1. rewrite (read_leaf_ok _ _ _ Hl).
  destruct (Leaf.Insert key value lp) as [lp' newSize]. simpl in *.
  unfold bind at 1. rewrite Hw. reflexivity.
Qed.

(** ** Well-formed trees: [InsertIntoParent] returns *)

(** On a well-formed tree every page [InsertIntoParent] fetches is in the
    pool and of the class it is used through: the parent of a tree page is an
    internal page, the children of a page that splits are tree pages, and
    page 0 is the header page.  Each write and each allocation keeps the tree
    well formed, with the new page of a split at the level of the page that
    splits. *)

#[local] Instance pages_stay_refl : Reflexive pages_stay.
Proof. intros s. split; auto. Qed.
#[local] Instance pages_stay_trans : Transitive pages_stay.
Proof. intros s1 s2 s3 [T12 I12] [T23 I23]. split; auto. Qed.

Lemma is_tree_page_in_pool s p : is_tree_page s p -> is_Some (page_data s p).
Proof. intros [tp Htp]. rewrite (tree_page_at_data _ _ _ Htp). eauto. Qed.

Lemma is_internal_is_tree s p : is_internal_page s p -> is_tree_page s p.
Proof. intros [ip Hip]. unfold is_tree_page. rewrite Hip. eauto. Qed.

Lemma page_in_place_stay lvl s s' p tp :
  pages_stay s s' -> page_in_place lvl s p tp -> page_in_place lvl s' p tp.
Proof.
  intros [HT HI] [Hpar Hch]. split.
  - intros Hne. destruct (Hpar Hne) as [Hi Hl]. auto.
  - intros ip k c -> Hin. destruct (Hch ip k c eq_refl Hin) as [Ht Hl]. auto.
Qed.

Lemma same_data_pages_stay s s' : same_data s s' -> pages_stay s s'.
Proof.
  intros Hd. pose proof (tree_page_at_ext s s' Hd) as Ht.
  split; intros p; unfold is_tree_page, is_internal_page; rewrite Ht; auto.
Qed.

Lemma header_not_tree lvl top s p :
  well_formed lvl top s -> is_tree_page s p -> p <> HEADER_PAGE_ID.
Proof.
  intros (_ & [records Hh] & _) [tp Htp] ->.
  rewrite (tree_page_at_data _ _ _ Htp) in Hh. discriminate Hh.
Qed.

Lemma well_formed_same lvl top s s' :
  well_formed lvl top s -> same_data s s' ->
  next_page_id (buffer_pool_manager_ s') = next_page_id (buffer_pool_manager_ s) ->
  well_formed lvl top s'.
Proof.
  intros (Hf & [records Hh] & Hp) Hd Hn. split; [|split].
  - intros p Hin. rewrite Hn. apply Hf. rewrite <- Hd. exact Hin.
  - exists records. rewrite Hd. exact Hh.
  - intros p tp Htp. rewrite (tree_page_at_ext s s' Hd) in Htp.
    destruct (Hp _ _ Htp) as [Hplace Hl]. split; [|exact Hl].
    eapply page_in_place_stay; [apply same_data_pages_stay; exact Hd|exact Hplace].
Qed.

(** A write of a tree page that is in place keeps the tree well formed. *)
Lemma well_formed_write lvl top s p tp a s' :
  well_formed lvl top s ->
  write_data p (TreeData tp) s = Ok a s' ->
  p <> HEADER_PAGE_ID ->
  (is_internal_page s p -> BasePage.IsLeafPage tp = false) ->
  page_in_place lvl s p tp ->
  (lvl p <= top)%nat ->
  well_formed lvl top s' /\ pages_stay s s' /\ tree_page_at s' p = Some tp.
Proof.
  intros (Hf & [records Hh] & Hp) Hw Hne Hkind Hplace Hl.
  pose proof (tree_page_at_write _ _ _ _ _ Hw) as Ht.
  assert (Hstay : pages_stay s s').
  { split; intros q.
    - intros Hq. unfold is_tree_page. rewrite Ht. case_decide; [eauto|exact Hq].
    - intros Hq. unfold is_internal_page. rewrite Ht. case_decide as E; [|exact Hq].
      subst q. specialize (Hkind Hq). destruct tp; [discriminate|eauto]. }
  split; [|split; [exact Hstay|]].
  - split; [exact (fresh_ids_write_data _ _ _ _ _ Hw Hf)|]. split.
    + exists records. apply write_data_inv in Hw as (_ & Hd & _).
      rewrite Hd. rewrite decide_False by congruence. exact Hh.
    + intros q tq Hq. rewrite Ht in Hq. case_decide as E.
      * subst q. injection Hq as <-. split; [|exact Hl].
        eapply page_in_place_stay; eauto.
      * destruct (Hp _ _ Hq) as [Hplace' Hl']. split; [|exact Hl'].
        eapply page_in_place_stay; eauto.
  - rewrite Ht. rewrite decide_True by reflexivity. reflexivity.
Qed.

(** An allocation keeps the tree well formed, whatever level the new page is
    given. *)
Lemma well_formed_NewPage lvl top s l :
  well_formed lvl top s ->
  (1 <= free_pages (buffer_pool_manager_ s))%nat ->
  exists s',
    let p := next_page_id (buffer_pool_manager_ s) in
    let lvl' := fun q => if decide (q = p) then l else lvl q in
    NewPage s = Ok (Some p) s' /\
    well_formed lvl' top s' /\
    (free_pages (buffer_pool_manager_ s') + 1 = free_pages (buffer_pool_manager_ s))%nat /\
    page_data s' p = Some RawData /\
    p <> HEADER_PAGE_ID /\
    (forall q, q <> p -> page_data s' q = page_data s q) /\
    (forall q, is_Some (page_data s q) -> q <> p).
Proof.
  intros Hwf Hfree. pose proof Hwf as (Hf & [records Hh] & Hp).
  destruct (free_pages (buffer_pool_manager_ s)) as [|n] eqn:En; [lia|].
  assert (Hrun : exists s', NewPage s = Ok (Some (next_page_id (buffer_pool_manager_ s))) s' /\
                            free_pages (buffer_pool_manager_ s') = n).
  { unfold NewPage, bind, get_bpm, put_bpm, ret. simpl. rewrite En. eauto. }
  destruct Hrun as (s' & Hrun & Hn). exists s'. simpl.
  pose proof (NewPage_data _ _ _ Hrun) as (_ & Hnext & Hd).
  assert (Hold : forall q, is_Some (page_data s q) -> q <> next_page_id (buffer_pool_manager_ s)).
  { intros q Hq ->. specialize (Hf _ Hq). lia. }
  assert (Hother : forall q, q <> next_page_id (buffer_pool_manager_ s) ->
                             page_data s' q = page_data s q).
  { intros q Hq. rewrite Hd. rewrite decide_False by exact Hq. reflexivity. }
  assert (Htree : forall q tq, tree_page_at s' q = Some tq ->
                               q <> next_page_id (buffer_pool_manager_ s) /\
                               tree_page_at s q = Some tq).
  { intros q tq Hq. unfold tree_page_at in *. rewrite Hd in Hq.
    case_decide; [discriminate|auto]. }
  assert (Hstay : pages_stay s s').
  { split; intros q.
    - intros Hq. pose proof (Hold _ (is_tree_page_in_pool _ _ Hq)) as Hne.
      unfold is_tree_page, tree_page_at. rewrite Hother; [exact Hq|exact Hne].
    - intros Hq. pose proof (Hold _ (is_tree_page_in_pool _ _ (is_internal_is_tree _ _ Hq))) as Hne.
      unfold is_internal_page, tree_page_at. rewrite Hother; [exact Hq|exact Hne]. }
  split; [exact Hrun|]. split; [|split; [lia|]].
  - split; [|split].
    + exact (proj1 (leaves_kept_NewPage _ _ _ Hrun Hf)).
    + exists records. rewrite Hother; [exact Hh|].
      apply Hold. rewrite Hh. eauto.
    + intros q tq Hq. destruct (Htree _ _ Hq) as [Hne Hq0].
      destruct (Hp _ _ Hq0) as [[Hpar Hch] Hl].
      split; [|rewrite decide_False by exact Hne; exact Hl]. split.
      * intros Hparent. destruct (Hpar Hparent) as [Hi Hlv].
        split; [apply Hstay; exact Hi|].
        rewrite !decide_False
          by first [exact Hne | apply Hold, is_tree_page_in_pool, is_internal_is_tree, Hi].
        exact Hlv.
      * intros ip k c -> Hin. destruct (Hch ip k c eq_refl Hin) as [Htc Hlv].
        split; [apply Hstay; exact Htc|].
        rewrite !decide_False by first [exact Hne | apply Hold, is_tree_page_in_pool, Htc].
        exact Hlv.
  - split; [rewrite Hd; rewrite decide_True by reflexivity; reflexivity|].
    split; [intros E; apply (Hold HEADER_PAGE_ID); [rewrite Hh; eauto|congruence]|].
    split; [exact Hother|exact Hold].
Qed.

Lemma SetParentPageId_parent parent tp :
  BasePage.GetParentPageId (BasePage.SetParentPageId parent tp) = parent.
Proof. destruct tp; reflexivity. Qed.

Lemma SetParentPageId_leaf parent tp :
  BasePage.IsLeafPage (BasePage.SetParentPageId parent tp) = BasePage.IsLeafPage tp.
Proof. destruct tp; reflexivity. Qed.

Lemma SetParentPageId_children parent tp ip' :
  BasePage.SetParentPageId parent tp = TInternal ip' ->
  exists ip, tp = TInternal ip /\ in_array ip' = in_array ip.
Proof. destruct tp as [lp|ip]; [discriminate|]. intros [= <-]. eauto. Qed.

(** The buffer-pool calls and the writes return on a well-formed tree and
    leave it well formed, with as many free pages. *)
Lemma ready_fetch_deref lvl top n s p :
  ready lvl top n s ->
  is_Some (page_data s p) ->
  exists s', fetch_deref p s = Ok tt s' /\ ready lvl top n s' /\ same_data s s'.
Proof.
  intros [Hwf Hn] Hp. destruct (fetch_deref_spec s p Hp) as (s' & Hrun & Hd & _).
  exists s'. split; [exact Hrun|].
  destruct (keeps_fetch_deref no_allocation no_allocation_FetchPage _ _ _ _ Hrun)
    as [Hnext Hfree].
  split; [|exact Hd]. split; [|lia].
  exact (well_formed_same _ _ _ _ Hwf Hd Hnext).
Qed.

Lemma ready_UnpinPage lvl top n s p dirty :
  ready lvl top n s ->
  exists b s', UnpinPage p dirty s = Ok b s' /\ ready lvl top n s' /\ same_data s s'.
Proof.
  intros [Hwf Hn]. destruct (UnpinPage_spec s p dirty) as (b & s' & Hrun & Hd & _).
  exists b, s'. split; [exact Hrun|].
  destruct (no_allocation_UnpinPage _ _ _ _ _ Hrun) as [Hnext Hfree].
  split; [|exact Hd]. split; [|lia].
  exact (well_formed_same _ _ _ _ Hwf Hd Hnext).
Qed.

Lemma ready_write lvl top n s p tp :
  ready lvl top n s ->
  is_Some (page_data s p) ->
  p <> HEADER_PAGE_ID ->
  (is_internal_page s p -> BasePage.IsLeafPage tp = false) ->
  page_in_place lvl s p tp ->
  (lvl p <= top)%nat ->
  exists s',
    write_data p (TreeData tp) s = Ok tt s' /\
    ready lvl top n s' /\
    pages_stay s s' /\
    tree_page_at s' p = Some tp /\
    (forall q, q <> p -> tree_page_at s' q = tree_page_at s q).
Proof.
  intros [Hwf Hn] Hp Hne Hkind Hplace Hl.
  destruct (write_data_ok p (TreeData tp) s Hp) as [s' Hrun]. exists s'.
  destruct (well_formed_write _ _ _ _ _ _ _ Hwf Hrun Hne Hkind Hplace Hl)
    as (Hwf' & Hstay & Hat).
  destruct (no_allocation_write_data _ _ _ _ _ Hrun) as [_ Hfree].
  split; [exact Hrun|]. split; [split; [exact Hwf'|lia]|].
  split; [exact Hstay|]. split; [exact Hat|].
  intros q Hq. rewrite (tree_page_at_write _ _ _ _ _ Hrun).
  rewrite decide_False by exact Hq. reflexivity.
Qed.

Lemma ready_reparent lvl top n s parent c :
  ready lvl top n s ->
  is_tree_page s c ->
  is_internal_page s parent ->
  lvl parent = S (lvl c) ->
  exists s', Internal.reparent parent c s = Ok tt s' /\ ready lvl top n s' /\ pages_stay s s'.
Proof.
  intros Hr Hc Hparent Hl.
  destruct (ready_fetch_deref _ _ _ _ c Hr (is_tree_page_in_pool _ _ Hc))
    as (s1 & Hfetch & Hr1 & Hd1).
  pose proof (same_data_pages_stay _ _ Hd1) as Hs1.
  destruct (proj1 Hs1 _ Hc) as [tp Htp].
  destruct (proj1 Hr1) as (_ & _ & Hpages). destruct (Hpages _ _ Htp) as [[Hpar Hch] Hlc].
  destruct (ready_write lvl top n s1 c (BasePage.SetParentPageId parent tp) Hr1)
    as (s2 & Hw & Hr2 & Hs2 & _).
  { rewrite (tree_page_at_data _ _ _ Htp). eauto. }
  { eapply header_not_tree; [exact (proj1 Hr1)|]. unfold is_tree_page. rewrite Htp. eauto. }
  { intros [ip Hip]. rewrite Htp in Hip. injection Hip as ->. reflexivity. }
  { split.
    - intros _. rewrite SetParentPageId_parent. split; [apply Hs1; exact Hparent|exact Hl].
    - intros ip' k c' Hip' Hin. apply SetParentPageId_children in Hip' as (ip & -> & E).
      rewrite E in Hin. exact (Hch ip k c' eq_refl Hin). }
  { exact Hlc. }
  destruct (ready_UnpinPage _ _ _ _ c true Hr2) as (b & s3 & Hun & Hr3 & Hd3).
  exists s3. split.
  - unfold Internal.reparent, bind. rewrite Hfetch. rewrite (read_tree_ok _ _ _ Htp).
    rewrite Hw, Hun. reflexivity.
  - split; [exact Hr3|].
    transitivity s1; [exact Hs1|]. transitivity s2; [exact Hs2|].
    exact (same_data_pages_stay _ _ Hd3).
Qed.

Lemma ready_reparent_all lvl top n parent children :
  forall s,
    ready lvl top n s ->
    is_internal_page s parent ->
    (forall k c, In (k, c) children -> is_tree_page s c /\ lvl parent = S (lvl c)) ->
    exists s',
      Internal.reparent_all parent children s = Ok tt s' /\
      ready lvl top n s' /\ pages_stay s s'.
Proof.
  induction children as [|[k c] rest IH]; intros s Hr Hparent Hch; simpl.
  - exists s. split; [reflexivity|]. split; [exact Hr|reflexivity].
  - destruct (Hch k c (or_introl eq_refl)) as [Hc Hl].
    destruct (ready_reparent _ _ _ _ _ _ Hr Hc Hparent Hl) as (s1 & Hrun & Hr1 & Hs1).
    destruct (IH s1 Hr1) as (s2 & Hrest & Hr2 & Hs2).
    { apply Hs1. exact Hparent. }
    { intros k' c' Hin. destruct (Hch k' c' (or_intror Hin)) as [Hc' Hl'].
      split; [apply Hs1; exact Hc'|exact Hl']. }
    exists s2. split; [unfold bind; rewrite Hrun; exact Hrest|].
    split; [exact Hr2|]. transitivity s1; assumption.
Qed.

Lemma In_take {A} (x : A) n l : In x (take n l) -> In x l.
Proof. intros H. rewrite <- (take_drop n l). apply in_or_app. auto. Qed.

Lemma In_drop {A} (x : A) n l : In x (drop n l) -> In x l.
Proof. intros H. rewrite <- (take_drop n l). apply in_or_app. auto. Qed.

Lemma In_insert_after old_value new_key new_value arr k c :
  In (k, c) (Internal.insert_after old_value new_key new_value arr) ->
  In (k, c) arr \/ (k, c) = (new_key, new_value).
Proof.
  induction arr as [|[k' v'] rest IH]; simpl.
  - intros [H|[]]. auto.
  - destruct (v' =? old_value); simpl.
    + intros [H|[H|H]]; auto.
    + intros [H|H]; [auto|]. destruct (IH H); auto.
Qed.

Lemma read_internal_ok s p ip :
  tree_page_at s p = Some (TInternal ip) -> read_internal p s = Ok ip s.
Proof. intros H. unfold read_internal, bind. rewrite (read_tree_ok _ _ _ H). reflexivity. Qed.

Lemma ready_MoveHalfTo lvl top n s node recipient ip rp :
  ready lvl top n s ->
  tree_page_at s node = Some (TInternal ip) ->
  tree_page_at s recipient = Some (TInternal rp) ->
  node <> recipient ->
  lvl recipient = lvl node ->
  exists s',
    Internal.MoveHalfTo node recipient s = Ok tt s' /\
    ready lvl top n s' /\ pages_stay s s'.
Proof.
  intros Hr Hnode Hrec Hne Hl.
  destruct (proj1 Hr) as (_ & _ & Hpages).
  destruct (Hpages _ _ Hnode) as [[Hnpar Hnch] Hnl].
  destruct (Hpages _ _ Hrec) as [[Hrpar Hrch] Hrl].
  set (keep := Z.to_nat (Internal.GetSize ip - (in_max_size ip + 1 + 1) / 2)).
  set (items := drop keep (in_array ip)).
  destruct (ready_write lvl top n s recipient
              (TInternal (Internal.set_array (in_array rp ++ items) rp)) Hr)
    as (s1 & Hw1 & Hr1 & Hs1 & Hat1 & Hoth1).
  { rewrite (tree_page_at_data _ _ _ Hrec). eauto. }
  { eapply header_not_tree; [exact (proj1 Hr)|]. unfold is_tree_page. rewrite Hrec. eauto. }
  { reflexivity. }
  { split; [exact Hrpar|].
    intros ip' k c [= <-] Hin. simpl in Hin. apply in_app_or in Hin as [Hin|Hin].
    - exact (Hrch rp k c eq_refl Hin).
    - rewrite Hl. apply (Hnch ip k c eq_refl). exact (In_drop _ _ _ Hin). }
  { exact Hrl. }
  assert (Hnode1 : tree_page_at s1 node = Some (TInternal ip)).
  { rewrite Hoth1 by exact Hne. exact Hnode. }
  destruct (ready_write lvl top n s1 node
              (TInternal (Internal.set_array (take keep (in_array ip)) ip)) Hr1)
    as (s2 & Hw2 & Hr2 & Hs2 & Hat2 & Hoth2).
  { rewrite (tree_page_at_data _ _ _ Hnode1). eauto. }
  { eapply header_not_tree; [exact (proj1 Hr1)|]. unfold is_tree_page. rewrite Hnode1. eauto. }
  { reflexivity. }
  { split.
    - intros Hp. destruct (Hnpar Hp) as [Hi Hlv]. split; [apply Hs1; exact Hi|exact Hlv].
    - intros ip' k c [= <-] Hin. simpl in Hin.
      destruct (Hnch ip k c eq_refl (In_take _ _ _ Hin)) as [Ht Hlv].
      split; [apply Hs1; exact Ht|exact Hlv]. }
  { exact Hnl. }
  destruct (ready_reparent_all lvl top n recipient items s2 Hr2) as (s3 & Hre & Hr3 & Hs3).
  { apply Hs2. exists (Internal.set_array (in_array rp ++ items) rp). exact Hat1. }
  { intros k c Hin. destruct (Hnch ip k c eq_refl (In_drop _ _ _ Hin)) as [Ht Hlv].
    split; [apply Hs2, Hs1; exact Ht|congruence]. }
  exists s3. split.
  - subst items keep. unfold Internal.MoveHalfTo.
    unfold bind at 1. rewrite (read_internal_ok _ _ _ Hnode).
    unfold bind at 1. rewrite (read_internal_ok _ _ _ Hrec). cbv zeta.
    unfold bind at 1. unfold write_internal at 1. rewrite Hw1.
    unfold bind at 1. unfold write_internal at 1. rewrite Hw2. exact Hre.
  - split; [exact Hr3|]. transitivity s1; [exact Hs1|]. transitivity s2; assumption.
Qed.

Lemma Split_internal_run node s p s1 ip :
  NewPage s = Ok (Some p) s1 ->
  tree_page_at s1 node = Some (TInternal ip) ->
  Split node s
  = (run write_internal p (Internal.Init p (in_parent_page_id ip) (internal_max_size_ s));
     run Internal.MoveHalfTo node p;
     ret p) s1.
Proof.
  intros Hnew Hnode. unfold Split. unfold bind at 1. unfold get at 1.
  unfold bind at 1. rewrite Hnew. unfold bind at 1. rewrite (read_tree_ok _ _ _ Hnode).
  reflexivity.
Qed.

(** [Split] of an internal page returns on a well-formed tree with a free
    page, and leaves the tree well formed with the new page at the level of
    the page. *)
Lemma ready_Split_internal lvl top n s node ip :
  ready lvl top (S n) s ->
  tree_page_at s node = Some (TInternal ip) ->
  exists p s' lvl',
    Split node s = Ok p s' /\
    ready lvl' top n s' /\
    pages_stay s s' /\
    is_internal_page s' p /\
    lvl' p = lvl node /\
    lvl' node = lvl node.
Proof.
  intros [Hwf Hn] Hnode.
  destruct (well_formed_NewPage lvl top s (lvl node) Hwf)
    as (s1 & Hnew & Hwf1 & Hfree1 & Hraw & Hhdr & Hoth & Hold); [lia|].
  set (p := next_page_id (buffer_pool_manager_ s)) in *.
  set (lvl' := fun q => if decide (q = p) then lvl node else lvl q) in *.
  assert (Hnp : node <> p).
  { apply Hold. rewrite (tree_page_at_data _ _ _ Hnode). eauto. }
  assert (Hlp : lvl' p = lvl node) by (unfold lvl'; rewrite decide_True by reflexivity; reflexivity).
  assert (Hln : lvl' node = lvl node) by (unfold lvl'; rewrite decide_False by exact Hnp; reflexivity).
  assert (Hr1 : ready lvl' top n s1) by (split; [exact Hwf1|lia]).
  assert (Hs01 : pages_stay s s1).
  { split; intros q Hq.
    - unfold is_tree_page, tree_page_at. rewrite Hoth; [exact Hq|].
      apply Hold, is_tree_page_in_pool, Hq.
    - unfold is_internal_page, tree_page_at. rewrite Hoth; [exact Hq|].
      apply Hold, is_tree_page_in_pool, is_internal_is_tree, Hq. }
  assert (Hnode1 : tree_page_at s1 node = Some (TInternal ip)).
  { unfold tree_page_at. rewrite Hoth by exact Hnp. exact Hnode. }
  destruct Hwf1 as (Hf1 & Hh1 & Hpages1).
  destruct (Hpages1 _ _ Hnode1) as [[Hnpar Hnch] Hnl].
  destruct (ready_write lvl' top n s1 p
              (TInternal (Internal.Init p (in_parent_page_id ip) (internal_max_size_ s))) Hr1)
    as (s2 & Hw & Hr2 & Hs2 & Hat2 & Hoth2).
  { rewrite Hraw. eauto. }
  { exact Hhdr. }
  { reflexivity. }
  { split.
    - simpl. intros Hp. destruct (Hnpar Hp) as [Hi Hlv]. split; [exact Hi|].
      simpl in Hlv. congruence.
    - intros ip' k c [= <-] Hin. destruct Hin. }
  { rewrite Hlp. rewrite <- Hln. exact Hnl. }
  destruct (ready_MoveHalfTo lvl' top n s2 node p ip
              (Internal.Init p (in_parent_page_id ip) (internal_max_size_ s)) Hr2)
    as (s3 & Hmove & Hr3 & Hs3).
  { rewrite Hoth2 by exact Hnp. exact Hnode1. }
  { exact Hat2. }
  { exact Hnp. }
  { congruence. }
  exists p, s3, lvl'. split.
  - rewrite (Split_internal_run _ _ _ _ _ Hnew Hnode1).
    unfold bind at 1. unfold write_internal at 1. rewrite Hw.
    unfold bind at 1. rewrite Hmove. reflexivity.
  - split; [exact Hr3|].
    split; [transitivity s1; [exact Hs01|]; transitivity s2; assumption|].
    split; [apply Hs3; exists (Internal.Init p (in_parent_page_id ip) (internal_max_size_ s));
            exact Hat2|].
    auto.
Qed.

Lemma SetParentPageId_returns s node parent :
  is_tree_page s node ->
  exists s',
    SetParentPageId node parent s = Ok tt s' /\
    pages_stay s s' /\
    (forall q, q <> node -> page_data s' q = page_data s q).
Proof.
  intros [tp Htp].
  destruct (write_data_ok node (TreeData (BasePage.SetParentPageId parent tp)) s) as [s' Hw].
  { rewrite (tree_page_at_data _ _ _ Htp). eauto. }
  exists s'. split; [unfold SetParentPageId, bind; rewrite (read_tree_ok _ _ _ Htp); exact Hw|].
  pose proof (tree_page_at_write _ _ _ _ _ Hw) as Ht.
  split.
  - split; intros q Hq.
    + unfold is_tree_page. rewrite Ht. case_decide; [eauto|exact Hq].
    + unfold is_internal_page. rewrite Ht. case_decide as E; [|exact Hq].
      subst q. destruct Hq as [ip Hip]. rewrite Htp in Hip. injection Hip as ->.
      simpl. eauto.
  - intros q Hq. apply write_data_inv in Hw as (_ & Hd & _).
    rewrite Hd. rewrite decide_False by exact Hq. reflexivity.
Qed.

Lemma read_data_ok s p d : page_data s p = Some d -> read_data p s = Ok d s.
Proof.
  unfold page_data, read_data, bind, get_bpm, ret.
  destruct (pages (buffer_pool_manager_ s) !! p) as [pg|]; simpl; [|discriminate].
  intros [= ->]. reflexivity.
Qed.

Lemma UpdateRootPageId_returns s insert_record records :
  page_data s HEADER_PAGE_ID = Some (HeaderData records) ->
  exists s',
    UpdateRootPageId insert_record s = Ok tt s' /\
    (forall q, tree_page_at s' q = tree_page_at s q) /\
    (forall q, is_Some (page_data s q) -> is_Some (page_data s' q)).
Proof.
  intros Hh.
  destruct (fetch_deref_spec s HEADER_PAGE_ID) as (s1 & Hfetch & Hd1 & _).
  { rewrite Hh. eauto. }
  assert (Hh1 : page_data s1 HEADER_PAGE_ID = Some (HeaderData records)).
  { rewrite Hd1. exact Hh. }
  destruct (write_data_ok HEADER_PAGE_ID
              (HeaderData (Header.upsert_root (index_name_ s) (root_page_id_ s) records)) s1)
    as [s2 Hw].
  { rewrite Hh1. eauto. }
  destruct (UnpinPage_spec s2 HEADER_PAGE_ID true) as (b & s3 & Hun & Hd3 & _).
  exists s3. split.
  - unfold UpdateRootPageId. unfold bind at 1. unfold get at 1.
    unfold bind at 1. rewrite Hfetch. unfold bind at 1. rewrite (read_data_ok _ _ _ Hh1).
    unfold Header.InsertRecord, Header.UpdateRecord.
    destruct insert_record; unfold bind at 1; rewrite Hw; unfold bind at 1; rewrite Hun;
      reflexivity.
  - pose proof (write_data_inv _ _ _ _ _ Hw) as (_ & Hd2 & _). split.
    + intros q. unfold tree_page_at. rewrite Hd3, Hd2. case_decide as E.
      * subst q. rewrite <- Hd1, Hh1. reflexivity.
      * rewrite Hd1. reflexivity.
    + intros q Hq. rewrite Hd3, Hd2. case_decide; [eauto|]. rewrite Hd1. exact Hq.
Qed.

(** [InsertIntoParent] for a node that has no parent: the branch of lines
    157-176. *)
Lemma InsertIntoParent_new_root lvl top n s fuel old_node key new_node told :
  ready lvl top n s ->
  (1 <= n)%nat ->
  tree_page_at s old_node = Some told ->
  BasePage.GetParentPageId told = INVALID_PAGE_ID ->
  is_tree_page s new_node ->
  exists s', InsertIntoParent (S fuel) old_node key new_node s = Ok tt s'.
Proof.
  intros [Hwf Hn] Hone Hold Hparent Hnew.
  destruct (well_formed_NewPage lvl top s 0%nat Hwf)
    as (s1 & Hnewp & _ & _ & Hraw & Hhdr & Hoth & Hfresh); [lia|].
  set (p := next_page_id (buffer_pool_manager_ s)) in *.
  destruct Hwf as (_ & [records Hh] & _).
  assert (Holdp : old_node <> p).
  { apply Hfresh. rewrite (tree_page_at_data _ _ _ Hold). eauto. }
  assert (Hnewne : new_node <> p) by (apply Hfresh, is_tree_page_in_pool, Hnew).
  destruct (write_data_ok p (TreeData (TInternal
              (Internal.Init p INVALID_PAGE_ID (internal_max_size_ s)))) s1) as [s2 Hw].
  { rewrite Hraw. eauto. }
  pose proof (tree_page_at_write _ _ _ _ _ Hw) as Ht2.
  pose proof (write_data_inv _ _ _ _ _ Hw) as (_ & Hd2 & _).
  destruct (set_root_page_id p s2) as [u s3|e] eqn:Hset; [|discriminate Hset].
  assert (Hd3 : forall q, page_data s3 q = page_data s2 q).
  { intros q. injection Hset as _ <-. reflexivity. }
  destruct (UpdateRootPageId_returns s3 false records) as (s4 & Hup & Ht4 & _).
  { rewrite Hd3, Hd2. rewrite decide_False by congruence.
    rewrite Hoth by congruence. exact Hh. }
  assert (Htree2 : forall q, q <> p -> tree_page_at s4 q = tree_page_at s q).
  { intros q Hq. rewrite Ht4. unfold tree_page_at. rewrite Hd3, Hd2.
    rewrite decide_False by exact Hq. rewrite Hoth by exact Hq. reflexivity. }
  assert (Hp4 : is_internal_page s4 p).
  { unfold is_internal_page. rewrite Ht4. unfold tree_page_at. rewrite Hd3.
    fold (tree_page_at s2 p). rewrite Ht2. rewrite decide_True by reflexivity. eauto. }
  destruct (SetParentPageId_returns s4 old_node p) as (s5 & Hp1 & Hs5 & _).
  { unfold is_tree_page. rewrite Htree2 by exact Holdp. rewrite Hold. eauto. }
  destruct (SetParentPageId_returns s5 new_node p) as (s6 & Hp2 & Hs6 & _).
  { apply Hs5. unfold is_tree_page. rewrite Htree2 by exact Hnewne. exact Hnew. }
  destruct (proj2 Hs6 _ (proj2 Hs5 _ Hp4)) as [ip Hip].
  destruct (write_data_ok p (TreeData (TInternal
              (Internal.PopulateNewRoot old_node key new_node ip))) s6) as [s7 Hw7].
  { rewrite (tree_page_at_data _ _ _ Hip). eauto. }
  destruct (UnpinPage_spec s7 p true) as (b & s8 & Hun & _).
  exists s8. simpl.
  unfold bind at 1. unfold get at 1. unfold bind at 1. rewrite (read_tree_ok _ _ _ Hold).
  rewrite Hparent. simpl.
  unfold bind at 1. rewrite Hnewp.
  unfold bind at 1. unfold write_internal at 1. rewrite Hw.
  unfold bind at 1. rewrite Hset.
  unfold bind at 1. rewrite Hup.
  unfold bind at 1. rewrite Hp1.
  unfold bind at 1. rewrite Hp2.
  unfold bind at 1. rewrite (read_internal_ok _ _ _ Hip).
  unfold bind at 1. unfold write_internal at 1. rewrite Hw7.
  unfold bind at 1. rewrite Hun. reflexivity.
Qed.

(** [InsertIntoParent] returns on a well-formed tree when the fuel and the
    free pages of the pool cover the levels above the node: each level can
    split once, and the root can be replaced. *)
Lemma InsertIntoParent_returns fuel :
  forall lvl top n s old_node key new_node,
    ready lvl top n s ->
    is_tree_page s old_node ->
    is_tree_page s new_node ->
    lvl new_node = lvl old_node ->
    (top - lvl old_node < fuel)%nat ->
    (top - lvl old_node + 1 <= n)%nat ->
    exists s', InsertIntoParent fuel old_node key new_node s = Ok tt s'.
Proof.
  induction fuel as [|fuel IH]; intros lvl top n s old_node key new_node
    Hr [told Hold] Hnew Hlvl Hfuel Hfree; [lia|].
  destruct (Z.eqb_spec (BasePage.GetParentPageId told) INVALID_PAGE_ID) as [Hroot|Hinner].
  { eapply InsertIntoParent_new_root; eauto. lia. }
  destruct (proj1 Hr) as (_ & _ & Hpages).
  destruct (Hpages _ _ Hold) as [[Hopar _] Hol].
  destruct (Hopar Hinner) as [[ip Hip] Hlq].
  set (q := BasePage.GetParentPageId told) in *.
  destruct (ready_fetch_deref _ _ _ _ q Hr) as (s1 & Hfetch & Hr1 & Hd1).
  { rewrite (tree_page_at_data _ _ _ Hip). eauto. }
  pose proof (same_data_pages_stay _ _ Hd1) as Hs1.
  assert (Hip1 : tree_page_at s1 q = Some (TInternal ip)).
  { rewrite (tree_page_at_ext _ _ Hd1). exact Hip. }
  destruct (proj1 Hr1) as (_ & _ & Hpages1).
  destruct (Hpages1 _ _ Hip1) as [[Hqpar Hqch] Hql].
  set (ip' := Internal.set_array
                (Internal.insert_after old_node key new_node (in_array ip)) ip).
  destruct (ready_write lvl top n s1 q (TInternal ip') Hr1)
    as (s2 & Hw & Hr2 & Hs2 & Hat2 & _).
  { rewrite (tree_page_at_data _ _ _ Hip1). eauto. }
  { eapply header_not_tree; [exact (proj1 Hr1)|]. unfold is_tree_page. rewrite Hip1. eauto. }
  { reflexivity. }
  { split; [exact Hqpar|].
    intros ip0 k c [= <-] Hin. simpl in Hin.
    apply In_insert_after in Hin as [Hin|[= -> ->]].
    - exact (Hqch ip k c eq_refl Hin).
    - split; [apply Hs1; exact Hnew|congruence]. }
  { exact Hql. }
  assert (Hrun : InsertIntoParent (S fuel) old_node key new_node s
                 = (run (if Internal.GetSize ip' >? Internal.GetMaxSize ip' then
                           do newlp <- Split q;
                           do nl <- read_internal newlp;
                           run InsertIntoParent fuel q (Internal.KeyAt nl 0) newlp;
                           run UnpinPage newlp true;
                           ret tt
                         else ret tt);
                    run UnpinPage q true;
                    ret tt) s2).
  { simpl. unfold bind at 1. unfold get at 1. unfold bind at 1.
    rewrite (read_tree_ok _ _ _ Hold). fold q.
    destruct (Z.eqb_spec q INVALID_PAGE_ID) as [E|_]; [contradiction|].
    unfold bind at 1. rewrite Hfetch.
    unfold bind at 1. rewrite (read_internal_ok _ _ _ Hip1).
    unfold bind at 1. unfold write_internal at 1. fold ip'. rewrite Hw. reflexivity. }
  rewrite Hrun. clear Hrun.
  assert (Hblock : exists s3,
             (if Internal.GetSize ip' >? Internal.GetMaxSize ip' then
                do newlp <- Split q;
                do nl <- read_internal newlp;
                run InsertIntoParent fuel q (Internal.KeyAt nl 0) newlp;
                run UnpinPage newlp true;
                ret tt
              else ret tt) s2 = Ok tt s3).
  { destruct (Internal.GetSize ip' >? Internal.GetMaxSize ip'); [|exists s2; reflexivity].
    destruct n as [|n]; [lia|].
    destruct (ready_Split_internal lvl top n s2 q ip' Hr2 Hat2)
      as (p & s3 & lvl' & Hsplit & Hr3 & Hs3 & [nl Hnl] & Hlp & Hlq').
    destruct (IH lvl' top n s3 q (Internal.KeyAt nl 0) p Hr3) as (s4 & Hrec).
    { apply Hs3. unfold is_tree_page. rewrite Hat2. eauto. }
    { unfold is_tree_page. rewrite Hnl. eauto. }
    { congruence. }
    { rewrite Hlq'. lia. }
    { rewrite Hlq'. lia. }
    destruct (UnpinPage_spec s4 p true) as (b & s5 & Hun & _).
    exists s5. unfold bind at 1. rewrite Hsplit.
    unfold bind at 1. rewrite (read_internal_ok _ _ _ Hnl).
    unfold bind at 1. rewrite Hrec. unfold bind at 1. rewrite Hun. reflexivity. }
  destruct Hblock as (s3 & Hblock).
  destruct (UnpinPage_spec s3 q true) as (b & s4 & Hun & _).
  exists s4. unfold bind at 1. rewrite Hblock. unfold bind at 1. rewrite Hun. reflexivity.
Qed.

Lemma Split_leaf_run node s p s1 lp :
  NewPage s = Ok (Some p) s1 ->
  tree_page_at s1 node = Some (TLeaf lp) ->
  Split node s
  = (run write_leaf p (Leaf.MoveHalfTo lp
                         (Leaf.Init p (lf_parent_page_id lp) (leaf_max_size_ s))).2;
     run write_leaf node (Leaf.MoveHalfTo lp
                            (Leaf.Init p (lf_parent_page_id lp) (leaf_max_size_ s))).1;
     ret p) s1.
Proof.
  intros Hnew Hnode. unfold Split. unfold bind at 1. unfold get at 1.
  unfold bind at 1. rewrite Hnew. unfold bind at 1. rewrite (read_tree_ok _ _ _ Hnode).
  reflexivity.
Qed.

(** [Split] of a leaf returns on a well-formed tree with a free page, and
    leaves the tree well formed with the new leaf at the level of the
    leaf. *)
Lemma ready_Split_leaf lvl top n s node lp :
  ready lvl top (S n) s ->
  tree_page_at s node = Some (TLeaf lp) ->
  exists p s' lvl' old,
    Split node s = Ok p s' /\
    ready lvl' top n s' /\
    tree_page_at s' node = Some (TLeaf old) /\
    is_tree_page s' p /\
    lvl' p = lvl node /\
    lvl' node = lvl node.
Proof.
  intros [Hwf Hn] Hnode.
  destruct (well_formed_NewPage lvl top s (lvl node) Hwf)
    as (s1 & Hnew & Hwf1 & Hfree1 & Hraw & Hhdr & Hoth & Hold); [lia|].
  set (p := next_page_id (buffer_pool_manager_ s)) in *.
  set (lvl' := fun q => if decide (q = p) then lvl node else lvl q) in *.
  assert (Hnp : node <> p).
  { apply Hold. rewrite (tree_page_at_data _ _ _ Hnode). eauto. }
  assert (Hlp : lvl' p = lvl node) by (unfold lvl'; rewrite decide_True by reflexivity; reflexivity).
  assert (Hln : lvl' node = lvl node) by (unfold lvl'; rewrite decide_False by exact Hnp; reflexivity).
  assert (Hr1 : ready lvl' top n s1) by (split; [exact Hwf1|lia]).
  assert (Hnode1 : tree_page_at s1 node = Some (TLeaf lp)).
  { unfold tree_page_at. rewrite Hoth by exact Hnp. exact Hnode. }
  destruct Hwf1 as (Hf1 & Hh1 & Hpages1).
  destruct (Hpages1 _ _ Hnode1) as [[Hnpar _] Hnl].
  set (halves := Leaf.MoveHalfTo lp (Leaf.Init p (lf_parent_page_id lp) (leaf_max_size_ s))).
  destruct (ready_write lvl' top n s1 p (TLeaf halves.2) Hr1)
    as (s2 & Hw & Hr2 & Hs2 & Hat2 & Hoth2).
  { rewrite Hraw. eauto. }
  { exact Hhdr. }
  { intros [ip Hip]. unfold tree_page_at in Hip. rewrite Hraw in Hip. discriminate Hip. }
  { split.
    - simpl. intros Hp. destruct (Hnpar Hp) as [Hi Hlv]. split; [exact Hi|].
      simpl in Hlv. congruence.
    - intros ip' k c Hip'. discriminate Hip'. }
  { rewrite Hlp. rewrite <- Hln. exact Hnl. }
  assert (Hnode2 : tree_page_at s2 node = Some (TLeaf lp)).
  { rewrite Hoth2 by exact Hnp. exact Hnode1. }
  destruct (ready_write lvl' top n s2 node (TLeaf halves.1) Hr2)
    as (s3 & Hw3 & Hr3 & Hs3 & Hat3 & Hoth3).
  { rewrite (tree_page_at_data _ _ _ Hnode2). eauto. }
  { eapply header_not_tree; [exact (proj1 Hr2)|]. unfold is_tree_page. rewrite Hnode2. eauto. }
  { intros [ip Hip]. rewrite Hnode2 in Hip. discriminate Hip. }
  { split.
    - simpl. intros Hp. destruct (Hnpar Hp) as [Hi Hlv]. split; [apply Hs2; exact Hi|exact Hlv].
    - intros ip' k c Hip'. discriminate Hip'. }
  { exact Hnl. }
  exists p, s3, lvl', halves.1. split.
  - rewrite (Split_leaf_run _ _ _ _ _ Hnew Hnode1). fold halves.
    unfold bind at 1. unfold write_leaf at 1. rewrite Hw.
    unfold bind at 1. unfold write_leaf at 1. rewrite Hw3. reflexivity.
  - split; [exact Hr3|]. split; [exact Hat3|].
    split; [apply Hs3; unfold is_tree_page; rewrite Hat2; eauto|]. auto.
Qed.

(** The rest of [InsertIntoLeaf] after the pair has been written to the
    leaf (lines 109-118) returns on a well-formed tree. *)
Lemma InsertIntoLeaf_split_returns lvl top n s fuel leaf lp (over r : bool) :
  ready lvl top n s ->
  tree_page_at s leaf = Some (TLeaf lp) ->
  (top - lvl leaf < fuel)%nat ->
  (top - lvl leaf + 2 <= n)%nat ->
  exists s',
    (run (if over then
            do newlp <- Split leaf;
            do oldlp <- read_leaf leaf;
            run InsertIntoParent fuel leaf (Leaf.KeyAt oldlp (Leaf.GetSize oldlp - 1)) newlp;
            run UnpinPage newlp true;
            ret tt
          else ret tt);
     run UnpinPage leaf true;
     ret r) s = Ok r s'.
Proof.
  intros Hr Hleaf Hfuel Hfree.
  assert (Hblock : exists s1,
             (if over then
                do newlp <- Split leaf;
                do oldlp <- read_leaf leaf;
                run InsertIntoParent fuel leaf
                      (Leaf.KeyAt oldlp (Leaf.GetSize oldlp - 1)) newlp;
                run UnpinPage newlp true;
                ret tt
              else ret tt) s = Ok tt s1).
  { destruct over; [|exists s; reflexivity].
    destruct n as [|n]; [lia|].
    destruct (ready_Split_leaf lvl top n s leaf lp Hr Hleaf)
      as (p & s1 & lvl' & old & Hsplit & Hr1 & Hold & Hp & Hlp & Hll).
    destruct (InsertIntoParent_returns fuel lvl' top n s1 leaf
                (Leaf.KeyAt old (Leaf.GetSize old - 1)) p Hr1) as (s2 & Hpar).
    { unfold is_tree_page. rewrite Hold. eauto. }
    { exact Hp. }
    { congruence. }
    { rewrite Hll. exact Hfuel. }
    { rewrite Hll. lia. }
    destruct (UnpinPage_spec s2 p true) as (b & s3 & Hun & _).
    exists s3. unfold bind at 1. rewrite Hsplit.
    unfold bind at 1. rewrite (read_leaf_ok _ _ _ Hold).
    unfold bind at 1. rewrite Hpar. unfold bind at 1. rewrite Hun. reflexivity. }
  destruct Hblock as (s1 & Hblock).
  destruct (UnpinPage_spec s1 leaf true) as (b & s2 & Hun & _).
  exists s2. unfold bind at 1. rewrite Hblock. unfold bind at 1. rewrite Hun. reflexivity.
Qed.

(** The tree of the five inserts is well formed, with the root one level
    above the leaves. *)
Lemma two_level_pages p d :
  page_data two_level p = Some d ->
  (p = 3 /\ d = TreeData (TInternal (mkInternalPage 3 INVALID_PAGE_ID 4 [(0, 1); (2, 2)]))) \/
  (p = 2 /\ d = TreeData (TLeaf (mkLeafPage 2 3 4 INVALID_PAGE_ID
                                            [(3, 30); (4, 40); (5, 50)]))) \/
  (p = 1 /\ d = TreeData (TLeaf (mkLeafPage 1 3 4 2 [(1, 10); (2, 20)]))) \/
  (p = 0 /\ d = HeaderData [("index"%string, 3)]).
Proof.
  unfold page_data, two_level. simpl. intros H.
  repeat (rewrite lookup_insert in H; case_decide; subst; simpl in H;
          [injection H as <-; auto 6|]).
  rewrite lookup_singleton in H. case_decide; subst; simpl in H; [|discriminate H].
  injection H as <-. auto 6.
Qed.

Example two_level_well_formed : well_formed two_level_height 1 two_level.
Proof.
  split; [|split].
  - intros p [d Hd]. apply two_level_pages in Hd.
    destruct Hd as [[-> _]|[[-> _]|[[-> _]|[-> _]]]]; vm_compute; reflexivity.
  - eexists. vm_compute. reflexivity.
  - intros p tp Htp. apply tree_page_at_data, two_level_pages in Htp.
    destruct Htp as [[-> [= ->]]|[[-> [= ->]]|[[-> [= ->]]|[-> [=]]]]].
    + split; [|vm_compute; lia]. split; [intros H; contradiction H; reflexivity|].
      intros ip k c [= <-] [[= <- <-]|[[= <- <-]|[]]];
        (split; [eexists; vm_compute; reflexivity|reflexivity]).
    + split; [|vm_compute; lia]. split; [|intros ip k c [=]].
      intros _. split; [eexists; vm_compute; reflexivity|reflexivity].
    + split; [|vm_compute; lia]. split; [|intros ip k c [=]].
      intros _. split; [eexists; vm_compute; reflexivity|reflexivity].
Qed.

(** ** The theorem *)

(** A new key for a full leaf needs a page for the split: when the pool has
    none, [Insert] ends with [std::bad_alloc] (lines 131-133) after the pair
    has been written to the leaf. *)
Example Insert_full_leaf_no_page :
  Insert 8 5 50 full_leaf_no_page = Err BadAlloc.
Proof. vm_compute. reflexivity. Qed.

(** A split that goes up to the root: the key 11 splits the last leaf, the
    fifth entry splits the root, page 3, and page 8 becomes the root over
    the pages 3 and 7, with the first key of page 7 as their separator. *)
Example Insert_cascading_split :
  exists s',
    Insert 8 11 110 ten_keys = Ok true s' /\
    internal_entries ten_keys 3 = Some [(0, 1); (2, 2); (4, 4); (6, 5)] /\
    leaf_entries ten_keys 5 = Some [(7, 70); (8, 80); (9, 90); (10, 100)] /\
    root_page_id_ s' = 8 /\
    internal_entries s' 8 = Some [(0, 3); (4, 7)] /\
    internal_entries s' 3 = Some [(0, 1); (2, 2)] /\
    internal_entries s' 7 = Some [(4, 4); (6, 5); (8, 6)] /\
    leaf_entries s' 5 = Some [(7, 70); (8, 80)] /\
    leaf_entries s' 6 = Some [(9, 90); (10, 100); (11, 110)] /\
    header_records s' = Some [("index"%string, 8)].
Proof. eexists. evaluate. Qed.


